(** * Top-down shooter: the simulation core of [main.cpp]

    A shallow embedding of the state-update engine of the game (entities,
    projectile pool, actors, rooms and the game state machine) followed by
    the properties of the design document that are checked against it.

    Conventions of the embedding:
    - a C++ [float] is an IEEE-754 binary32 value, a [double] a binary64
      value, both computed with round-to-nearest-even and without excess
      precision (module [F], module [D]);
    - a C++ [int] is a [Z] with 32-bit two's complement wrap-around written
      out at each arithmetic step ([I32.wrap]); [size_t] is 64 bits wide;
    - a struct is a record, a derived struct embeds the record of its base
      in a field [base], a member function takes the object last and
      returns the updated object;
    - [std::vector] is a [list], indexed with stdpp's lookup and insert; an
      access outside the vector has no defined behaviour and makes the
      enclosing function return [None];
    - what comes from outside the repository (the Mersenne twister and its
      distributions, [cos] and [sin] of libm, the keyboard, the frame timer
      and the wall clock of raylib) is a parameter: class [Platform] and
      record [Input]. *)

From Stdlib Require Import ZArith Bool String.
From Stdlib.Floats Require Import SpecFloat.
From stdpp Require Import base option list.

Set Default Proof Using "Type".
Local Open Scope Z_scope.

(** ** Machine arithmetic *)

Declare Scope F_scope.
Delimit Scope F_scope with F.

(** [float]: binary32. *)
Module F.
Definition prec : Z := 24.
Definition emax : Z := 128.

Definition add : spec_float → spec_float → spec_float := SFadd prec emax.
Definition sub : spec_float → spec_float → spec_float := SFsub prec emax.
Definition mul : spec_float → spec_float → spec_float := SFmul prec emax.
Definition div : spec_float → spec_float → spec_float := SFdiv prec emax.
Definition sqrt : spec_float → spec_float := SFsqrt prec emax.
Definition neg : spec_float → spec_float := SFopp.
Definition abs : spec_float → spec_float := SFabs.

Definition ltb (a b : spec_float) : bool := SFltb a b.
Definition leb (a b : spec_float) : bool := SFleb a b.
Definition gtb (a b : spec_float) : bool :=
  match SFcompare a b with Some Gt => true | _ => false end.
Definition geb (a b : spec_float) : bool :=
  match SFcompare a b with Some (Gt | Eq) => true | _ => false end.
Definition eqb (a b : spec_float) : bool := SFeqb a b.

(** Conversion of an [int] (or of an integer literal) to [float]. *)
Definition ofZ (z : Z) : spec_float := binary_normalize prec emax z 0 false.

(** The decimal literal [n/d] written with suffix [f]: the binary32 value
    nearest to the quotient, for [n] and [d] below [2^24]. *)
Definition literal (n d : Z) : spec_float := div (ofZ n) (ofZ d).

(** [std::min] and [std::max] on floats, as <algorithm> defines them. *)
Definition min (a b : spec_float) : spec_float := if ltb b a then b else a.
Definition max (a b : spec_float) : spec_float := if ltb a b then b else a.
End F.

Abbreviation float := spec_float (only parsing).

Notation "a + b" := (F.add a b) : F_scope.
Notation "a - b" := (F.sub a b) : F_scope.
Notation "a * b" := (F.mul a b) : F_scope.
Notation "- a" := (F.neg a) : F_scope.
Notation "a <? b" := (F.ltb a b) : F_scope.
Notation "a <=? b" := (F.leb a b) : F_scope.
Notation "a >? b" := (F.gtb a b) : F_scope.
Notation "a >=? b" := (F.geb a b) : F_scope.

(** [double]: binary64, with the two conversions between the formats. *)
Module D.
Definition prec : Z := 53.
Definition emax : Z := 1024.

Definition add : spec_float → spec_float → spec_float := SFadd prec emax.
Definition mul : spec_float → spec_float → spec_float := SFmul prec emax.

Definition convert (p e : Z) (v : spec_float) : spec_float :=
  match v with
  | S754_finite s m ex => binary_normalize p e (cond_Zopp s (Zpos m)) ex s
  | _ => v
  end.

(** Promotion [float] to [double] (exact). *)
Definition ofF : spec_float → spec_float := convert prec emax.
(** Conversion [double] to [float] at an assignment (rounds). *)
Definition toF : spec_float → spec_float := convert F.prec F.emax.
End D.

Abbreviation double := spec_float (only parsing).

(** [int]: 32 bits, two's complement. *)
Module I32.
Definition wrap (z : Z) : Z := (z + 2 ^ 31) mod 2 ^ 32 - 2 ^ 31.
Definition min_int : Z := - 2 ^ 31.
Definition max_int : Z := 2 ^ 31 - 1.
Definition in_range (z : Z) : Prop := min_int ≤ z ≤ max_int.
End I32.

(** [size_t]: 64 bits, unsigned; [ofInt] is the conversion an [int] operand
    undergoes when it is compared with a [size_t]. *)
Module SizeT.
Definition wrap (z : Z) : Z := z mod 2 ^ 64.
Definition ofInt (z : Z) : Z := wrap z.
End SizeT.

(** ** Constants for game settings *)

Definition SCREEN_WIDTH : Z := 800.
Definition SCREEN_HEIGHT : Z := 600.
Definition PLAYER_SPEED : float := F.ofZ 200.
Definition ENEMY_SPEED : float := F.ofZ 80.
Definition PLAYER_HEALTH : Z := 100.
Definition ENEMY_HEALTH : Z := 30.
Definition BOSS_HEALTH : Z := 150.
Definition PLAYER_SHOOT_COOLDOWN : float := F.literal 3 10.
Definition ENEMY_SHOOT_COOLDOWN : float := F.literal 15 10.
Definition PROJECTILE_SPEED : float := F.ofZ 400.

Inductive Direction := UP | RIGHT | DOWN | LEFT.

(** The raylib colours the simulation stores in entities. *)
Inductive Color := YELLOW | RED | BLUE | PURPLE.

(** ** Entity *)

Module Entity.
Record t := mk {
  x : float;
  y : float;
  radius : float;
  health : Z;
  maxHealth : Z;
  active : bool;
  color : Color;
  facing : Direction
}.

Definition with_x (v : float) (e : t) : t :=
  mk v (y e) (radius e) (health e) (maxHealth e) (active e) (color e) (facing e).
Definition with_y (v : float) (e : t) : t :=
  mk (x e) v (radius e) (health e) (maxHealth e) (active e) (color e) (facing e).
Definition with_radius (v : float) (e : t) : t :=
  mk (x e) (y e) v (health e) (maxHealth e) (active e) (color e) (facing e).
Definition with_health (v : Z) (e : t) : t :=
  mk (x e) (y e) (radius e) v (maxHealth e) (active e) (color e) (facing e).
Definition with_maxHealth (v : Z) (e : t) : t :=
  mk (x e) (y e) (radius e) (health e) v (active e) (color e) (facing e).
Definition with_active (v : bool) (e : t) : t :=
  mk (x e) (y e) (radius e) (health e) (maxHealth e) v (color e) (facing e).
Definition with_color (v : Color) (e : t) : t :=
  mk (x e) (y e) (radius e) (health e) (maxHealth e) (active e) v (facing e).
Definition with_facing (v : Direction) (e : t) : t :=
  mk (x e) (y e) (radius e) (health e) (maxHealth e) (active e) (color e) v.

(** Constructor [Entity(startX, startY, r, hp, c)]. *)
Definition new (startX startY r : float) (hp : Z) (c : Color) : t :=
  mk startX startY r hp hp true c RIGHT.

(** [void TakeDamage(int amount)] *)
Definition TakeDamage (amount : Z) (e : t) : t :=
  let e := with_health (I32.wrap (health e - amount)) e in
  if health e <=? 0 then with_active false (with_health 0 e) else e.

(** The local [distance] of [IsColliding]. *)
Definition distance (e other : t) : float :=
  let dx := (x e - x other)%F in
  let dy := (y e - y other)%F in
  F.sqrt (dx * dx + dy * dy)%F.

(** [bool IsColliding(Entity* other)] *)
Definition IsColliding (e other : t) : bool :=
  (distance e other <? radius e + radius other)%F.
End Entity.

(** ** Projectile *)

Module Projectile.
Record t := mk {
  base : Entity.t;
  speedX : float;
  speedY : float;
  isEnemyProjectile : bool;
  damage : Z
}.

Definition with_base (v : Entity.t) (p : t) : t :=
  mk v (speedX p) (speedY p) (isEnemyProjectile p) (damage p).
Definition with_speedX (v : float) (p : t) : t :=
  mk (base p) v (speedY p) (isEnemyProjectile p) (damage p).
Definition with_speedY (v : float) (p : t) : t :=
  mk (base p) (speedX p) v (isEnemyProjectile p) (damage p).
Definition with_isEnemyProjectile (v : bool) (p : t) : t :=
  mk (base p) (speedX p) (speedY p) v (damage p).
Definition with_damage (v : Z) (p : t) : t :=
  mk (base p) (speedX p) (speedY p) (isEnemyProjectile p) v.

Definition on_base (f : Entity.t → Entity.t) (p : t) : t :=
  with_base (f (base p)) p.

Definition active (p : t) : bool := Entity.active (base p).

(** Constructor [Projectile()]. *)
Definition new : t :=
  let p := mk (Entity.new (F.ofZ 0) (F.ofZ 0) (F.ofZ 5) 1 YELLOW)
              (F.ofZ 0) (F.ofZ 0) false 10 in
  on_base (Entity.with_active false) p.

(** [void Fire(float startX, float startY, Direction dir, bool fromEnemy)] *)
Definition Fire (startX startY : float) (dir : Direction) (fromEnemy : bool)
    (p : t) : t :=
  let p := on_base (Entity.with_x startX) p in
  let p := on_base (Entity.with_y startY) p in
  let p := on_base (Entity.with_active true) p in
  let p := with_isEnemyProjectile fromEnemy p in
  let p :=
    if fromEnemy
    then with_damage 5 (on_base (Entity.with_color RED) p)
    else with_damage 10 (on_base (Entity.with_color YELLOW) p) in
  let p := with_speedX (F.ofZ 0) p in
  let p := with_speedY (F.ofZ 0) p in
  match dir with
  | UP => with_speedY (- PROJECTILE_SPEED)%F p
  | RIGHT => with_speedX PROJECTILE_SPEED p
  | DOWN => with_speedY PROJECTILE_SPEED p
  | LEFT => with_speedX (- PROJECTILE_SPEED)%F p
  end.

(** [void Update(float deltaTime)] *)
Definition Update (deltaTime : float) (p : t) : t :=
  if active p then
    let p := on_base (λ e, Entity.with_x (Entity.x e + speedX p * deltaTime)%F e) p in
    on_base (λ e, Entity.with_y (Entity.y e + speedY p * deltaTime)%F e) p
  else p.
End Projectile.

(** ** What the program takes from outside *)

(** The random engine [std::mt19937] with the two distributions the game
    draws from, the [cos] and [sin] of the C library (on [double]), and the
    order in which the compiler evaluates the arguments of a call, which
    C++ leaves open: left to right or right to left. *)
Class Platform := {
  RNG : Type;
  uniform_int_distribution : Z → Z → RNG → Z * RNG;
  uniform_real_distribution : float → float → RNG → float * RNG;
  cos : double → double;
  sin : double → double;
  arguments_left_to_right : bool
}.

(** What raylib reports during one frame: [IsKeyDown] of the five keys,
    [IsKeyPressed(KEY_ENTER)], [GetFrameTime()], and the wall clock.
    [Boss::Update] reads [GetTime()] twice; [getTime i k] is the value
    returned to read number [k] (0 for [speedX], 1 for [speedY]) made for
    the enemy at roster index [i]. *)
Record Input := {
  keyW : bool;
  keyS : bool;
  keyA : bool;
  keyD : bool;
  keySpace : bool;
  enterPressed : bool;
  frameTime : float;
  getTime : nat → nat → double
}.

(** ** Player *)

Module Player.
Record t := mk {
  base : Entity.t;
  speedX : float;
  speedY : float;
  shootCooldown : float
}.

Definition with_base (v : Entity.t) (p : t) : t :=
  mk v (speedX p) (speedY p) (shootCooldown p).
Definition with_speedX (v : float) (p : t) : t :=
  mk (base p) v (speedY p) (shootCooldown p).
Definition with_speedY (v : float) (p : t) : t :=
  mk (base p) (speedX p) v (shootCooldown p).
Definition with_shootCooldown (v : float) (p : t) : t :=
  mk (base p) (speedX p) (speedY p) v.

Definition on_base (f : Entity.t → Entity.t) (p : t) : t :=
  with_base (f (base p)) p.

Definition x (p : t) : float := Entity.x (base p).
Definition y (p : t) : float := Entity.y (base p).
Definition radius (p : t) : float := Entity.radius (base p).
Definition health (p : t) : Z := Entity.health (base p).
Definition active (p : t) : bool := Entity.active (base p).
Definition facing (p : t) : Direction := Entity.facing (base p).

(** Constructor [Player(startX, startY)]. *)
Definition new (startX startY : float) : t :=
  mk (Entity.new startX startY (F.ofZ 15) PLAYER_HEALTH BLUE)
     (F.ofZ 0) (F.ofZ 0) (F.ofZ 0).

(** [void Update(float deltaTime)] *)
Definition Update (inp : Input) (deltaTime : float) (p : t) : t :=
  let p := with_speedX (F.ofZ 0) p in
  let p := with_speedY (F.ofZ 0) p in
  let p :=
    if keyW inp
    then on_base (Entity.with_facing UP) (with_speedY (- PLAYER_SPEED)%F p)
    else p in
  let p :=
    if keyS inp
    then on_base (Entity.with_facing DOWN) (with_speedY PLAYER_SPEED p)
    else p in
  let p :=
    if keyA inp
    then on_base (Entity.with_facing LEFT) (with_speedX (- PLAYER_SPEED)%F p)
    else p in
  let p :=
    if keyD inp
    then on_base (Entity.with_facing RIGHT) (with_speedX PLAYER_SPEED p)
    else p in
  let p := on_base (Entity.with_x (x p + speedX p * deltaTime)%F) p in
  let p := on_base (Entity.with_y (y p + speedY p * deltaTime)%F) p in
  if (shootCooldown p >? F.ofZ 0)%F
  then with_shootCooldown (shootCooldown p - deltaTime)%F p
  else p.

(** [bool CanShoot()] *)
Definition CanShoot (p : t) : bool := (shootCooldown p <=? F.ofZ 0)%F.

(** [void ResetShootCooldown()] *)
Definition ResetShootCooldown (p : t) : t :=
  with_shootCooldown PLAYER_SHOOT_COOLDOWN p.
End Player.

(** ** Enemy and Boss *)

(** The facing of an actor from a vector, by its dominant axis. *)
Definition dominant_axis (vx vy : float) : Direction :=
  if (F.abs vx >? F.abs vy)%F
  then (if (vx >? F.ofZ 0)%F then RIGHT else LEFT)
  else (if (vy >? F.ofZ 0)%F then DOWN else UP).

Module Enemy.
(** The member [rng] of the source is a pointer to the one engine of the
    game; the functions that draw from it take and return that engine.
    [isBoss] is the dynamic type of the object ([Enemy] or [Boss]). *)
Record t := mk {
  base : Entity.t;
  speedX : float;
  speedY : float;
  shootCooldown : float;
  aggro : bool;
  moveTimer : float;
  isBoss : bool
}.

Definition with_base (v : Entity.t) (e : t) : t :=
  mk v (speedX e) (speedY e) (shootCooldown e) (aggro e) (moveTimer e) (isBoss e).
Definition with_speedX (v : float) (e : t) : t :=
  mk (base e) v (speedY e) (shootCooldown e) (aggro e) (moveTimer e) (isBoss e).
Definition with_speedY (v : float) (e : t) : t :=
  mk (base e) (speedX e) v (shootCooldown e) (aggro e) (moveTimer e) (isBoss e).
Definition with_shootCooldown (v : float) (e : t) : t :=
  mk (base e) (speedX e) (speedY e) v (aggro e) (moveTimer e) (isBoss e).
Definition with_aggro (v : bool) (e : t) : t :=
  mk (base e) (speedX e) (speedY e) (shootCooldown e) v (moveTimer e) (isBoss e).
Definition with_moveTimer (v : float) (e : t) : t :=
  mk (base e) (speedX e) (speedY e) (shootCooldown e) (aggro e) v (isBoss e).
Definition with_isBoss (v : bool) (e : t) : t :=
  mk (base e) (speedX e) (speedY e) (shootCooldown e) (aggro e) (moveTimer e) v.

Definition on_base (f : Entity.t → Entity.t) (e : t) : t :=
  with_base (f (base e)) e.

Definition x (e : t) : float := Entity.x (base e).
Definition y (e : t) : float := Entity.y (base e).
Definition radius (e : t) : float := Entity.radius (base e).
Definition health (e : t) : Z := Entity.health (base e).
Definition active (e : t) : bool := Entity.active (base e).
Definition facing (e : t) : Direction := Entity.facing (base e).

Section WithPlatform.
Context `{Platform}.

(** [void ChangeDirection()] *)
Definition ChangeDirection (e : t) (rng : RNG) : t * RNG :=
  let '(angle, rng) :=
    uniform_real_distribution (F.ofZ 0) (F.literal 628318 100000) rng in
  let e := with_speedX (D.toF (D.mul (cos (D.ofF angle)) (D.ofF ENEMY_SPEED))) e in
  let e := with_speedY (D.toF (D.mul (sin (D.ofF angle)) (D.ofF ENEMY_SPEED))) e in
  (on_base (Entity.with_facing (dominant_axis (speedX e) (speedY e))) e, rng).

(** Constructor [Enemy(startX, startY, randomGen)]. *)
Definition new (startX startY : float) (rng : RNG) : t * RNG :=
  ChangeDirection
    (mk (Entity.new startX startY (F.ofZ 12) ENEMY_HEALTH RED)
        (F.ofZ 0) (F.ofZ 0) (F.ofZ 0) false (F.ofZ 0) false)
    rng.

(** [virtual void Update(float deltaTime, Player* player)], the body of
    the base class. *)
Definition Update (deltaTime : float) (player : Player.t) (e : t) (rng : RNG)
    : t * RNG :=
  let dx := (Player.x player - x e)%F in
  let dy := (Player.y player - y e)%F in
  let distToPlayer := F.sqrt (dx * dx + dy * dy)%F in
  let e := with_aggro (distToPlayer <=? F.ofZ 150)%F e in
  let '(e, rng) :=
    if negb (aggro e) then
      let e := with_moveTimer (moveTimer e + deltaTime)%F e in
      if (moveTimer e >=? F.ofZ 2)%F then
        let '(e, rng) := ChangeDirection e rng in
        (with_moveTimer (F.ofZ 0) e, rng)
      else (e, rng)
    else (on_base (Entity.with_facing (dominant_axis dx dy)) e, rng) in
  let e := on_base (Entity.with_x (x e + speedX e * deltaTime)%F) e in
  let e := on_base (Entity.with_y (y e + speedY e * deltaTime)%F) e in
  let e :=
    if (shootCooldown e >? F.ofZ 0)%F
    then with_shootCooldown (shootCooldown e - deltaTime)%F e
    else e in
  (e, rng).
End WithPlatform.

(** [bool CanShoot()] *)
Definition CanShoot (e : t) : bool :=
  (shootCooldown e <=? F.ofZ 0)%F && aggro e.

(** [void ResetShootCooldown()] *)
Definition ResetShootCooldown (e : t) : t :=
  with_shootCooldown ENEMY_SHOOT_COOLDOWN e.
End Enemy.

Module Boss.
Section WithPlatform.
Context `{Platform}.

(** Constructor [Boss(startX, startY, randomGen)]. *)
Definition new (startX startY : float) (rng : RNG) : Enemy.t * RNG :=
  let '(e, rng) := Enemy.new startX startY rng in
  let e := Enemy.with_isBoss true e in
  let e := Enemy.on_base (Entity.with_radius (F.ofZ 25)) e in
  let e := Enemy.on_base (Entity.with_health BOSS_HEALTH) e in
  let e := Enemy.on_base (Entity.with_maxHealth BOSS_HEALTH) e in
  (Enemy.on_base (Entity.with_color PURPLE) e, rng).

(** One axis of the weaving motion: [osc * ENEMY_SPEED * 0.5f +
    speed * 0.5f], evaluated in [double] and stored in a [float]. *)
Definition blend (osc : double) (speed : float) : float :=
  D.toF (D.add (D.mul (D.mul osc (D.ofF ENEMY_SPEED)) (D.ofF (F.literal 5 10)))
               (D.ofF (speed * F.literal 5 10)%F)).

(** [void Update(float deltaTime, Player* player) override]; [t0] and
    [t1] are the two readings of [GetTime()]. *)
Definition Update (deltaTime : float) (t0 t1 : double) (player : Player.t)
    (e : Enemy.t) (rng : RNG) : Enemy.t * RNG :=
  let '(e, rng) := Enemy.Update deltaTime player e rng in
  let e :=
    Enemy.with_speedX
      (blend (cos (D.mul t0 (D.ofF (F.literal 5 10)))) (Enemy.speedX e)) e in
  let e :=
    Enemy.with_speedY
      (blend (sin (D.mul t1 (D.ofF (F.literal 3 10)))) (Enemy.speedY e)) e in
  (e, rng).
End WithPlatform.
End Boss.

(** ** Room *)

Module Room.
(** [enemies] holds the objects the [unique_ptr]s of the source own; every
    pointer pushed comes from [make_unique], so none is null. *)
Record t := mk {
  x : float;
  y : float;
  width : float;
  height : float;
  enemies : list Enemy.t;
  cleared : bool;
  hasBoss : bool
}.

Definition with_enemies (v : list Enemy.t) (r : t) : t :=
  mk (x r) (y r) (width r) (height r) v (cleared r) (hasBoss r).
Definition with_cleared (v : bool) (r : t) : t :=
  mk (x r) (y r) (width r) (height r) (enemies r) v (hasBoss r).

(** Constructor [Room(posX, posY, w, h, boss)]. *)
Definition new (posX posY w h : float) (boss : bool) : t :=
  mk posX posY w h [] false boss.

(** [bool ContainsPoint(float pointX, float pointY)] *)
Definition ContainsPoint (pointX pointY : float) (r : t) : bool :=
  (pointX >=? x r)%F && (pointX <=? x r + width r)%F
  && (pointY >=? y r)%F && (pointY <=? y r + height r)%F.

(** "Keep enemies inside room": the two assignments of [Update]. *)
Definition keep_inside (r : t) (e : Enemy.t) : Enemy.t :=
  let e :=
    Enemy.on_base
      (Entity.with_x
         (F.max (x r + Enemy.radius e)%F
                (F.min (Enemy.x e) (x r + width r - Enemy.radius e)%F))) e in
  Enemy.on_base
    (Entity.with_y
       (F.max (y r + Enemy.radius e)%F
              (F.min (Enemy.y e) (y r + height r - Enemy.radius e)%F))) e.

Section WithPlatform.
Context `{Platform}.

(** [void AddEnemy(float enemyX, float enemyY, std::mt19937* rng)] *)
Definition AddEnemy (enemyX enemyY : float) (r : t) (rng : RNG) : t * RNG :=
  let '(e, rng) := Enemy.new enemyX enemyY rng in
  (with_enemies (enemies r ++ [e]) r, rng).

(** [void AddBoss(float bossX, float bossY, std::mt19937* rng)] *)
Definition AddBoss (bossX bossY : float) (r : t) (rng : RNG) : t * RNG :=
  let '(e, rng) := Boss.new bossX bossY rng in
  (with_enemies (enemies r ++ [e]) r, rng).

(** The virtual call [enemy->Update(deltaTime, player)] on the enemy at
    roster index [i]. *)
Definition enemy_Update (inp : Input) (deltaTime : float) (player : Player.t)
    (i : nat) (e : Enemy.t) (rng : RNG) : Enemy.t * RNG :=
  if Enemy.isBoss e
  then Boss.Update deltaTime (getTime inp i 0%nat) (getTime inp i 1%nat) player e rng
  else Enemy.Update deltaTime player e rng.

(** First loop of [Update], from roster index [i] on. *)
Fixpoint update_enemies (inp : Input) (deltaTime : float) (player : Player.t)
    (r : t) (i : nat) (es : list Enemy.t) (rng : RNG) : list Enemy.t * RNG :=
  match es with
  | [] => ([], rng)
  | e :: es =>
      let '(e, rng) :=
        if Enemy.active e then
          let '(e, rng) := enemy_Update inp deltaTime player i e rng in
          (keep_inside r e, rng)
        else (e, rng) in
      let '(es, rng) := update_enemies inp deltaTime player r (S i) es rng in
      (e :: es, rng)
  end.

(** Second loop of [Update]: [cleared] starts [true] and the first
    active enemy found makes it [false]. *)
Fixpoint no_active_enemy (es : list Enemy.t) : bool :=
  match es with
  | [] => true
  | e :: es => if Enemy.active e then false else no_active_enemy es
  end.

(** [void Update(float deltaTime, Player* player)] *)
Definition Update (inp : Input) (deltaTime : float) (player : Player.t)
    (r : t) (rng : RNG) : t * RNG :=
  let '(es, rng) := update_enemies inp deltaTime player r 0 (enemies r) rng in
  let r := with_enemies es r in
  (with_cleared (no_active_enemy (enemies r)) r, rng).
End WithPlatform.
End Room.

(** ** Game *)

(** What [Draw] puts on the screen, as far as the state machine decides
    it: which of the three screens, and the headline of the last one. *)
Inductive Screen :=
| MainMenuScreen
| GameOverScreen (headline : string)
| GameScreen.

Module Game.
Section WithPlatform.
Context `{Platform}.

Record t := mk {
  isMainMenu : bool;
  isGameOver : bool;
  player : Player.t;
  rooms : list Room.t;
  currentRoom : Z;
  projectiles : list Projectile.t;
  rng : RNG
}.

Definition with_isMainMenu (v : bool) (g : t) : t :=
  mk v (isGameOver g) (player g) (rooms g) (currentRoom g) (projectiles g) (rng g).
Definition with_isGameOver (v : bool) (g : t) : t :=
  mk (isMainMenu g) v (player g) (rooms g) (currentRoom g) (projectiles g) (rng g).
Definition with_player (v : Player.t) (g : t) : t :=
  mk (isMainMenu g) (isGameOver g) v (rooms g) (currentRoom g) (projectiles g) (rng g).
Definition with_rooms (v : list Room.t) (g : t) : t :=
  mk (isMainMenu g) (isGameOver g) (player g) v (currentRoom g) (projectiles g) (rng g).
Definition with_currentRoom (v : Z) (g : t) : t :=
  mk (isMainMenu g) (isGameOver g) (player g) (rooms g) v (projectiles g) (rng g).
Definition with_projectiles (v : list Projectile.t) (g : t) : t :=
  mk (isMainMenu g) (isGameOver g) (player g) (rooms g) (currentRoom g) v (rng g).
Definition with_rng (v : RNG) (g : t) : t :=
  mk (isMainMenu g) (isGameOver g) (player g) (rooms g) (currentRoom g) (projectiles g) v.

(** [rooms[currentRoom]], read and written through the reference
    [Room& room]. *)
Definition room_at (g : t) : option Room.t :=
  if currentRoom g <? 0 then None else rooms g !! Z.to_nat (currentRoom g).
Definition set_room (r : Room.t) (g : t) : t :=
  with_rooms (<[Z.to_nat (currentRoom g) := r]> (rooms g)) g.

(** The two draws [xDist(rng)] and [yDist(rng)] in the argument list of
    [room.AddEnemy(xDist(rng), yDist(rng), &rng)], for room number [i]:
    both use the one engine, and which of them is made first is the
    compiler's choice. *)
Definition draw_position (i : Z) (rng : RNG) : float * float * RNG :=
  if arguments_left_to_right then
    let '(ex, rng) :=
      uniform_real_distribution
        (F.ofZ i * F.ofZ 800 + F.ofZ 100)%F (F.ofZ i * F.ofZ 800 + F.ofZ 700)%F rng in
    let '(ey, rng) := uniform_real_distribution (F.ofZ 100) (F.ofZ 500) rng in
    (ex, ey, rng)
  else
    let '(ey, rng) := uniform_real_distribution (F.ofZ 100) (F.ofZ 500) rng in
    let '(ex, rng) :=
      uniform_real_distribution
        (F.ofZ i * F.ofZ 800 + F.ofZ 100)%F (F.ofZ i * F.ofZ 800 + F.ofZ 700)%F rng in
    (ex, ey, rng).

(** The inner loop of [ResetGame]: [n] more enemies at random places
    of the room. *)
Fixpoint add_enemies (n : nat) (i : Z) (room : Room.t) (rng : RNG)
    : Room.t * RNG :=
  match n with
  | O => (room, rng)
  | S n =>
      let '(ex, ey, rng) := draw_position i rng in
      let '(room, rng) := Room.AddEnemy ex ey room rng in
      add_enemies n i room rng
  end.

(** One turn of the outer loop of [ResetGame]: room number [i]. *)
Definition make_room (i : Z) (rng : RNG) : Room.t * RNG :=
  let isBossRoom := i =? 4 in
  let room :=
    Room.new (F.ofZ i * F.ofZ 800)%F (F.ofZ 0) (F.ofZ 800) (F.ofZ 600) isBossRoom in
  if isBossRoom then
    Room.AddBoss (F.ofZ i * F.ofZ 800 + F.ofZ 400)%F (F.ofZ 300) room rng
  else
    let '(enemyCount, rng) := uniform_int_distribution 3 6 rng in
    add_enemies (Z.to_nat enemyCount) i room rng.

(** The outer loop, over the room numbers still to do. *)
Fixpoint make_rooms (todo : list Z) (rooms : list Room.t) (rng : RNG)
    : list Room.t * RNG :=
  match todo with
  | [] => (rooms, rng)
  | i :: todo =>
      let '(room, rng) := make_room i rng in
      make_rooms todo (rooms ++ [room]) rng
  end.

(** [void ResetGame()] *)
Definition ResetGame (g : t) : t :=
  let g :=
    with_player
      (Player.new (F.ofZ (SCREEN_WIDTH / 2)) (F.ofZ (SCREEN_HEIGHT / 2))) g in
  let g := with_rooms [] g in
  let g := with_currentRoom 0 g in
  let '(rs, rng) := make_rooms [0; 1; 2; 3; 4] (rooms g) (rng g) in
  let g := with_rng rng (with_rooms rs g) in
  let g :=
    with_projectiles
      (map (Projectile.on_base (Entity.with_active false)) (projectiles g)) g in
  with_isGameOver false g.

(** Constructor [Game()]; [seed] is the engine [std::mt19937(rd())]. *)
Definition new (seed : RNG) : t :=
  ResetGame
    (mk true false
        (Player.new (F.ofZ (SCREEN_WIDTH / 2)) (F.ofZ (SCREEN_HEIGHT / 2)))
        [] 0 (replicate 100 Projectile.new) seed).

(** The spawn position of [FireProjectile]. *)
Definition spawn (sourceX sourceY : float) (dir : Direction) : float * float :=
  match dir with
  | UP => (sourceX, (sourceY - F.ofZ 20)%F)
  | RIGHT => ((sourceX + F.ofZ 20)%F, sourceY)
  | DOWN => (sourceX, (sourceY + F.ofZ 20)%F)
  | LEFT => ((sourceX - F.ofZ 20)%F, sourceY)
  end.

(** The loop of [FireProjectile] over the pool. *)
Fixpoint fire_scan (sourceX sourceY : float) (dir : Direction) (isEnemy : bool)
    (ps : list Projectile.t) : list Projectile.t :=
  match ps with
  | [] => []
  | p :: ps =>
      if negb (Projectile.active p) then
        let '(spawnX, spawnY) := spawn sourceX sourceY dir in
        Projectile.Fire spawnX spawnY dir isEnemy p :: ps
      else p :: fire_scan sourceX sourceY dir isEnemy ps
  end.

(** [void FireProjectile(float sourceX, float sourceY, Direction dir,
    bool isEnemy)] *)
Definition FireProjectile (sourceX sourceY : float) (dir : Direction)
    (isEnemy : bool) (g : t) : t :=
  with_projectiles (fire_scan sourceX sourceY dir isEnemy (projectiles g)) g.

(** The inner loop of [UpdateProjectiles] for a player projectile [p]:
    the first active enemy it collides with takes the damage and the
    loop stops. Returns the roster and whether an enemy was hit. *)
Fixpoint hit_enemies (p : Projectile.t) (es : list Enemy.t)
    : list Enemy.t * bool :=
  match es with
  | [] => ([], false)
  | e :: es =>
      if Enemy.active e && Entity.IsColliding (Projectile.base p) (Enemy.base e)
      then (Enemy.on_base (Entity.TakeDamage (Projectile.damage p)) e :: es, true)
      else let '(es, hit) := hit_enemies p es in (e :: es, hit)
  end.

Definition deactivate (p : Projectile.t) : Projectile.t :=
  Projectile.on_base (Entity.with_active false) p.

(** The body of the loop of [UpdateProjectiles], for one slot. *)
Definition update_projectile (deltaTime : float) (room : Room.t)
    (p : Projectile.t) (es : list Enemy.t) (pl : Player.t)
    : Projectile.t * list Enemy.t * Player.t :=
  if Projectile.active p then
    let p := Projectile.Update deltaTime p in
    if negb (Room.ContainsPoint (Entity.x (Projectile.base p))
               (Entity.y (Projectile.base p)) room)
    then (deactivate p, es, pl)
    else if negb (Projectile.isEnemyProjectile p) then
      let '(es, hit) := hit_enemies p es in
      (if hit then deactivate p else p, es, pl)
    else if Entity.IsColliding (Projectile.base p) (Player.base pl) then
      (deactivate p, es,
       Player.on_base (Entity.TakeDamage (Projectile.damage p)) pl)
    else (p, es, pl)
  else (p, es, pl).

Fixpoint update_projectiles (deltaTime : float) (room : Room.t)
    (ps : list Projectile.t) (es : list Enemy.t) (pl : Player.t)
    : list Projectile.t * list Enemy.t * Player.t :=
  match ps with
  | [] => ([], es, pl)
  | p :: ps =>
      let '(p, es, pl) := update_projectile deltaTime room p es pl in
      let '(ps, es, pl) := update_projectiles deltaTime room ps es pl in
      (p :: ps, es, pl)
  end.

(** [void UpdateProjectiles(float deltaTime)] *)
Definition UpdateProjectiles (deltaTime : float) (g : t) : option t :=
  room ← room_at g;
  let '(ps, es, pl) :=
    update_projectiles deltaTime room (projectiles g) (Room.enemies room)
      (player g) in
  Some (with_player pl
          (set_room (Room.with_enemies es room) (with_projectiles ps g))).

(** "Keep player inside current room". *)
Definition keep_player_inside (room : Room.t) (p : Player.t) : Player.t :=
  let p :=
    Player.on_base
      (Entity.with_x
         (F.max (Room.x room + Player.radius p)%F
            (F.min (Player.x p)
               (Room.x room + Room.width room - Player.radius p)%F))) p in
  Player.on_base
    (Entity.with_y
       (F.max (Room.y room + Player.radius p)%F
          (F.min (Player.y p)
             (Room.y room + Room.height room - Player.radius p)%F))) p.

(** "Handle enemy shooting": the loop over the roster of the room. *)
Fixpoint enemies_shoot (es : list Enemy.t) (g : t) : list Enemy.t * t :=
  match es with
  | [] => ([], g)
  | e :: es =>
      let '(e, g) :=
        if Enemy.active e && Enemy.CanShoot e
        then (Enemy.ResetShootCooldown e,
              FireProjectile (Enemy.x e) (Enemy.y e) (Enemy.facing e) true g)
        else (e, g) in
      let '(es, g) := enemies_shoot es g in
      (e :: es, g)
  end.

(** [UpdateGame], first part: from "Update player" to "Update current
    room". *)
Definition simulate (inp : Input) (deltaTime : float) (g : t) : option t :=
  let g := with_player (Player.Update inp deltaTime (player g)) g in
  room ← room_at g;
  let g := with_player (keep_player_inside room (player g)) g in
  let g :=
    if keySpace inp && Player.CanShoot (player g)
    then with_player (Player.ResetShootCooldown (player g))
           (FireProjectile (Player.x (player g)) (Player.y (player g))
              (Player.facing (player g)) false g)
    else g in
  let '(es, g) := enemies_shoot (Room.enemies room) g in
  let g := set_room (Room.with_enemies es room) g in
  g ← UpdateProjectiles deltaTime g;
  room ← room_at g;
  let '(room, rng) := Room.Update inp deltaTime (player g) room (rng g) in
  Some (with_rng rng (set_room room g)).

(** The exit boundary of a room: [room.x + room.width - 50]. *)
Definition exit_boundary (room : Room.t) : float :=
  (Room.x room + Room.width room - F.ofZ 50)%F.

(** [UpdateGame], second part: "Check for room transition". *)
Definition room_transition (g : t) : option t :=
  room ← room_at g;
  if Room.cleared room && (Player.x (player g) >? exit_boundary room)%F then
    if SizeT.ofInt (currentRoom g) <? SizeT.wrap (Z.of_nat (length (rooms g)) - 1)
    then
      let g := with_currentRoom (I32.wrap (currentRoom g + 1)) g in
      next ← room_at g;
      Some (with_player
              (Player.on_base (Entity.with_x (Room.x next + F.ofZ 50)%F) (player g))
              g)
    else Some g
  else if negb (Room.cleared room) && (Player.x (player g) >? exit_boundary room)%F
  then Some (with_player
               (Player.on_base (Entity.with_x (exit_boundary room)) (player g)) g)
  else Some g.

(** [UpdateGame], last part: "Check win/lose conditions". *)
Definition win_lose (g : t) : option t :=
  g ←
    (if SizeT.ofInt (currentRoom g) =? SizeT.wrap (Z.of_nat (length (rooms g)) - 1)
     then room ← room_at g;
          Some (if Room.cleared room then with_isGameOver true g else g)
     else Some g);
  Some (if Player.health (player g) <=? 0 then with_isGameOver true g else g).

(** [void UpdateGame(float deltaTime)] *)
Definition UpdateGame (inp : Input) (deltaTime : float) (g : t) : option t :=
  g ← simulate inp deltaTime g;
  g ← room_transition g;
  win_lose g.

(** [void Update()] *)
Definition Update (inp : Input) (g : t) : option t :=
  let deltaTime := frameTime inp in
  if isMainMenu g then
    Some (if enterPressed inp then with_isMainMenu false g else g)
  else if isGameOver g then
    Some (if enterPressed inp then ResetGame (with_isMainMenu true g) else g)
  else UpdateGame inp deltaTime g.

(** [void DrawGameOver()]: the headline it draws. *)
Definition DrawGameOver (g : t) : string :=
  if Player.health (player g) <=? 0
  then "GAME OVER - YOU DIED!"%string
  else "YOU WIN! BOSS DEFEATED!"%string.

(** [void Draw()] *)
Definition Draw (g : t) : Screen :=
  if isMainMenu g then MainMenuScreen
  else if isGameOver g then GameOverScreen (DrawGameOver g)
  else GameScreen.
End WithPlatform.

Arguments t {_}.
End Game.

(** ** A platform to run the model on

    A stand-in for the libraries, used where the development executes the
    model on concrete states: the engine is a counter, a distribution
    returns the low end of its range moved by the counter, [cos] is
    constantly one and [sin] constantly zero, and the arguments of a call
    are evaluated right to left. *)

Definition counter_platform : Platform := {|
  RNG := Z;
  uniform_int_distribution lo hi s := (lo + s mod (hi - lo + 1), s + 1);
  uniform_real_distribution lo hi s := (lo, s + 1);
  cos _ := D.ofF (F.ofZ 1);
  sin _ := D.ofF (F.ofZ 0);
  arguments_left_to_right := false
|}.

(** A frame with the given keys, 1/60 s long, the clock at zero. *)
Definition frame (w s a d space enter : bool) : Input :=
  {| keyW := w; keyS := s; keyA := a; keyD := d; keySpace := space;
     enterPressed := enter; frameTime := F.literal 1 60;
     getTime := λ _ _, D.ofF (F.ofZ 0) |}.

Definition idle_frame : Input := frame false false false false false false.
Definition enter_frame : Input := frame false false false false false true.
Definition right_frame : Input := frame false false false true false false.

Definition up_frame : Input := frame true false false false false false.
Definition shoot_right_frame : Input := frame false false false true true false.

(** The game as constructed on that platform, and after ENTER in the menu. *)
Definition start : @Game.t counter_platform := @Game.new counter_platform 0.
Definition in_play : @Game.t counter_platform :=
  default start (Game.Update enter_frame start).

(** [n] frames with the same input. *)
Fixpoint run (n : nat) (inp : Input) (g : @Game.t counter_platform)
    : @Game.t counter_platform :=
  match n with
  | O => g
  | S n => match Game.Update inp g with Some g' => run n inp g' | None => g end
  end.

(** Whether [n] frames with the same input, from [g], are [n] ticks in
    Playing mode. *)
Fixpoint plays (n : nat) (inp : Input) (g : @Game.t counter_platform) : bool :=
  match n with
  | O => true
  | S n =>
      negb (Game.isMainMenu g) && negb (Game.isGameOver g)
      && match Game.Update inp g with
         | Some g' => plays n inp g'
         | None => false
         end
  end.

Definition place_player (px py hp : Z) (g : @Game.t counter_platform)
    : @Game.t counter_platform :=
  Game.with_player
    (Player.on_base
       (λ e, Entity.with_health hp
               (Entity.with_y (F.ofZ py) (Entity.with_x (F.ofZ px) e)))
       (Game.player g)) g.

(** A state of the boss room one tick before both ends of the game: the
    boss, at 10 health, has a player projectile upon it, and the player, at
    5 health, an enemy projectile. *)
Definition last_stand : @Game.t counter_platform :=
  let g := Game.with_currentRoom 4 in_play in
  let g :=
    Game.with_rooms
      (alter (λ r, Room.with_enemies
                     (map (Enemy.on_base (Entity.with_health 10)) (Room.enemies r)) r)
         4%nat (Game.rooms g)) g in
  let g := place_player 3300 300 5 g in
  let g := Game.FireProjectile (F.ofZ 3270) (F.ofZ 300) RIGHT true g in
  Game.FireProjectile (F.ofZ 3560) (F.ofZ 300) RIGHT false g.

(** The first room emptied of its enemies and updated, the player past
    its exit boundary. *)
Definition open_exit : @Game.t counter_platform :=
  let g :=
    Game.with_rooms
      (alter (λ r, Room.with_cleared true
                     (Room.with_enemies
                        (map (Enemy.on_base (Entity.with_active false))
                           (Room.enemies r)) r))
         0%nat (Game.rooms in_play)) in_play in
  place_player 760 300 100 g.

(** The room of the unit tests, [Room(0, 0, 800, 600)] with enemies added
    at (100, 100) and (200, 200), both then deactivated. *)
Definition test_room : Room.t :=
  let room := Room.new (F.ofZ 0) (F.ofZ 0) (F.ofZ 800) (F.ofZ 600) false in
  let '(room, rng) :=
    @Room.AddEnemy counter_platform (F.ofZ 100) (F.ofZ 100) room 42 in
  let '(room, rng) :=
    @Room.AddEnemy counter_platform (F.ofZ 200) (F.ofZ 200) room rng in
  Room.with_enemies
    (map (Enemy.on_base (Entity.with_active false)) (Room.enemies room)) room.

(** A pool with no free slot. *)
Definition full_pool : @Game.t counter_platform :=
  Game.with_projectiles
    (map (Projectile.Fire (F.ofZ 400) (F.ofZ 300) UP false) (Game.projectiles in_play))
    in_play.

(** ** Vocabulary of the properties *)

(** Slot [i] of the pool [ps] is [p], the first inactive one in index
    order. *)
Definition first_inactive (ps : list Projectile.t) (i : nat) (p : Projectile.t)
    : Prop :=
  ps !! i = Some p ∧ Projectile.active p = false
  ∧ ∀ j q, (j < i)%nat → ps !! j = Some q → Projectile.active q = true.

(** What one or several [TakeDamage] calls may do to the liveness of an
    entity: it is never made active again, once dead at health 0 it stays
    at health 0, and when it goes from active to inactive its health is 0. *)
Definition damaged (e e' : Entity.t) : Prop :=
  (Entity.active e' = true → Entity.active e = true)
  ∧ (Entity.active e = false → Entity.health e = 0 → Entity.health e' = 0)
  ∧ (Entity.active e = true → Entity.active e' = false → Entity.health e' = 0).

Definition enemy_damaged (e e' : Enemy.t) : Prop :=
  damaged (Enemy.base e) (Enemy.base e').

(** The damage a pool slot can carry: [Projectile()] and [Fire] only ever
    store 10 or 5. *)
Definition damage_ok (p : Projectile.t) : Prop := 0 ≤ Projectile.damage p ≤ 10.

(** Room number [i] as [ResetGame] lays it out. *)
Definition fresh_room (i : Z) (r : Room.t) : Prop :=
  Room.x r = (F.ofZ i * F.ofZ 800)%F ∧ Room.width r = F.ofZ 800
  ∧ Room.cleared r = false.

Section Vocabulary.
Context `{Platform}.

(** The states of a run: the constructor, then one [Update] per frame. *)
Inductive reachable : Game.t → Prop :=
| reachable_new seed : reachable (Game.new seed)
| reachable_Update inp g g' :
    reachable g → Game.Update inp g = Some g' → reachable g'.

(** The session mode Playing: neither the menu nor the end screen. *)
Definition playing (g : Game.t) : Prop :=
  Game.isMainMenu g = false ∧ Game.isGameOver g = false.

(** What holds of every state of a run: five rooms of width 800 laid
    out side by side, a cursor among them, a pool of 100 slots carrying
    an admissible damage, and a room flagged cleared has no active
    enemy. *)
Record well_formed (g : Game.t) : Prop := {
  wf_rooms : length (Game.rooms g) = 5%nat;
  wf_cursor : 0 ≤ Game.currentRoom g < 5;
  wf_geometry : ∀ i r, Game.rooms g !! i = Some r →
    Room.x r = (F.ofZ (Z.of_nat i) * F.ofZ 800)%F ∧ Room.width r = F.ofZ 800;
  wf_pool : length (Game.projectiles g) = 100%nat;
  wf_damage : Forall damage_ok (Game.projectiles g);
  wf_cleared : ∀ r, r ∈ Game.rooms g → Room.cleared r = true →
    Room.no_active_enemy (Room.enemies r) = true
}.
End Vocabulary.

Section Sessions.
Context `{Platform}.

(** [session g g']: from [g], a number of ticks, each taken in Playing
    mode, lead to [g']. No reset lies in between. *)
Inductive session : Game.t → Game.t → Prop :=
| session_refl g : session g g
| session_tick inp g g' g'' :
    session g g' → playing g' → Game.Update inp g' = Some g'' → session g g''.
End Sessions.


(** ** Vocabulary of the further properties *)

(** An entity whose health and activity agree: health between 0 and its
    maximum, active exactly when some health is left. *)
Definition vital (e : Entity.t) : Prop :=
  0 ≤ Entity.health e ≤ Entity.maxHealth e
  ∧ Entity.maxHealth e ≤ I32.max_int
  ∧ (Entity.active e = true ↔ 0 < Entity.health e).

(** [e'] is [e] moved or turned: only x, y and facing may differ. *)
Definition moved (e e' : Entity.t) : Prop :=
  Entity.radius e' = Entity.radius e ∧ Entity.health e' = Entity.health e
  ∧ Entity.maxHealth e' = Entity.maxHealth e
  ∧ Entity.active e' = Entity.active e ∧ Entity.color e' = Entity.color e.

(** [e'] is [e] after hits: only health and activity may differ, health
    does not grow and a vital entity stays vital. *)
Definition struck (e e' : Entity.t) : Prop :=
  Entity.x e' = Entity.x e ∧ Entity.y e' = Entity.y e
  ∧ Entity.radius e' = Entity.radius e
  ∧ Entity.maxHealth e' = Entity.maxHealth e
  ∧ Entity.color e' = Entity.color e ∧ Entity.facing e' = Entity.facing e
  ∧ (vital e → vital e' ∧ Entity.health e' ≤ Entity.health e).

(** [e'] is [e] later in the same session. *)
Definition aged (e e' : Entity.t) : Prop :=
  Entity.radius e' = Entity.radius e
  ∧ Entity.maxHealth e' = Entity.maxHealth e
  ∧ Entity.color e' = Entity.color e
  ∧ (vital e → vital e' ∧ Entity.health e' ≤ Entity.health e).

Definition enemy_aged (e e' : Enemy.t) : Prop :=
  aged (Enemy.base e) (Enemy.base e') ∧ Enemy.isBoss e' = Enemy.isBoss e.

(** The player [p] is in [room], its circle not crossing the walls. *)
Definition inside (room : Room.t) (p : Player.t) : Prop :=
  (Room.x room + Player.radius p <=? Player.x p)%F = true
  ∧ (Player.x p <=? Room.x room + Room.width room - Player.radius p)%F = true
  ∧ (Room.y room + Player.radius p <=? Player.y p)%F = true
  ∧ (Player.y p <=? Room.y room + Room.height room - Player.radius p)%F = true.

(** The two kinds of enemy the constructors make. *)
Definition enemy_kind_ok (e : Enemy.t) : Prop :=
  if Enemy.isBoss e
  then Enemy.radius e = F.ofZ 25 ∧ Entity.maxHealth (Enemy.base e) = BOSS_HEALTH
  else Enemy.radius e = F.ofZ 12 ∧ Entity.maxHealth (Enemy.base e) = ENEMY_HEALTH.

(** An enemy as constructed: active, at full health. *)
Definition fresh_enemy (e : Enemy.t) : Prop :=
  enemy_kind_ok e ∧ Enemy.active e = true
  ∧ Enemy.health e = Entity.maxHealth (Enemy.base e)
  ∧ Enemy.aggro e = false.

(** Room number [i] as [ResetGame] makes it. *)
Definition generated (i : Z) (r : Room.t) : Prop :=
  Room.x r = (F.ofZ i * F.ofZ 800)%F ∧ Room.y r = F.ofZ 0
  ∧ Room.width r = F.ofZ 800 ∧ Room.height r = F.ofZ 600
  ∧ Room.cleared r = false ∧ Room.hasBoss r = (i =? 4)
  ∧ Forall fresh_enemy (Room.enemies r)
  ∧ if i =? 4
    then ∃ boss, Room.enemies r = [boss] ∧ Enemy.isBoss boss = true
                 ∧ Enemy.x boss = (F.ofZ i * F.ofZ 800 + F.ofZ 400)%F
                 ∧ Enemy.y boss = F.ofZ 300
    else Forall (λ e, Enemy.isBoss e = false) (Room.enemies r).

Section Soundness.
Context `{Platform}.

(** What more holds of every state of a run: the player and the enemies
    are vital and of the sizes their constructors gave them, the rooms are
    600 high from y = 0 with the boss flag on the last, and the player is
    inside the current room. *)
Record sound (g : Game.t) : Prop := {
  sound_player : vital (Player.base (Game.player g));
  sound_player_size :
    Player.radius (Game.player g) = F.ofZ 15
    ∧ Entity.maxHealth (Player.base (Game.player g)) = PLAYER_HEALTH;
  sound_rooms : ∀ i r, Game.rooms g !! i = Some r →
    Room.y r = F.ofZ 0 ∧ Room.height r = F.ofZ 600
    ∧ Room.hasBoss r = bool_decide (i = 4%nat);
  sound_enemies : ∀ r e, r ∈ Game.rooms g → e ∈ Room.enemies r →
    vital (Enemy.base e) ∧ enemy_kind_ok e;
  sound_inside : ∀ room, Game.room_at g = Some room → inside room (Game.player g)
}.
End Soundness.

(** A frame whose timer reads NaN, no key down. *)
Definition nan_frame : Input :=
  {| keyW := false; keyS := false; keyA := false; keyD := false;
     keySpace := false; enterPressed := false; frameTime := S754_nan;
     getTime := λ _ _, D.ofF (F.ofZ 0) |}.

(** ** The first part of a tick *)

(** The state and the roster after "Handle player shooting" and "Handle
    enemy shooting", for the current room [room]. *)
Definition after_shooting `{Platform} (inp : Input) (deltaTime : float)
    (room : Room.t) (g : Game.t) : list Enemy.t * Game.t :=
  let p := Game.keep_player_inside room (Player.Update inp deltaTime (Game.player g)) in
  let g := Game.with_player p g in
  let g :=
    if keySpace inp && Player.CanShoot p
    then Game.with_player (Player.ResetShootCooldown p)
           (Game.FireProjectile (Player.x p) (Player.y p) (Player.facing p) false g)
    else g in
  Game.enemies_shoot (Room.enemies room) g.

(** ** What the game screen shows *)

(** The test of [DrawGame] for the message "Defeat all enemies to
    proceed!": the current room is not cleared and the player is past its
    exit boundary. *)
Definition DrawGame_blocked_message `{Platform} (g : Game.t) : option bool :=
  room ← Game.room_at g;
  Some (negb (Room.cleared room)
        && (Player.x (Game.player g)
              >? Room.x room + Room.width room - F.ofZ 50)%F).

(** What [DrawPlayerUI] shows: the width of the green health bar, the two
    numbers of the health text, the two of the room counter, and whether
    "WARNING: BOSS AHEAD!" is drawn. *)
Record HUD := {
  bar_width : Z;
  health_text : Z * Z;
  room_text : Z * Z;
  boss_warning : bool
}.

(** [void DrawPlayerUI()]; no result where the source divides by zero or
    reads past the rooms. *)
Definition DrawPlayerUI `{Platform} (g : Game.t) : option HUD :=
  let health := Player.health (Game.player g) in
  let maxHealth := Entity.maxHealth (Player.base (Game.player g)) in
  if maxHealth =? 0 then None
  else
    warning ←
      (if SizeT.ofInt (Game.currentRoom g)
            =? SizeT.wrap (Z.of_nat (length (Game.rooms g)) - 1)
       then room ← Game.room_at g; Some (negb (Room.cleared room))
       else Some false);
    Some {| bar_width := I32.wrap (Z.quot (I32.wrap (200 * health)) maxHealth);
            health_text := (health, maxHealth);
            room_text := (I32.wrap (Game.currentRoom g + 1),
                          I32.wrap (Z.of_nat (length (Game.rooms g))));
            boss_warning := warning |}.

(** ** The pool *)

(** A [float] that is a number: neither NaN nor an infinity. *)
Definition finite_float (v : float) : bool :=
  match v with
  | S754_zero _ | S754_finite _ _ _ => true
  | _ => false
  end.

(** A slot of the pool as [Projectile()] and [Fire] leave it: of radius
    5 and health 1, its damage and colour those of its side, at rest or
    flying along one axis at [PROJECTILE_SPEED]. *)
Definition slot_ok (p : Projectile.t) : Prop :=
  Entity.radius (Projectile.base p) = F.ofZ 5
  ∧ Entity.health (Projectile.base p) = 1
  ∧ Projectile.damage p = (if Projectile.isEnemyProjectile p then 5 else 10)
  ∧ Entity.color (Projectile.base p)
    = (if Projectile.isEnemyProjectile p then RED else YELLOW)
  ∧ ((Projectile.speedX p = F.ofZ 0
      ∧ (Projectile.speedY p = F.ofZ 0
         ∨ Projectile.speedY p = PROJECTILE_SPEED
         ∨ Projectile.speedY p = (- PROJECTILE_SPEED)%F))
     ∨ (Projectile.speedY p = F.ofZ 0
        ∧ (Projectile.speedX p = PROJECTILE_SPEED
           ∨ Projectile.speedX p = (- PROJECTILE_SPEED)%F))).

(** * Properties *)

(** ** Floating-point comparison and symmetry facts *)

Lemma SFcompare_refl a : SFcompare a a = Some Eq ∨ SFcompare a a = None.
Proof.
  destruct a as [s|s| |s m e]; simpl; auto.
  - destruct s; auto.
  - left. rewrite Z.compare_refl.
    change (Pos.compare_cont Eq m m) with (Pos.compare m m).
    rewrite Pos.compare_refl. by destruct s.
Qed.

Lemma F_ltb_irrefl a : F.ltb a a = false.
Proof. unfold F.ltb, SFltb. by destruct (SFcompare_refl a) as [-> | ->]. Qed.

Lemma F_gtb_irrefl a : F.gtb a a = false.
Proof. unfold F.gtb. by destruct (SFcompare_refl a) as [-> | ->]. Qed.

(** The sign given to a rounding only shows in the sign of the result. *)
Lemma binary_round_aux_abs p e s s' m ex l :
  SFabs (binary_round_aux p e s m ex l) = SFabs (binary_round_aux p e s' m ex l).
Proof.
  unfold binary_round_aux.
  destruct (shr_fexp p e m ex l) as [mrs e1].
  destruct (shr_fexp _ _ _ _ _) as [mrs' e2].
  destruct (shr_m mrs'); try done.
  by destruct (_ <=? _).
Qed.

Lemma binary_round_abs p e s s' m ex :
  SFabs (binary_round p e s m ex) = SFabs (binary_round p e s' m ex).
Proof.
  unfold binary_round. destruct (shl_align _ _ _). apply binary_round_aux_abs.
Qed.

Lemma binary_normalize_opp_abs p e m ex sz sz' :
  SFabs (binary_normalize p e (- m) ex sz) = SFabs (binary_normalize p e m ex sz').
Proof. destruct m; simpl; try done; apply binary_round_abs. Qed.

(** [a - b] and [b - a] have the same magnitude. *)
Lemma F_sub_swap_abs a b : SFabs (a - b)%F = SFabs (b - a)%F.
Proof.
  unfold F.sub.
  destruct a as [sa|sa| |sa ma ea], b as [sb|sb| |sb mb eb]; simpl; try done.
  - by destruct sa, sb.
  - by destruct sa, sb.
  - rewrite (Z.min_comm eb ea).
    rewrite <- (binary_normalize_opp_abs _ _ _ _ false false).
    f_equal. f_equal. lia.
Qed.

(** A square only depends on the magnitude. *)
Lemma F_mul_self_abs u v : SFabs u = SFabs v → (u * u)%F = (v * v)%F.
Proof.
  unfold F.mul.
  destruct u as [s|s| |s m e], v as [s'|s'| |s' m' e']; simpl; try done.
  - by destruct s, s'.
  - by destruct s, s'.
  - intros [= -> ->]. by destruct s, s'.
Qed.

Lemma F_add_comm a b : (a + b)%F = (b + a)%F.
Proof.
  unfold F.add.
  destruct a as [sa|sa| |sa ma ea], b as [sb|sb| |sb mb eb]; simpl; try done.
  - by destruct sa, sb.
  - by destruct sa, sb.
  - rewrite (Z.min_comm eb ea). f_equal. lia.
Qed.

Lemma distance_sym a b : Entity.distance a b = Entity.distance b a.
Proof.
  unfold Entity.distance.
  rewrite (F_mul_self_abs _ _ (F_sub_swap_abs (Entity.x a) (Entity.x b))).
  by rewrite (F_mul_self_abs _ _ (F_sub_swap_abs (Entity.y a) (Entity.y b))).
Qed.

(** ** Entity *)

Lemma I32_wrap_in_range z : I32.in_range z → I32.wrap z = z.
Proof.
  unfold I32.in_range, I32.min_int, I32.max_int, I32.wrap. intros Hz.
  rewrite Z.mod_small; lia.
Qed.

Lemma TakeDamage_health_nonneg amount e :
  0 ≤ Entity.health (Entity.TakeDamage amount e).
Proof.
  unfold Entity.TakeDamage. simpl.
  destruct (Z.leb_spec (I32.wrap (Entity.health e - amount)) 0); simpl; lia.
Qed.

Lemma TakeDamage_lethal amount e :
  I32.in_range (Entity.health e - amount) → Entity.health e ≤ amount →
  Entity.TakeDamage amount e = Entity.with_active false (Entity.with_health 0 e).
Proof.
  intros Hr Hle. unfold Entity.TakeDamage. simpl.
  rewrite (I32_wrap_in_range _ Hr).
  destruct (Z.leb_spec (Entity.health e - amount) 0); [done | lia].
Qed.

Lemma TakeDamage_not_lethal amount e :
  I32.in_range (Entity.health e - amount) → amount < Entity.health e →
  Entity.TakeDamage amount e = Entity.with_health (Entity.health e - amount) e.
Proof.
  intros Hr Hlt. unfold Entity.TakeDamage. simpl.
  rewrite (I32_wrap_in_range _ Hr).
  destruct (Z.leb_spec (Entity.health e - amount) 0); [lia | done].
Qed.

Lemma damaged_refl e : damaged e e.
Proof. unfold damaged. intuition congruence. Qed.

Lemma damaged_trans e1 e2 e3 : damaged e1 e2 → damaged e2 e3 → damaged e1 e3.
Proof.
  unfold damaged. intros (Ha & Hb & Hc) (Ha' & Hb' & Hc'). split_and!.
  - auto.
  - intros Hi Hh. apply Hb'; [|auto].
    destruct (Entity.active e2) eqn:E; [|done]. rewrite Ha in Hi; done.
  - intros Hi Ho. destruct (Entity.active e2) eqn:E; auto.
Qed.

Lemma damaged_same e e' :
  Entity.active e' = Entity.active e → Entity.health e' = Entity.health e →
  damaged e e'.
Proof. unfold damaged. intros -> ->. intuition congruence. Qed.

Lemma TakeDamage_damaged amount e :
  0 ≤ amount ≤ I32.max_int → damaged e (Entity.TakeDamage amount e).
Proof.
  intros Ha. unfold damaged, Entity.TakeDamage. simpl.
  destruct (Z.leb_spec (I32.wrap (Entity.health e - amount)) 0) as [Hle|Hgt];
    simpl; split_and!; try done.
  - intros _ Hh. rewrite Hh in Hgt.
    rewrite I32_wrap_in_range in Hgt;
      unfold I32.in_range, I32.min_int, I32.max_int in *; lia.
  - congruence.
Qed.

(** ** Projectile and pool *)

Lemma Fire_active sx sy dir isEnemy p :
  Projectile.active (Projectile.Fire sx sy dir isEnemy p) = true.
Proof. by destruct dir, isEnemy. Qed.

Lemma Fire_damage sx sy dir isEnemy p :
  Projectile.damage (Projectile.Fire sx sy dir isEnemy p)
  = if isEnemy then 5 else 10.
Proof. by destruct dir, isEnemy. Qed.

Lemma fire_scan_length sx sy dir isEnemy ps :
  length (Game.fire_scan sx sy dir isEnemy ps) = length ps.
Proof.
  induction ps as [|p ps IH]; simpl; [done|].
  destruct (Projectile.active p); simpl; [by rewrite IH|].
  by destruct (Game.spawn sx sy dir).
Qed.

(** The scan fires the first inactive slot and nothing else. *)
Lemma fire_scan_first_inactive sx sy dir isEnemy ps i p :
  first_inactive ps i p →
  Game.fire_scan sx sy dir isEnemy ps
  = <[i := Projectile.Fire (Game.spawn sx sy dir).1 (Game.spawn sx sy dir).2
            dir isEnemy p]> ps.
Proof.
  revert i. induction ps as [|q ps IH]; intros i (Hi & Hp & Hbefore).
  - by rewrite lookup_nil in Hi.
  - destruct i as [|i]; simpl in *.
    + injection Hi as ->. rewrite Hp. simpl. by destruct (Game.spawn sx sy dir).
    + rewrite (Hbefore 0%nat q); [|lia|done]. simpl. f_equal.
      apply IH. split_and!; [done..|].
      intros j q' Hj Hq'. apply (Hbefore (S j) q'); [lia|done].
Qed.

(** With every slot active the scan changes nothing. *)
Lemma fire_scan_all_active sx sy dir isEnemy ps :
  (∀ q, q ∈ ps → Projectile.active q = true) →
  Game.fire_scan sx sy dir isEnemy ps = ps.
Proof.
  induction ps as [|p ps IH]; intros Hall; simpl; [done|].
  rewrite (Hall p); [|by left]. simpl. f_equal.
  apply IH. intros q Hq. apply Hall. by right.
Qed.

Lemma first_inactive_exists ps :
  (∃ j q, ps !! j = Some q ∧ Projectile.active q = false) →
  ∃ i p, first_inactive ps i p.
Proof.
  induction ps as [|p ps IH]; intros (j & q & Hj & Hq).
  - by rewrite lookup_nil in Hj.
  - destruct (Projectile.active p) eqn:Hp.
    + destruct j as [|j]; simpl in Hj; [congruence|].
      destruct IH as (i & p' & Hi & Hp' & Hbefore); [by eauto|].
      exists (S i), p'. split_and!; [done..|].
      intros [|k] q' Hk Hq'; simpl in Hq'; [congruence|].
      apply (Hbefore k q'); [lia|done].
    + exists 0%nat, p. split_and!; [done..|]. intros; lia.
Qed.

Lemma first_inactive_lt ps i p : first_inactive ps i p → (i < length ps)%nat.
Proof. intros (Hi & _). by apply lookup_lt_Some in Hi. Qed.

(** ** Room *)

Section RoomFacts.
Context `{Platform}.

(** [Update] of an actor moves and turns it; liveness is not touched. *)
Lemma ChangeDirection_liveness e rng :
  Entity.active (Enemy.base (Enemy.ChangeDirection e rng).1) = Enemy.active e
  ∧ Entity.health (Enemy.base (Enemy.ChangeDirection e rng).1) = Enemy.health e.
Proof.
  unfold Enemy.ChangeDirection.
  by destruct (uniform_real_distribution _ _ rng).
Qed.

Lemma Enemy_Update_liveness deltaTime player e rng :
  Enemy.active (Enemy.Update deltaTime player e rng).1 = Enemy.active e
  ∧ Enemy.health (Enemy.Update deltaTime player e rng).1 = Enemy.health e.
Proof.
  unfold Enemy.Update.
  repeat match goal with
         | |- context [if ?c then _ else _] => destruct c
         | |- context [let '(_, _) := ?c in _] =>
             let E := fresh "E" in destruct c eqn:E
         | E : context [let '(_, _) := ?c in _] |- _ =>
             let E' := fresh "E" in destruct c eqn:E'
         | E : (_, _) = (_, _) |- _ => injection E as <- <-
         end; simpl; try done;
  match goal with
  | E : Enemy.ChangeDirection ?e' _ = _ |- _ =>
      pose proof (ChangeDirection_liveness e' rng) as HC; rewrite E in HC
  end;
  apply HC.
Qed.

Lemma enemy_Update_liveness inp deltaTime player i e rng :
  Enemy.active (Room.enemy_Update inp deltaTime player i e rng).1 = Enemy.active e
  ∧ Enemy.health (Room.enemy_Update inp deltaTime player i e rng).1
    = Enemy.health e.
Proof.
  unfold Room.enemy_Update, Boss.Update.
  pose proof (Enemy_Update_liveness deltaTime player e rng) as HE.
  destruct (Enemy.isBoss e); [|done].
  by destruct (Enemy.Update deltaTime player e rng).
Qed.

Lemma update_enemies_liveness inp deltaTime player r i es rng :
  Forall2 (λ e e', Enemy.active e' = Enemy.active e
                   ∧ Enemy.health e' = Enemy.health e)
    es (Room.update_enemies inp deltaTime player r i es rng).1.
Proof.
  revert i rng. induction es as [|e es IH]; intros i rng; simpl; [constructor|].
  pose proof (enemy_Update_liveness inp deltaTime player i e rng) as HE.
  destruct (Enemy.active e) eqn:Ha.
  - destruct (Room.enemy_Update inp deltaTime player i e rng) as [e' rng'].
    specialize (IH (S i) rng').
    destruct (Room.update_enemies _ _ _ _ _ _ _) as [es' rng''].
    simpl in *. constructor; [|done].
    unfold Enemy.active, Enemy.health in *. by rewrite Ha.
  - specialize (IH (S i) rng).
    destruct (Room.update_enemies _ _ _ _ _ _ _) as [es' rng''].
    simpl in *. by constructor.
Qed.

Lemma no_active_enemy_true es :
  Room.no_active_enemy es = true ↔ ∀ e, e ∈ es → Enemy.active e = false.
Proof.
  induction es as [|e es IH]; simpl.
  - split; [|done]. intros _ e He. by apply elem_of_nil in He.
  - destruct (Enemy.active e) eqn:Ha.
    + split; [done|]. intros Hall. rewrite (Hall e) in Ha; [done|by left].
    + rewrite IH. split.
      * intros Hall e' [->|He']%elem_of_cons; auto.
      * intros Hall e' He'. apply Hall. by right.
Qed.

Lemma no_active_enemy_false es :
  Room.no_active_enemy es = false ↔ ∃ e, e ∈ es ∧ Enemy.active e = true.
Proof.
  induction es as [|e es IH]; simpl.
  - split; [done|]. intros (e & He & _). by apply elem_of_nil in He.
  - destruct (Enemy.active e) eqn:Ha.
    + split; [|done]. intros _. exists e. split; [by left|done].
    + rewrite IH. split.
      * intros (e' & He' & Ha'). exists e'. split; [by right|done].
      * intros (e' & [->|He']%elem_of_cons & Ha'); [congruence|eauto].
Qed.

(** Enemies that were never made active again leave a clear roster clear. *)
Lemma no_active_enemy_mono (R : Enemy.t → Enemy.t → Prop) es es' :
  (∀ e e', R e e' → Enemy.active e' = true → Enemy.active e = true) →
  Forall2 R es es' →
  Room.no_active_enemy es = true → Room.no_active_enemy es' = true.
Proof.
  intros HR. induction 1 as [|e e' es es' He _ IH]; simpl; [done|].
  destruct (Enemy.active e) eqn:Ha; [done|]. intros Hes.
  destruct (Enemy.active e') eqn:Ha'; [|auto].
  apply HR in He; [congruence|done].
Qed.

Lemma Room_Update_spec inp deltaTime player r rng :
  let r' := (Room.Update inp deltaTime player r rng).1 in
  Room.x r' = Room.x r ∧ Room.y r' = Room.y r
  ∧ Room.width r' = Room.width r ∧ Room.height r' = Room.height r
  ∧ Room.hasBoss r' = Room.hasBoss r
  ∧ Room.cleared r' = Room.no_active_enemy (Room.enemies r')
  ∧ Forall2 (λ e e', Enemy.active e' = Enemy.active e
                     ∧ Enemy.health e' = Enemy.health e)
      (Room.enemies r) (Room.enemies r').
Proof.
  unfold Room.Update.
  pose proof (update_enemies_liveness inp deltaTime player r 0 (Room.enemies r) rng).
  destruct (Room.update_enemies _ _ _ _ _ _ _) as [es rng'].
  simpl in *. by split_and!.
Qed.
End RoomFacts.

(** ** Game: what each step of a tick may change *)

Lemma Forall2_enemy_damaged_refl es : Forall2 enemy_damaged es es.
Proof.
  induction es as [|e es IH]; [constructor|].
  constructor; [apply damaged_refl|exact IH].
Qed.

Lemma Forall2_enemy_damaged_trans es1 es2 es3 :
  Forall2 enemy_damaged es1 es2 → Forall2 enemy_damaged es2 es3 →
  Forall2 enemy_damaged es1 es3.
Proof.
  intros H12. revert es3.
  induction H12 as [|e1 e2 es1 es2 He _ IH]; intros es3 H23;
    inversion H23; subst; constructor; [|by auto].
  by eapply damaged_trans.
Qed.

Lemma Forall2_same_base_damaged es es' :
  Forall2 (λ e e', Enemy.base e' = Enemy.base e) es es' →
  Forall2 enemy_damaged es es'.
Proof.
  induction 1 as [|e e' es es' He _ IH]; constructor; [|done].
  unfold enemy_damaged. rewrite He. apply damaged_refl.
Qed.

Lemma Forall2_liveness_damaged es es' :
  Forall2 (λ e e', Enemy.active e' = Enemy.active e
                   ∧ Enemy.health e' = Enemy.health e) es es' →
  Forall2 enemy_damaged es es'.
Proof.
  induction 1 as [|e e' es es' [Ha Hh] _ IH]; constructor; [|done].
  by apply damaged_same.
Qed.

Lemma Projectile_Update_damage deltaTime p :
  Projectile.damage (Projectile.Update deltaTime p) = Projectile.damage p.
Proof. unfold Projectile.Update. by destruct (Projectile.active p). Qed.

Lemma fire_scan_damage_ok sx sy dir isEnemy ps :
  Forall damage_ok ps → Forall damage_ok (Game.fire_scan sx sy dir isEnemy ps).
Proof.
  induction 1 as [|p ps Hp Hps IH]; simpl; [constructor|].
  destruct (Projectile.active p); simpl; [by constructor|].
  destruct (Game.spawn sx sy dir). constructor; [|done].
  unfold damage_ok. rewrite Fire_damage. destruct isEnemy; lia.
Qed.

Lemma Player_Update_liveness inp deltaTime p :
  Player.active (Player.Update inp deltaTime p) = Player.active p
  ∧ Player.health (Player.Update inp deltaTime p) = Player.health p.
Proof.
  unfold Player.Update.
  by repeat match goal with
            | |- context [if ?c then _ else _] => destruct c
            end.
Qed.

Lemma hit_enemies_spec p es :
  damage_ok p → Forall2 enemy_damaged es (Game.hit_enemies p es).1.
Proof.
  intros Hp. induction es as [|e es IH]; simpl; [constructor|].
  destruct (_ && _).
  - simpl. constructor; [|apply Forall2_enemy_damaged_refl].
    apply TakeDamage_damaged. unfold damage_ok, I32.max_int in *. lia.
  - destruct (Game.hit_enemies p es). simpl in *.
    constructor; [apply damaged_refl|done].
Qed.

Lemma update_projectile_spec deltaTime room p es pl :
  damage_ok p →
  let r := Game.update_projectile deltaTime room p es pl in
  Projectile.damage r.1.1 = Projectile.damage p
  ∧ Forall2 enemy_damaged es r.1.2
  ∧ damaged (Player.base pl) (Player.base r.2).
Proof.
  intros Hp. unfold Game.update_projectile.
  pose proof (Projectile_Update_damage deltaTime p) as Hd.
  assert (damage_ok (Projectile.Update deltaTime p)) as Hp'
    by (unfold damage_ok; by rewrite Hd).
  pose proof (hit_enemies_spec _ es Hp') as Hhit.
  destruct (Projectile.active p); simpl;
    [|by split_and!; [|apply Forall2_enemy_damaged_refl|apply damaged_refl]].
  destruct (negb (Room.ContainsPoint _ _ _)); simpl;
    [by split_and!; [|apply Forall2_enemy_damaged_refl|apply damaged_refl]|].
  destruct (negb (Projectile.isEnemyProjectile _)).
  - destruct (Game.hit_enemies _ es) as [es' hit]. simpl in *.
    split_and!; [by destruct hit|done|apply damaged_refl].
  - destruct (Entity.IsColliding _ _); simpl;
      (split_and!; [done|apply Forall2_enemy_damaged_refl|]).
    + apply TakeDamage_damaged. unfold damage_ok, I32.max_int in *. lia.
    + apply damaged_refl.
Qed.

Lemma update_projectiles_spec deltaTime room ps es pl :
  Forall damage_ok ps →
  let r := Game.update_projectiles deltaTime room ps es pl in
  length r.1.1 = length ps
  ∧ Forall damage_ok r.1.1
  ∧ Forall2 enemy_damaged es r.1.2
  ∧ damaged (Player.base pl) (Player.base r.2).
Proof.
  intros Hps. revert es pl.
  induction Hps as [|p ps Hp _ IH]; intros es pl; simpl.
  - split_and!; [done|constructor|apply Forall2_enemy_damaged_refl|apply damaged_refl].
  - pose proof (update_projectile_spec deltaTime room p es pl Hp) as (Hd & He & Hl).
    destruct (Game.update_projectile deltaTime room p es pl) as [[p' es'] pl'].
    specialize (IH es' pl') as (IHn & IHd & IHe & IHl).
    destruct (Game.update_projectiles deltaTime room ps es' pl') as [[ps' es''] pl''].
    simpl in *. split_and!.
    + by rewrite IHn.
    + constructor; [|done]. unfold damage_ok. by rewrite Hd.
    + by eapply Forall2_enemy_damaged_trans.
    + by eapply damaged_trans.
Qed.

Section GameFacts.
Context `{Platform}.

Lemma with_projectiles_same (g : Game.t) :
  Game.with_projectiles (Game.projectiles g) g = g.
Proof. by destruct g. Qed.

Lemma room_at_Some (g : Game.t) room :
  Game.room_at g = Some room →
  0 ≤ Game.currentRoom g
  ∧ Game.rooms g !! Z.to_nat (Game.currentRoom g) = Some room
  ∧ Game.currentRoom g < Z.of_nat (length (Game.rooms g)).
Proof.
  unfold Game.room_at. destruct (Z.ltb_spec (Game.currentRoom g) 0); [done|].
  intros Hr. split_and!; [done..|]. apply lookup_lt_Some in Hr. lia.
Qed.

Lemma room_at_set_room (g : Game.t) room r :
  Game.room_at g = Some room → Game.room_at (Game.set_room r g) = Some r.
Proof.
  intros (Hc & Hr & _)%room_at_Some. unfold Game.room_at, Game.set_room. simpl.
  destruct (Z.ltb_spec (Game.currentRoom g) 0); [lia|].
  apply list_lookup_insert_eq. by apply lookup_lt_Some in Hr.
Qed.

(** The enemies' turn to shoot resets cooldowns and fills pool slots. *)
Lemma enemies_shoot_spec es (g : Game.t) :
  let r := Game.enemies_shoot es g in
  Forall2 (λ e e', Enemy.base e' = Enemy.base e) es r.1
  ∧ r.2 = Game.with_projectiles (Game.projectiles r.2) g
  ∧ length (Game.projectiles r.2) = length (Game.projectiles g)
  ∧ (Forall damage_ok (Game.projectiles g) →
     Forall damage_ok (Game.projectiles r.2)).
Proof.
  revert g. induction es as [|e es IH]; intros g; simpl.
  - split_and!; [constructor|by destruct g|done..].
  - destruct (Enemy.active e && Enemy.CanShoot e).
    + specialize (IH (Game.FireProjectile (Enemy.x e) (Enemy.y e)
                        (Enemy.facing e) true g)).
      destruct (Game.enemies_shoot es _) as [es' g']. simpl in *.
      destruct IH as (IH1 & IH2 & IH3 & IH4). split_and!.
      * by constructor.
      * by rewrite IH2.
      * by rewrite IH3, fire_scan_length.
      * intros Hd. by apply IH4, fire_scan_damage_ok.
    + specialize (IH g).
      destruct (Game.enemies_shoot es g) as [es' g']. simpl in *.
      destruct IH as (IH1 & IH2 & IH3 & IH4). split_and!; [by constructor|done..].
Qed.

Lemma UpdateProjectiles_spec deltaTime (g g' : Game.t) :
  Forall damage_ok (Game.projectiles g) →
  Game.UpdateProjectiles deltaTime g = Some g' →
  ∃ room es',
    Game.room_at g = Some room
    ∧ g' = Game.with_player (Game.player g')
             (Game.set_room (Room.with_enemies es' room)
                (Game.with_projectiles (Game.projectiles g') g))
    ∧ Forall2 enemy_damaged (Room.enemies room) es'
    ∧ damaged (Player.base (Game.player g)) (Player.base (Game.player g'))
    ∧ length (Game.projectiles g') = length (Game.projectiles g)
    ∧ Forall damage_ok (Game.projectiles g').
Proof.
  intros Hd. unfold Game.UpdateProjectiles.
  destruct (Game.room_at g) as [room|] eqn:Hroom; [|done]. simpl.
  pose proof (update_projectiles_spec deltaTime room _ (Room.enemies room)
                (Game.player g) Hd) as (Hn & Hd' & He & Hp).
  destruct (Game.update_projectiles _ _ _ _ _) as [[ps' es'] pl'].
  intros [= <-]. exists room, es'. by split_and!.
Qed.

(** The first part of a tick: the room stays where it is, its roster and
    the player are at most damaged, the pool keeps its size. *)
Lemma simulate_spec inp deltaTime (g g' : Game.t) :
  Forall damage_ok (Game.projectiles g) →
  Game.simulate inp deltaTime g = Some g' →
  ∃ room room',
    Game.room_at g = Some room
    ∧ Game.room_at g' = Some room'
    ∧ Game.rooms g' = <[Z.to_nat (Game.currentRoom g) := room']> (Game.rooms g)
    ∧ Game.currentRoom g' = Game.currentRoom g
    ∧ Game.isMainMenu g' = Game.isMainMenu g
    ∧ Game.isGameOver g' = Game.isGameOver g
    ∧ Room.x room' = Room.x room
    ∧ Room.width room' = Room.width room
    ∧ Room.cleared room' = Room.no_active_enemy (Room.enemies room')
    ∧ Forall2 enemy_damaged (Room.enemies room) (Room.enemies room')
    ∧ damaged (Player.base (Game.player g)) (Player.base (Game.player g'))
    ∧ length (Game.projectiles g') = length (Game.projectiles g)
    ∧ Forall damage_ok (Game.projectiles g').
Proof.
  intros Hd Hsim. unfold Game.simulate in Hsim.
  set (g1 := Game.with_player _ g) in Hsim.
  destruct (Game.room_at g1) as [room|] eqn:Hroom; [|done].
  cbn [mbind option_bind] in Hsim.
  set (g2 := Game.with_player _ g1) in Hsim.
  set (g3 := if keySpace inp && _ then _ else _) in Hsim.
  assert (Game.rooms g3 = Game.rooms g ∧ Game.currentRoom g3 = Game.currentRoom g
          ∧ Game.isMainMenu g3 = Game.isMainMenu g
          ∧ Game.isGameOver g3 = Game.isGameOver g
          ∧ damaged (Player.base (Game.player g)) (Player.base (Game.player g3))
          ∧ length (Game.projectiles g3) = length (Game.projectiles g)
          ∧ Forall damage_ok (Game.projectiles g3))
    as (Hr3 & Hc3 & Hm3 & Ho3 & Hp3 & Hn3 & Hd3).
  { destruct (Player_Update_liveness inp deltaTime (Game.player g)) as [Ha Hh].
    subst g3 g2 g1. destruct (keySpace inp && _); simpl;
      (split_and!; [done..|by apply damaged_same| |]);
      [apply fire_scan_length|by apply fire_scan_damage_ok|done..]. }
  pose proof (enemies_shoot_spec (Room.enemies room) g3) as (Hs1 & Hs2 & Hs3 & Hs4).
  destruct (Game.enemies_shoot (Room.enemies room) g3) as [es4 g4].
  simpl in Hs1, Hs2, Hs3, Hs4. specialize (Hs4 Hd3).
  assert (Game.room_at g4 = Some room) as Hroom4.
  { rewrite Hs2. unfold Game.room_at in *. simpl. by rewrite Hr3, Hc3. }
  set (g5 := Game.set_room _ g4) in Hsim.
  destruct (Game.UpdateProjectiles deltaTime g5) as [g6|] eqn:Hup; [|done].
  cbn [mbind option_bind] in Hsim.
  apply UpdateProjectiles_spec in Hup
    as (room5 & es6 & Hroom5 & Hg6 & He6 & Hp6 & Hn6 & Hd6); [|done].
  unfold g5 in Hroom5. rewrite (room_at_set_room _ _ _ Hroom4) in Hroom5.
  injection Hroom5 as <-.
  assert (Game.room_at g6 = Some (Room.with_enemies es6 (Room.with_enemies es4 room)))
    as Hroom6.
  { rewrite Hg6. apply (room_at_set_room (Game.with_projectiles _ g5) _ _
                          (room_at_set_room _ _ _ Hroom4)). }
  rewrite Hroom6 in Hsim. cbn [mbind option_bind] in Hsim.
  pose proof (Room_Update_spec inp deltaTime (Game.player g6)
                (Room.with_enemies es6 (Room.with_enemies es4 room)) (Game.rng g6))
    as (Hx & _ & Hw & _ & _ & Hcl & Hlive).
  destruct (Room.Update _ _ _ _ _) as [room7 rng7]. injection Hsim as <-.
  simpl in Hx, Hw, Hcl, Hlive.
  exists room, room7. split_and!; try done.
  - apply (room_at_set_room _ _ _ Hroom6).
  - rewrite Hg6; unfold g5; rewrite Hs2; simpl. rewrite Hc3, Hr3.
    by rewrite !list_insert_insert_eq.
  - rewrite Hg6; unfold g5; rewrite Hs2; simpl. done.
  - rewrite Hg6; unfold g5; rewrite Hs2; simpl. done.
  - rewrite Hg6; unfold g5; rewrite Hs2; simpl. done.
  - eapply Forall2_enemy_damaged_trans; [by apply Forall2_same_base_damaged|].
    eapply Forall2_enemy_damaged_trans; [done|].
    by apply Forall2_liveness_damaged.
  - simpl. eapply damaged_trans; [done|].
    replace (Game.player g3) with (Game.player g5) in *; [done|].
    unfold g5. by rewrite Hs2.
  - simpl. rewrite Hn6. unfold g5. simpl. by rewrite Hs3.
Qed.
Lemma simulate_total inp deltaTime (g : Game.t) :
  is_Some (Game.room_at g) → is_Some (Game.simulate inp deltaTime g).
Proof.
  intros [room Hroom]. unfold Game.simulate.
  set (g1 := Game.with_player _ g).
  change (Game.room_at g1) with (Game.room_at g). rewrite Hroom.
  cbn [mbind option_bind].
  set (g2 := Game.with_player _ g1).
  set (g3 := if keySpace inp && _ then _ else _).
  assert (Game.room_at g3 = Some room) as Hroom3.
  { subst g3 g2 g1. by destruct (keySpace inp && _). }
  pose proof (enemies_shoot_spec (Room.enemies room) g3) as (_ & Hs2 & _).
  destruct (Game.enemies_shoot (Room.enemies room) g3) as [es4 g4]. simpl in Hs2.
  assert (Game.room_at g4 = Some room) as Hroom4 by (by rewrite Hs2).
  unfold Game.UpdateProjectiles.
  rewrite (room_at_set_room _ _ _ Hroom4). cbn [mbind option_bind].
  destruct (Game.update_projectiles _ _ _ _ _) as [[ps es] pl].
  cbn [mbind option_bind].
  match goal with
  | |- context [Game.room_at (Game.with_player ?p (Game.set_room ?r ?g0))] =>
      change (Game.room_at (Game.with_player p (Game.set_room r g0)))
        with (Game.room_at (Game.set_room r (Game.set_room (Room.with_enemies es4 room) g4)));
      rewrite (room_at_set_room _ _ r (room_at_set_room _ _ _ Hroom4))
  end.
  cbn [mbind option_bind]. by destruct (Room.Update _ _ _ _ _).
Qed.

(** The three ways through "Check for room transition". *)
Lemma room_transition_spec (g g' : Game.t) :
  Game.room_transition g = Some g' →
  ∃ room, Game.room_at g = Some room ∧
    ((Room.cleared room = true
      ∧ (Player.x (Game.player g) >? Game.exit_boundary room)%F = true
      ∧ (SizeT.ofInt (Game.currentRoom g)
           <? SizeT.wrap (Z.of_nat (length (Game.rooms g)) - 1)) = true
      ∧ ∃ next,
          Game.room_at (Game.with_currentRoom (I32.wrap (Game.currentRoom g + 1)) g)
            = Some next
          ∧ g' = Game.with_player
                   (Player.on_base (Entity.with_x (Room.x next + F.ofZ 50)%F)
                      (Game.player g))
                   (Game.with_currentRoom (I32.wrap (Game.currentRoom g + 1)) g))
     ∨ (Room.cleared room = false
        ∧ (Player.x (Game.player g) >? Game.exit_boundary room)%F = true
        ∧ g' = Game.with_player
                 (Player.on_base (Entity.with_x (Game.exit_boundary room))
                    (Game.player g)) g)
     ∨ (g' = g
        ∧ (Room.cleared room = true
           ∨ (Player.x (Game.player g) >? Game.exit_boundary room)%F = false))).
Proof.
  unfold Game.room_transition.
  destruct (Game.room_at g) as [room|] eqn:Hroom; [|done].
  cbn [mbind option_bind]. intros Ht. exists room. split; [done|].
  destruct (Room.cleared room) eqn:Hcl,
    (Player.x (Game.player g) >? Game.exit_boundary room)%F eqn:Hx;
    simpl in Ht.
  - destruct (_ <? _) eqn:Hlt.
    + destruct (Game.room_at (Game.with_currentRoom _ g)) as [next|] eqn:Hnext;
        [|done].
      injection Ht as <-. left. split_and!; [done..|]. by exists next.
    + injection Ht as <-. right; right. auto.
  - injection Ht as <-. right; right. auto.
  - injection Ht as <-. right; left. auto.
  - injection Ht as <-. right; right. auto.
Qed.

Lemma win_lose_spec (g g' : Game.t) :
  Game.win_lose g = Some g' →
  g' = Game.with_isGameOver (Game.isGameOver g') g
  ∧ (Player.health (Game.player g) ≤ 0 → Game.isGameOver g' = true).
Proof.
  unfold Game.win_lose.
  destruct (_ =? _); [destruct (Game.room_at g) as [room|]; [|done]|];
    cbn [mbind option_bind];
    repeat match goal with
           | |- context [if ?c then _ else _] => destruct c eqn:?
           end;
    intros [= <-]; (split; [by destruct g|]); simpl; try done; lia.
Qed.

Lemma win_lose_total (g : Game.t) :
  is_Some (Game.room_at g) → is_Some (Game.win_lose g).
Proof.
  intros [room Hroom]. unfold Game.win_lose. rewrite Hroom.
  by destruct (_ =? _).
Qed.
(** *** Level generation *)

Lemma add_enemies_frame n i r rng :
  let r' := (Game.add_enemies n i r rng).1 in
  Room.x r' = Room.x r ∧ Room.width r' = Room.width r
  ∧ Room.cleared r' = Room.cleared r.
Proof.
  revert r rng. induction n as [|n IH]; intros r rng; [done|].
  cbn [Game.add_enemies].
  destruct (Game.draw_position i rng) as [[ex ey] rng2].
  unfold Room.AddEnemy. destruct (Enemy.new ex ey rng2) as [e rng3].
  apply (IH (Room.with_enemies _ r)).
Qed.

Lemma make_room_fresh i rng : fresh_room i (Game.make_room i rng).1.
Proof.
  unfold Game.make_room, fresh_room. destruct (i =? 4).
  - unfold Room.AddBoss. by destruct (Boss.new _ _ rng).
  - destruct (uniform_int_distribution 3 6 rng) as [n rng1].
    apply (add_enemies_frame (Z.to_nat n) i (Room.new _ _ _ _ false)).
Qed.

Lemma make_rooms_spec todo rs rng :
  ∃ rs', (Game.make_rooms todo rs rng).1 = rs ++ rs'
         ∧ Forall2 fresh_room todo rs'.
Proof.
  revert rs rng. induction todo as [|i todo IH]; intros rs rng; simpl.
  - exists []. by rewrite app_nil_r.
  - pose proof (make_room_fresh i rng) as Hr.
    destruct (Game.make_room i rng) as [r rng1].
    destruct (IH (rs ++ [r]) rng1) as (rs' & -> & Hrs').
    exists (r :: rs'). rewrite <- app_assoc. split; [done|by constructor].
Qed.

Lemma ResetGame_well_formed (g : Game.t) :
  length (Game.projectiles g) = 100%nat →
  Forall damage_ok (Game.projectiles g) →
  well_formed (Game.ResetGame g).
Proof.
  intros Hn Hd. unfold Game.ResetGame.
  match goal with
  | |- context [Game.make_rooms ?todo ?rs0 ?rng0] =>
      destruct (make_rooms_spec todo rs0 rng0) as (rs & Hrs & Hfresh);
      destruct (Game.make_rooms todo rs0 rng0) as [rs1 rng]
  end.
  simpl in Hrs. subst rs1.
  split; simpl.
  - apply Forall2_length in Hfresh. by rewrite <- Hfresh.
  - lia.
  - intros i r Hi.
    destruct (Forall2_lookup_r _ _ _ _ _ Hfresh Hi) as (z & Hz & Hx & Hw & _).
    assert (z = Z.of_nat i) as ->; [|done].
    do 5 (destruct i as [|i]; [by injection Hz|]). done.
  - by rewrite length_fmap.
  - apply Forall_fmap. eapply Forall_impl; [done|]. by intros [].
  - intros r [i Hi]%list_elem_of_lookup Hcl.
    destruct (Forall2_lookup_r _ _ _ _ _ Hfresh Hi) as (z & _ & _ & _ & Hc).
    congruence.
Qed.

Lemma new_well_formed seed : well_formed (Game.new seed).
Proof.
  apply ResetGame_well_formed.
  - apply length_replicate.
  - apply Forall_replicate. unfold damage_ok. simpl. lia.
Qed.
(** *** The invariant of a run *)

Lemma well_formed_room_at (g : Game.t) :
  well_formed g → is_Some (Game.room_at g).
Proof.
  intros [Hn Hc _ _ _ _]. unfold Game.room_at.
  destruct (Z.ltb_spec (Game.currentRoom g) 0); [lia|].
  apply lookup_lt_is_Some. lia.
Qed.

(** With five rooms and a cursor among them the comparison with
    [rooms.size() - 1] and the increment are the mathematical ones. *)
Lemma cursor_arith (g : Game.t) :
  well_formed g →
  SizeT.ofInt (Game.currentRoom g) = Game.currentRoom g
  ∧ SizeT.wrap (Z.of_nat (length (Game.rooms g)) - 1) = 4
  ∧ I32.wrap (Game.currentRoom g + 1) = Game.currentRoom g + 1.
Proof.
  intros [Hn Hc _ _ _ _]. rewrite Hn.
  unfold SizeT.ofInt, SizeT.wrap. split_and!.
  - apply Z.mod_small. lia.
  - done.
  - apply I32_wrap_in_range. unfold I32.in_range, I32.min_int, I32.max_int. lia.
Qed.

Lemma well_formed_with_player p (g : Game.t) :
  well_formed g → well_formed (Game.with_player p g).
Proof. by intros []. Qed.

Lemma well_formed_with_isGameOver b (g : Game.t) :
  well_formed g → well_formed (Game.with_isGameOver b g).
Proof. by intros []. Qed.

Lemma well_formed_with_isMainMenu b (g : Game.t) :
  well_formed g → well_formed (Game.with_isMainMenu b g).
Proof. by intros []. Qed.

Lemma simulate_well_formed inp deltaTime (g g' : Game.t) :
  well_formed g → Game.simulate inp deltaTime g = Some g' → well_formed g'.
Proof.
  intros Hwf Hsim. pose proof Hwf as [Hn Hc Hgeo Hpool Hd Hcl].
  apply simulate_spec in Hsim
    as (room & room' & Hroom & Hroom' & Hrs & Hc' & _ & _ & Hx & Hw & Hcl'
        & _ & _ & Hn' & Hd'); [|done].
  apply room_at_Some in Hroom as (_ & Hroom & _).
  split.
  - by rewrite Hrs, length_insert.
  - by rewrite Hc'.
  - intros i r. rewrite Hrs.
    intros [(<- & <- & _)|[_ Hi]]%list_lookup_insert_Some; [|by apply Hgeo].
    rewrite Hx, Hw. by apply Hgeo.
  - by rewrite Hn'.
  - done.
  - intros r [i Hi]%list_elem_of_lookup. rewrite Hrs in Hi.
    apply list_lookup_insert_Some in Hi as [(_ & <- & _)|[_ Hi]].
    + by rewrite Hcl'.
    + apply Hcl. by eapply list_elem_of_lookup_2.
Qed.

Lemma room_transition_well_formed (g g' : Game.t) :
  well_formed g → Game.room_transition g = Some g' → well_formed g'.
Proof.
  intros Hwf (room & Hroom & Hcases)%room_transition_spec.
  destruct (cursor_arith g Hwf) as (Hof & Hlen & Hinc).
  destruct Hcases as [(_ & _ & Hlt & next & _ & ->)|[(_ & _ & ->)|[-> _]]].
  - rewrite Hof, Hlen in Hlt. apply Z.ltb_lt in Hlt. rewrite Hinc.
    apply well_formed_with_player.
    destruct Hwf as [Hn Hc Hgeo Hpool Hd Hcl]. split; simpl; try done. lia.
  - by apply well_formed_with_player.
  - done.
Qed.

Lemma room_transition_total (g : Game.t) :
  well_formed g → is_Some (Game.room_transition g).
Proof.
  intros Hwf. destruct (well_formed_room_at g Hwf) as [room Hroom].
  destruct (cursor_arith g Hwf) as (Hof & Hlen & Hinc).
  unfold Game.room_transition. rewrite Hroom. cbn [mbind option_bind].
  rewrite Hof, Hlen, Hinc.
  destruct (_ && _); [|by destruct (_ && _)].
  destruct (Z.ltb_spec (Game.currentRoom g) 4) as [Hlt|]; [|done].
  destruct (well_formed_room_at
              (Game.with_currentRoom (Game.currentRoom g + 1) g)) as [next ->];
    [|done].
  destruct Hwf as [Hn Hc Hgeo Hpool Hd Hcl]. split; simpl; try done. lia.
Qed.

Lemma win_lose_well_formed (g g' : Game.t) :
  well_formed g → Game.win_lose g = Some g' → well_formed g'.
Proof.
  intros Hwf [-> _]%win_lose_spec. by apply well_formed_with_isGameOver.
Qed.

(** The three parts a tick is made of. *)
Lemma UpdateGame_parts inp deltaTime (g g' : Game.t) :
  Game.UpdateGame inp deltaTime g = Some g' →
  ∃ gm gt, Game.simulate inp deltaTime g = Some gm
           ∧ Game.room_transition gm = Some gt
           ∧ Game.win_lose gt = Some g'.
Proof.
  unfold Game.UpdateGame.
  destruct (Game.simulate inp deltaTime g) as [gm|]; [|done].
  cbn [mbind option_bind].
  destruct (Game.room_transition gm) as [gt|] eqn:Ht; [|done].
  cbn [mbind option_bind]. intros Hw. by exists gm, gt.
Qed.

Lemma UpdateGame_well_formed inp deltaTime (g g' : Game.t) :
  well_formed g → Game.UpdateGame inp deltaTime g = Some g' → well_formed g'.
Proof.
  intros Hwf (gm & gt & Hsim & Ht & Hw)%UpdateGame_parts.
  eapply win_lose_well_formed; [|done].
  eapply room_transition_well_formed; [|done].
  by eapply simulate_well_formed.
Qed.

(** On a well-formed state a tick runs to its end: no vector is read
    outside its bounds. *)
Lemma UpdateGame_total inp deltaTime (g : Game.t) :
  well_formed g → is_Some (Game.UpdateGame inp deltaTime g).
Proof.
  intros Hwf. unfold Game.UpdateGame.
  destruct (simulate_total inp deltaTime g (well_formed_room_at g Hwf))
    as [gm Hsim].
  rewrite Hsim. cbn [mbind option_bind].
  pose proof (simulate_well_formed _ _ _ _ Hwf Hsim) as Hwfm.
  destruct (room_transition_total gm Hwfm) as [gt Ht].
  rewrite Ht. cbn [mbind option_bind].
  apply win_lose_total, well_formed_room_at.
  by eapply room_transition_well_formed.
Qed.

Lemma Update_well_formed inp (g g' : Game.t) :
  well_formed g → Game.Update inp g = Some g' → well_formed g'.
Proof.
  intros Hwf. unfold Game.Update.
  destruct (Game.isMainMenu g); [|destruct (Game.isGameOver g)].
  - intros [= <-]. destruct (enterPressed inp); [|done].
    by apply well_formed_with_isMainMenu.
  - intros [= <-]. destruct (enterPressed inp); [|done].
    destruct Hwf. by apply ResetGame_well_formed.
  - by apply UpdateGame_well_formed.
Qed.

Lemma Update_total inp (g : Game.t) :
  well_formed g → is_Some (Game.Update inp g).
Proof.
  intros Hwf. unfold Game.Update.
  destruct (Game.isMainMenu g); [done|].
  destruct (Game.isGameOver g); [done|].
  by apply UpdateGame_total.
Qed.

Lemma reachable_well_formed (g : Game.t) : reachable g → well_formed g.
Proof.
  induction 1 as [seed|inp g g' _ IH Hstep].
  - apply new_well_formed.
  - by eapply Update_well_formed.
Qed.

Lemma Update_playing inp (g : Game.t) :
  playing g → Game.Update inp g = Game.UpdateGame inp (frameTime inp) g.
Proof. intros [Hm Ho]. unfold Game.Update. by rewrite Hm, Ho. Qed.
End GameFacts.

(** ** A tick seen from outside *)

Section TickFacts.
Context `{Platform}.

Lemma room_transition_frame (g g' : Game.t) :
  Game.room_transition g = Some g' →
  Game.rooms g' = Game.rooms g
  ∧ Game.projectiles g' = Game.projectiles g
  ∧ Game.isMainMenu g' = Game.isMainMenu g
  ∧ Game.isGameOver g' = Game.isGameOver g
  ∧ Player.active (Game.player g') = Player.active (Game.player g)
  ∧ Player.health (Game.player g') = Player.health (Game.player g).
Proof.
  intros (room & _ & [(_ & _ & _ & next & _ & ->)|[(_ & _ & ->)|[-> _]]])
           %room_transition_spec; by split_and!.
Qed.

Lemma win_lose_frame (g g' : Game.t) :
  Game.win_lose g = Some g' →
  Game.rooms g' = Game.rooms g
  ∧ Game.projectiles g' = Game.projectiles g
  ∧ Game.isMainMenu g' = Game.isMainMenu g
  ∧ Game.currentRoom g' = Game.currentRoom g
  ∧ Game.player g' = Game.player g.
Proof. intros [-> _]%win_lose_spec. by split_and!. Qed.

(** Over a tick the player is at most damaged. *)
Lemma UpdateGame_player inp deltaTime (g g' : Game.t) :
  well_formed g → Game.UpdateGame inp deltaTime g = Some g' →
  damaged (Player.base (Game.player g)) (Player.base (Game.player g')).
Proof.
  intros Hwf (gm & gt & Hsim & Ht & Hw)%UpdateGame_parts.
  apply simulate_spec in Hsim
    as (room & room' & _ & _ & _ & _ & _ & _ & _ & _ & _ & _ & Hp & _);
    [|by destruct Hwf].
  apply room_transition_frame in Ht as (_ & _ & _ & _ & Ha & Hh).
  apply win_lose_frame in Hw as (_ & _ & _ & _ & ->).
  eapply damaged_trans; [done|]. by apply damaged_same.
Qed.

(** Over a tick every room keeps its place, its enemies are at most
    damaged, and a room that was cleared is still cleared. *)
Lemma UpdateGame_rooms inp deltaTime (g g' : Game.t) i r :
  well_formed g → Game.UpdateGame inp deltaTime g = Some g' →
  Game.rooms g !! i = Some r →
  ∃ r', Game.rooms g' !! i = Some r'
        ∧ Forall2 enemy_damaged (Room.enemies r) (Room.enemies r')
        ∧ (Room.cleared r = true → Room.cleared r' = true).
Proof.
  intros Hwf (gm & gt & Hsim & Ht & Hw)%UpdateGame_parts Hi.
  apply simulate_spec in Hsim
    as (room & room' & Hroom & _ & Hrs & _ & _ & _ & _ & _ & Hcl & He & _);
    [|by destruct Hwf].
  apply room_transition_frame in Ht as (Hrt & _).
  apply win_lose_frame in Hw as (Hrw & _).
  rewrite Hrw, Hrt, Hrs.
  apply room_at_Some in Hroom as (_ & Hroom & _).
  destruct (decide (i = Z.to_nat (Game.currentRoom g))) as [->|Hne].
  - assert (r = room) as -> by congruence.
    exists room'. split_and!; [|done|].
    + apply list_lookup_insert_eq. by apply lookup_lt_Some in Hroom.
    + intros Hc. rewrite Hcl.
      eapply (no_active_enemy_mono enemy_damaged); [|done|].
      * by intros e e' (Ha & _).
      * eapply (wf_cleared g Hwf); [|done]. by eapply list_elem_of_lookup_2.
  - exists r. rewrite list_lookup_insert_ne; [|done].
    split_and!; [done|apply Forall2_enemy_damaged_refl|done].
Qed.
End TickFacts.

Section Flags.
Context `{Platform}.

(** The first part of a tick leaves the mode flags and the cursor. *)
Lemma simulate_flags inp deltaTime (g g' : Game.t) :
  Game.simulate inp deltaTime g = Some g' →
  Game.isMainMenu g' = Game.isMainMenu g
  ∧ Game.isGameOver g' = Game.isGameOver g
  ∧ Game.currentRoom g' = Game.currentRoom g.
Proof.
  unfold Game.simulate.
  set (g1 := Game.with_player _ g).
  destruct (Game.room_at g1) as [room|]; [|done].
  cbn [mbind option_bind].
  set (g2 := Game.with_player _ g1).
  set (g3 := if keySpace inp && _ then _ else _).
  assert (Game.isMainMenu g3 = Game.isMainMenu g
          ∧ Game.isGameOver g3 = Game.isGameOver g
          ∧ Game.currentRoom g3 = Game.currentRoom g) as (Hm & Ho & Hc).
  { subst g3 g2 g1. by destruct (keySpace inp && _). }
  pose proof (enemies_shoot_spec (Room.enemies room) g3) as (_ & Hs & _).
  destruct (Game.enemies_shoot (Room.enemies room) g3) as [es4 g4]. simpl in Hs.
  unfold Game.UpdateProjectiles.
  destruct (Game.room_at (Game.set_room _ g4)) as [room5|]; [|done].
  cbn [mbind option_bind].
  destruct (Game.update_projectiles _ _ _ _ _) as [[ps es] pl].
  cbn [mbind option_bind].
  destruct (Game.room_at _) as [room6|]; [|done].
  cbn [mbind option_bind].
  destruct (Room.Update _ _ _ _ _) as [room7 rng7].
  intros [= <-]. simpl. by rewrite Hs.
Qed.
End Flags.

Section SessionFacts.
Context `{Platform}.

(** Over the ticks of a session the run stays a run, the player and the
    enemies are at most damaged, and cleared rooms stay cleared. *)
Lemma session_damaged (g g' : Game.t) :
  reachable g → session g g' →
  reachable g'
  ∧ damaged (Player.base (Game.player g)) (Player.base (Game.player g'))
  ∧ ∀ i r, Game.rooms g !! i = Some r →
      ∃ r', Game.rooms g' !! i = Some r'
            ∧ Forall2 enemy_damaged (Room.enemies r) (Room.enemies r')
            ∧ (Room.cleared r = true → Room.cleared r' = true).
Proof.
  intros Hreach. induction 1 as [g|inp g g' g'' _ IH Hplay Hstep].
  - split_and!; [done|apply damaged_refl|]. intros i r Hr. exists r.
    split_and!; [done|apply Forall2_enemy_damaged_refl|done].
  - destruct (IH Hreach) as (Hreach' & Hpl & Hrooms).
    pose proof (reachable_well_formed _ Hreach') as Hwf.
    split_and!.
    + by eapply reachable_Update.
    + rewrite (Update_playing _ _ Hplay) in Hstep.
      eapply damaged_trans; [done|]. by eapply UpdateGame_player.
    + intros i r Hr. destruct (Hrooms i r Hr) as (r' & Hr' & Hes & Hcl).
      rewrite (Update_playing _ _ Hplay) in Hstep.
      destruct (UpdateGame_rooms _ _ _ _ _ _ Hwf Hstep Hr')
        as (r'' & Hr'' & Hes' & Hcl').
      exists r''. split_and!; [done| |by auto].
      by eapply Forall2_enemy_damaged_trans.
Qed.
End SessionFacts.

(** * The properties of the design document *)

(** ** Entity: damage and collision *)

(** C5, as the code has it. [TakeDamage(amount)], for an [int] subtraction
    that does not overflow: the health afterwards is never negative; with
    [amount ≥ health] it is 0 and the entity is inactive; with
    [amount < health] it is [health - amount] and [active] is left as it
    was (so still [true] for an entity that was active: the call never
    activates). Nothing else deactivates a damage-taking entity: over any
    number of Playing ticks of a run, a player or an enemy that went from
    active to inactive is at health 0. *)
Theorem C5_TakeDamage_contract `{Platform} :
  (∀ (e : Entity.t) (amount : Z),
     I32.in_range (Entity.health e - amount) →
     0 ≤ Entity.health (Entity.TakeDamage amount e)
     ∧ (Entity.health e ≤ amount →
        Entity.health (Entity.TakeDamage amount e) = 0
        ∧ Entity.active (Entity.TakeDamage amount e) = false)
     ∧ (amount < Entity.health e →
        Entity.health (Entity.TakeDamage amount e) = Entity.health e - amount
        ∧ Entity.active (Entity.TakeDamage amount e) = Entity.active e))
  ∧ (∀ g g' : Game.t,
       reachable g → session g g' →
       (Player.active (Game.player g) = true →
        Player.active (Game.player g') = false →
        Player.health (Game.player g') = 0)
       ∧ (∀ i r r' j e e',
            Game.rooms g !! i = Some r → Game.rooms g' !! i = Some r' →
            Room.enemies r !! j = Some e → Room.enemies r' !! j = Some e' →
            Enemy.active e = true → Enemy.active e' = false →
            Enemy.health e' = 0)).
Proof.
  split.
  - intros e amount Hr. split_and!.
    + apply TakeDamage_health_nonneg.
    + intros Hle. by rewrite TakeDamage_lethal.
    + intros Hlt. by rewrite TakeDamage_not_lethal.
  - intros g g' Hreach Hs.
    destruct (session_damaged g g' Hreach Hs) as (_ & Hpl & Hrooms). split.
    + intros Ha Ha'. by apply Hpl.
    + intros i r r' j e e' Hr Hr' He He' Ha Ha'.
      destruct (Hrooms i r Hr) as (r'' & Hr'' & Hes & _).
      assert (r'' = r') as -> by congruence.
      destruct (Forall2_lookup_lr _ _ _ _ _ _ Hes He He') as (_ & _ & Hd).
      by apply Hd.
Qed.

(** The entity of the unit tests, [Entity(100, 200, 15, 50, RED)], takes
    20 and then 30, and a few ticks of the running game. *)
Lemma C5_TakeDamage_witness :
  let e := Entity.new (F.ofZ 100) (F.ofZ 200) (F.ofZ 15) 50 RED in
  I32.in_range (Entity.health e - 20)
  ∧ Entity.health (Entity.TakeDamage 20 e) = 30
  ∧ Entity.active (Entity.TakeDamage 20 e) = true
  ∧ Entity.health (Entity.TakeDamage 30 (Entity.TakeDamage 20 e)) = 0
  ∧ Entity.active (Entity.TakeDamage 30 (Entity.TakeDamage 20 e)) = false
  ∧ reachable in_play ∧ session in_play (run 3 idle_frame in_play).
Proof.
  intros e.
  assert (I32.in_range (Entity.health e - 20)) as Hr1 by (by vm_compute).
  assert (I32.in_range (Entity.health (Entity.TakeDamage 20 e) - 30)) as Hr2
    by (by vm_compute).
  assert (reachable in_play) as Hreach.
  { apply (reachable_Update enter_frame start); [apply reachable_new|].
    by vm_compute. }
  assert (session in_play (run 3 idle_frame in_play)) as Hs.
  { apply (session_tick idle_frame _ (run 2 idle_frame in_play));
      [|by vm_compute..].
    apply (session_tick idle_frame _ (run 1 idle_frame in_play));
      [|by vm_compute..].
    apply (session_tick idle_frame _ in_play); [|by vm_compute..].
    apply session_refl. }
  pose proof (@C5_TakeDamage_contract counter_platform) as [Hone Hrun].
  destruct (Hone e 20 Hr1) as (_ & _ & Hlive).
  destruct (Hone (Entity.TakeDamage 20 e) 30 Hr2) as (_ & Hdead & _).
  destruct (Hrun in_play (run 3 idle_frame in_play) Hreach Hs) as [_ _].
  destruct Hlive as [Hh Ha]; [by vm_compute|].
  destruct Hdead as [Hh' Ha']; [by vm_compute|].
  split_and!; [done|exact Hh|exact Ha|exact Hh'|exact Ha'|done|done].
Defined.

(** C5 as the design document words it fails on an entity that is
    inactive with health left, such as a pool slot never fired: after
    [TakeDamage(0)] it is still inactive. *)
Lemma C5_TakeDamage_counterexample :
  ¬ (∀ (e : Entity.t) (amount : Z),
       amount < Entity.health e →
       Entity.health (Entity.TakeDamage amount e) = Entity.health e - amount
       ∧ Entity.active (Entity.TakeDamage amount e) = true).
Proof.
  intros Hclaim.
  destruct (Hclaim (Projectile.base Projectile.new) 0) as [_ Hactive];
    [by vm_compute|].
  by vm_compute in Hactive.
Qed.

(** C8. [IsColliding] is symmetric, and it is the strict comparison of the
    Euclidean distance between the centres, [sqrt (dx * dx + dy * dy)] for
    the differences [dx] and [dy] of the coordinates, with the sum of the
    radii, all as the code computes them in binary32 arithmetic: it holds
    exactly when the distance compares as less, and a distance equal to
    the sum of the radii gives [false]. *)
Theorem C8_IsColliding_symmetric_strict (a b : Entity.t) :
  let dx := (Entity.x a - Entity.x b)%F in
  let dy := (Entity.y a - Entity.y b)%F in
  let dist := F.sqrt (dx * dx + dy * dy)%F in
  let reach := (Entity.radius a + Entity.radius b)%F in
  Entity.IsColliding a b = Entity.IsColliding b a
  ∧ Entity.IsColliding a b = (dist <? reach)%F
  ∧ (Entity.IsColliding a b = true ↔ SFcompare dist reach = Some Lt)
  ∧ (F.eqb dist reach = true → Entity.IsColliding a b = false).
Proof.
  intros dx dy dist reach.
  assert (Entity.IsColliding a b = (dist <? reach)%F) as Hdef by reflexivity.
  split_and!.
  - unfold Entity.IsColliding.
    by rewrite (distance_sym a b), (F_add_comm (Entity.radius a)).
  - exact Hdef.
  - rewrite Hdef. unfold F.ltb, SFltb.
    destruct (SFcompare dist reach) as [[]|]; split; congruence.
  - rewrite Hdef. unfold F.ltb, F.eqb, SFltb, SFeqb.
    by destruct (SFcompare dist reach) as [[]|].
Qed.

(** Two circles of radius 2 and 3 whose centres are 3 apart in x and 4 in
    y, so 5 apart: they touch and do not collide. *)
Lemma C8_IsColliding_witness :
  let a := Entity.new (F.ofZ 100) (F.ofZ 100) (F.ofZ 2) 50 RED in
  let b := Entity.new (F.ofZ 103) (F.ofZ 104) (F.ofZ 3) 50 BLUE in
  F.eqb (F.sqrt ((F.ofZ 100 - F.ofZ 103) * (F.ofZ 100 - F.ofZ 103)
                 + (F.ofZ 100 - F.ofZ 104) * (F.ofZ 100 - F.ofZ 104)))%F
        (F.ofZ 2 + F.ofZ 3)%F = true
  ∧ Entity.IsColliding a b = false.
Proof.
  intros a b.
  assert (F.eqb (F.sqrt ((F.ofZ 100 - F.ofZ 103) * (F.ofZ 100 - F.ofZ 103)
                         + (F.ofZ 100 - F.ofZ 104) * (F.ofZ 100 - F.ofZ 104)))%F
                (F.ofZ 2 + F.ofZ 3)%F = true)
    as Heq by (vm_compute; reflexivity).
  split; [exact Heq|].
  exact (proj2 (proj2 (proj2 (C8_IsColliding_symmetric_strict a b))) Heq).
Defined.

(** The collisions the unit tests check: centres 20 apart collide, centres
    100 apart do not; and both coordinates count: centres 9 apart in x and
    12 in y, so 15 apart, collide at radii 8 and 8 and not at 7 and 8. *)
Example IsColliding_tests :
  let entity1 := Entity.new (F.ofZ 100) (F.ofZ 100) (F.ofZ 15) 50 RED in
  let entity2 := Entity.new (F.ofZ 120) (F.ofZ 100) (F.ofZ 15) 50 BLUE in
  let c r := Entity.new (F.ofZ 0) (F.ofZ 0) (F.ofZ r) 50 RED in
  let d := Entity.new (F.ofZ 9) (F.ofZ 12) (F.ofZ 8) 50 BLUE in
  Entity.IsColliding entity1 entity2 = true
  ∧ Entity.IsColliding entity1 (Entity.with_x (F.ofZ 200) entity2) = false
  ∧ Entity.IsColliding (c 8) d = true
  ∧ Entity.IsColliding (c 7) d = false.
Proof. by vm_compute. Qed.

(** ** Projectile pool *)

(** C2. A fire request with direction Right from the player, made at
    [(x, y)] on a pool whose first free slot is number [i], leaves in that
    slot an active projectile at [(x + 20, y)] ([+] of binary32) with
    velocity [(400, 0)], [isEnemyProjectile] false and damage 10; with
    direction Down from an enemy, velocity [(0, 400)], [isEnemyProjectile]
    true and damage 5; and a projectile as constructed is inactive. *)
Theorem C2_fire_projectile `{Platform} (g : Game.t) (x y : float) i p :
  first_inactive (Game.projectiles g) i p →
  (∃ q, Game.projectiles (Game.FireProjectile x y RIGHT false g) !! i = Some q
        ∧ Projectile.active q = true
        ∧ Entity.x (Projectile.base q) = (x + F.ofZ 20)%F
        ∧ Entity.y (Projectile.base q) = y
        ∧ Projectile.speedX q = F.ofZ 400
        ∧ Projectile.speedY q = F.ofZ 0
        ∧ Projectile.isEnemyProjectile q = false
        ∧ Projectile.damage q = 10)
  ∧ (∃ q, Game.projectiles (Game.FireProjectile x y DOWN true g) !! i = Some q
          ∧ Projectile.active q = true
          ∧ Projectile.speedX q = F.ofZ 0
          ∧ Projectile.speedY q = F.ofZ 400
          ∧ Projectile.isEnemyProjectile q = true
          ∧ Projectile.damage q = 5)
  ∧ Projectile.active Projectile.new = false.
Proof.
  intros Hfi. pose proof (first_inactive_lt _ _ _ Hfi) as Hlt.
  split_and!; [| |done]; eexists; (split;
    [unfold Game.FireProjectile; simpl;
     rewrite (fire_scan_first_inactive _ _ _ _ _ _ _ Hfi);
     by apply list_lookup_insert_eq|]); by split_and!.
Qed.

Lemma start_first_inactive :
  first_inactive (Game.projectiles start) 0 Projectile.new.
Proof. split_and!; [by vm_compute|done|]. intros j q Hj. lia. Qed.

(** The first shot of a game, from the centre of the first room. *)
Lemma C2_fire_projectile_witness :
  first_inactive (Game.projectiles start) 0 Projectile.new
  ∧ ∃ q, Game.projectiles
           (Game.FireProjectile (F.ofZ 400) (F.ofZ 300) RIGHT false start) !! 0%nat
         = Some q
         ∧ Entity.x (Projectile.base q) = F.ofZ 420
         ∧ Projectile.damage q = 10.
Proof.
  pose proof start_first_inactive as Hfi. split; [done|].
  destruct (C2_fire_projectile start (F.ofZ 400) (F.ofZ 300) 0%nat Projectile.new Hfi)
    as ((q & Hq & _ & Hx & _ & _ & _ & _ & Hd) & _).
  exists q. split_and!; [done| |done]. rewrite Hx. by vm_compute.
Defined.

(** C4. A fire request on a pool with an inactive slot fires the first
    inactive slot in index order (which is active afterwards) and leaves
    every other slot and the rest of the game as they were; on a pool whose
    slots are all active it leaves the whole game as it was. *)
Theorem C4_fire_first_fit_or_drop `{Platform} (g : Game.t) (x y : float)
    (dir : Direction) (isEnemy : bool) :
  ((∃ j q, Game.projectiles g !! j = Some q ∧ Projectile.active q = false) →
   ∃ i p fired,
     first_inactive (Game.projectiles g) i p
     ∧ Projectile.active fired = true
     ∧ Game.FireProjectile x y dir isEnemy g
       = Game.with_projectiles (<[i := fired]> (Game.projectiles g)) g
     ∧ ∀ j, j ≠ i →
         Game.projectiles (Game.FireProjectile x y dir isEnemy g) !! j
         = Game.projectiles g !! j)
  ∧ ((∀ q, q ∈ Game.projectiles g → Projectile.active q = true) →
     Game.FireProjectile x y dir isEnemy g = g).
Proof.
  split.
  - intros (i & p & Hfi)%first_inactive_exists.
    exists i, p, (Projectile.Fire (Game.spawn x y dir).1 (Game.spawn x y dir).2
                    dir isEnemy p).
    split_and!; [done|apply Fire_active| |].
    + unfold Game.FireProjectile. by rewrite (fire_scan_first_inactive _ _ _ _ _ _ _ Hfi).
    + intros j Hne. unfold Game.FireProjectile. simpl.
      rewrite (fire_scan_first_inactive _ _ _ _ _ _ _ Hfi).
      by apply list_lookup_insert_ne.
  - intros Hall. unfold Game.FireProjectile.
    rewrite (fire_scan_all_active _ _ _ _ _ Hall). apply with_projectiles_same.
Qed.

(** A shot on the fresh pool takes slot 0; a shot on a full pool is
    dropped. *)
Lemma C4_fire_first_fit_or_drop_witness :
  (∃ j q, Game.projectiles start !! j = Some q ∧ Projectile.active q = false)
  ∧ (∀ q, q ∈ Game.projectiles full_pool → Projectile.active q = true)
  ∧ (∃ fired,
       Game.FireProjectile (F.ofZ 400) (F.ofZ 300) UP false start
       = Game.with_projectiles (<[0%nat := fired]> (Game.projectiles start)) start)
  ∧ Game.FireProjectile (F.ofZ 400) (F.ofZ 300) UP false full_pool = full_pool.
Proof.
  assert (∃ j q, Game.projectiles start !! j = Some q ∧ Projectile.active q = false)
    as Hfree.
  { exists 0%nat, Projectile.new. split; [by vm_compute|done]. }
  assert (∀ q, q ∈ Game.projectiles full_pool → Projectile.active q = true) as Hfull.
  { intros q (p & -> & _)%list_elem_of_fmap. apply Fire_active. }
  destruct (C4_fire_first_fit_or_drop start (F.ofZ 400) (F.ofZ 300) UP false)
    as [Hfit _].
  destruct (C4_fire_first_fit_or_drop full_pool (F.ofZ 400) (F.ofZ 300) UP false)
    as [_ Hdrop].
  split_and!; [done..| |by apply Hdrop].
  destruct (Hfit Hfree) as (i & p & fired & Hfi & _ & Heq & _).
  assert (i = 0%nat) as ->.
  { destruct Hfi as (_ & _ & Hbefore). destruct i as [|i]; [reflexivity|].
    assert (Game.projectiles start !! 0%nat = Some Projectile.new) as Hzero
      by (vm_compute; reflexivity).
    specialize (Hbefore 0%nat Projectile.new (Nat.lt_0_succ i) Hzero).
    vm_compute in Hbefore. discriminate Hbefore. }
  exists fired. exact Heq.
Defined.

(** ** Room *)

Lemma Forall2_liveness_active es es' :
  Forall2 (λ e e', Enemy.active e' = Enemy.active e
                   ∧ Enemy.health e' = Enemy.health e) es es' →
  Enemy.active <$> es' = Enemy.active <$> es.
Proof.
  induction 1 as [|e e' es es' [Ha _] _ IH]; [done|].
  by rewrite !fmap_cons, Ha, IH.
Qed.

(** C7. After one [Update] of a room its [cleared] flag says that no enemy
    of its roster is active: a room whose enemies were all inactive, one
    without enemies among them, is cleared, and a room that holds an
    active enemy after the update is not. The update itself leaves the
    activity of every enemy as it was. *)
Theorem C7_room_update_cleared `{Platform} (inp : Input) (deltaTime : float)
    (player : Player.t) (room : Room.t) (rng : RNG) :
  let room' := (Room.Update inp deltaTime player room rng).1 in
  (Room.cleared room' = true
   ↔ ∀ e, e ∈ Room.enemies room' → Enemy.active e = false)
  ∧ Enemy.active <$> Room.enemies room' = Enemy.active <$> Room.enemies room
  ∧ ((∀ e, e ∈ Room.enemies room → Enemy.active e = false) →
     Room.cleared room' = true)
  ∧ (Room.enemies room = [] → Room.cleared room' = true)
  ∧ ((∃ e, e ∈ Room.enemies room' ∧ Enemy.active e = true) →
     Room.cleared room' = false).
Proof.
  intros room'.
  destruct (Room_Update_spec inp deltaTime player room rng)
    as (_ & _ & _ & _ & _ & Hcl & Hlive).
  fold room' in Hcl, Hlive.
  assert (Enemy.active <$> Room.enemies room' = Enemy.active <$> Room.enemies room)
    as Hactive.
  { by apply Forall2_liveness_active. }
  assert ((∀ e, e ∈ Room.enemies room → Enemy.active e = false) →
          Room.cleared room' = true) as Hall.
  { intros Hin. rewrite Hcl.
    eapply (no_active_enemy_mono _ (Room.enemies room)); [|exact Hlive|].
    - intros e e' [Ha _]. by rewrite Ha.
    - by apply no_active_enemy_true. }
  split_and!.
  - rewrite Hcl. apply no_active_enemy_true.
  - done.
  - done.
  - intros Hnil. apply Hall. rewrite Hnil. intros e He. by apply elem_of_nil in He.
  - rewrite Hcl. apply no_active_enemy_false.
Qed.

(** The room of the unit test: two enemies added and deactivated, then one
    update with the player in the middle of the room. *)
Lemma C7_room_update_cleared_witness :
  (∀ e, e ∈ Room.enemies test_room → Enemy.active e = false)
  ∧ Room.cleared
      (Room.Update idle_frame (F.literal 1 10)
         (Player.new (F.ofZ 400) (F.ofZ 300)) test_room
         (0 : @RNG counter_platform)).1 = true.
Proof.
  assert (∀ e, e ∈ Room.enemies test_room → Enemy.active e = false) as Hall.
  { apply no_active_enemy_true. by vm_compute. }
  split; [done|].
  destruct (@C7_room_update_cleared counter_platform idle_frame (F.literal 1 10)
              (Player.new (F.ofZ 400) (F.ofZ 300)) test_room 0)
    as (_ & _ & Hclears & _).
  by apply Hclears.
Defined.

(** ** Game state machine *)

(** C1. A Playing tick after which the player's health is 0 (or less) ends
    in the mode GameOver, and the end screen is the one of defeat; this
    holds whatever else the tick did, the clearing of the last room
    included. *)
Theorem C1_defeat_takes_priority `{Platform} (inp : Input) (g g' : Game.t) :
  playing g → Game.Update inp g = Some g' →
  Player.health (Game.player g') ≤ 0 →
  Game.isMainMenu g' = false ∧ Game.isGameOver g' = true
  ∧ Game.Draw g' = GameOverScreen "GAME OVER - YOU DIED!".
Proof.
  intros Hplay Hstep Hdead. pose proof Hplay as [Hmenu _].
  rewrite (Update_playing _ _ Hplay) in Hstep.
  apply UpdateGame_parts in Hstep as (gm & gt & Hsim & Ht & Hw).
  apply simulate_flags in Hsim as (Hm1 & _ & _).
  apply room_transition_frame in Ht as (_ & _ & Hm2 & _).
  pose proof (win_lose_frame _ _ Hw) as (_ & _ & Hm3 & _ & Hpl).
  apply win_lose_spec in Hw as [_ Hover].
  assert (Game.isMainMenu g' = false) as Hm by congruence.
  assert (Game.isGameOver g' = true) as Ho by (apply Hover; by rewrite <- Hpl).
  split_and!; [done..|].
  unfold Game.Draw, Game.DrawGameOver. rewrite Hm, Ho.
  by destruct (Z.leb_spec (Player.health (Game.player g')) 0); [|lia].
Qed.

(** In [last_stand] the tick that kills the boss, and so clears the last
    room, also kills the player: the game is over, lost. *)
Lemma C1_defeat_takes_priority_witness :
  let g' := run 1 idle_frame last_stand in
  playing last_stand
  ∧ Game.Update idle_frame last_stand = Some g'
  ∧ Player.health (Game.player g') ≤ 0
  ∧ Game.currentRoom g' = 4
  ∧ Room.cleared <$> Game.room_at g' = Some true
  ∧ Game.Draw g' = GameOverScreen "GAME OVER - YOU DIED!".
Proof.
  intros g'.
  assert (playing last_stand) as Hplay by (by split).
  assert (Game.Update idle_frame last_stand = Some g') as Hstep by (by vm_compute).
  assert (Player.health (Game.player g') ≤ 0) as Hdead by (by vm_compute).
  destruct (C1_defeat_takes_priority idle_frame last_stand g' Hplay Hstep Hdead)
    as (_ & _ & Hdraw).
  split_and!; [done..| | |done]; by vm_compute.
Defined.

(** In each of the five rooms the place where a player enters, 50 units
    from the left edge, is not past the exit boundary. *)
Lemma entry_before_exit (i : nat) (room : Room.t) :
  (i < 5)%nat →
  Room.x room = (F.ofZ (Z.of_nat i) * F.ofZ 800)%F → Room.width room = F.ofZ 800 →
  (Room.x room + F.ofZ 50 >? Game.exit_boundary room)%F = false.
Proof.
  intros Hi Hx Hw. unfold Game.exit_boundary. rewrite Hx, Hw.
  do 5 (destruct i as [|i]; [by vm_compute|]). lia.
Qed.

(** C3. In every state of a run the cursor is an index of the room
    sequence. A Playing tick runs to its end and leaves the cursor where
    it was or one further; it is one further only if, once the room was
    updated, the room was cleared, the player's x was greater than the
    right edge less 50, and the room was not the last one; from the last
    room the cursor does not move. *)
Theorem C3_cursor_valid_and_forward `{Platform} (g : Game.t) :
  reachable g →
  0 ≤ Game.currentRoom g < Z.of_nat (length (Game.rooms g))
  ∧ ∀ inp, playing g →
      ∃ gm g',
        Game.simulate inp (frameTime inp) g = Some gm
        ∧ Game.Update inp g = Some g'
        ∧ (Game.currentRoom g' = Game.currentRoom g
           ∨ Game.currentRoom g' = Game.currentRoom g + 1)
        ∧ (Game.currentRoom g' = Game.currentRoom g + 1 →
           ∃ room, Game.room_at gm = Some room
                   ∧ Room.cleared room = true
                   ∧ (Player.x (Game.player gm) >? Game.exit_boundary room)%F = true
                   ∧ Game.currentRoom g + 1 < Z.of_nat (length (Game.rooms g)))
        ∧ (Game.currentRoom g = Z.of_nat (length (Game.rooms g)) - 1 →
           Game.currentRoom g' = Game.currentRoom g).
Proof.
  intros Hwf%reachable_well_formed. pose proof Hwf as [Hn Hc _ _ _ _].
  split; [lia|]. intros inp Hplay.
  destruct (UpdateGame_total inp (frameTime inp) g Hwf) as [g' Hstep].
  pose proof (UpdateGame_parts _ _ _ _ Hstep) as (gm & gt & Hsim & Ht & Hw).
  exists gm, g'. rewrite (Update_playing _ _ Hplay).
  pose proof (simulate_well_formed _ _ _ _ Hwf Hsim) as Hwfm.
  pose proof (simulate_flags _ _ _ _ Hsim) as (_ & _ & Hcm).
  destruct (cursor_arith gm Hwfm) as (Hof & Hlen & Hinc).
  apply win_lose_frame in Hw as (_ & _ & _ & Hcw & _).
  apply room_transition_spec in Ht
    as (room & Hroom & [(Hcl & Hx & Hlt & next & _ & ->)|[(_ & _ & ->)|[-> _]]]);
    simpl in Hcw.
  - rewrite Hof, Hlen in Hlt. apply Z.ltb_lt in Hlt.
    rewrite Hinc, Hcm in Hcw. rewrite Hcm in Hlt.
    split_and!; [done..|by right| |lia].
    intros _. exists room. split_and!; [done..|lia].
  - rewrite Hcm in Hcw. split_and!; [done..|by left|lia|done].
  - rewrite Hcm in Hcw. split_and!; [done..|by left|lia|done].
Qed.

Lemma in_play_reachable : reachable in_play.
Proof.
  apply (reachable_Update enter_frame start); [apply reachable_new|].
  vm_compute. reflexivity.
Qed.

Lemma run_reachable n inp g : reachable g → reachable (run n inp g).
Proof.
  revert g. induction n as [|n IH]; intros g Hg; simpl; [exact Hg|].
  destruct (Game.Update inp g) as [g'|] eqn:Hstep; [|exact Hg].
  apply IH. exact (reachable_Update inp g g' Hg Hstep).
Qed.

Lemma session_tick_first `{Platform} inp (g g1 g2 : Game.t) :
  playing g → Game.Update inp g = Some g1 → session g1 g2 → session g g2.
Proof.
  intros Hplay Hstep. induction 1 as [g1|inp' g1 g2 g3 _ IH Hplay' Hstep'].
  - exact (session_tick inp g g g1 (session_refl g) Hplay Hstep).
  - exact (session_tick inp' g g2 g3 (IH Hstep) Hplay' Hstep').
Qed.

Lemma plays_session n inp g : plays n inp g = true → session g (run n inp g).
Proof.
  revert g. induction n as [|n IH]; intros g; simpl; [intros _; apply session_refl|].
  destruct (Game.isMainMenu g) eqn:Hm; [done|].
  destruct (Game.isGameOver g) eqn:Ho; [done|].
  destruct (Game.Update inp g) as [g'|] eqn:Hstep; [|done]. simpl.
  intros Hn. apply (session_tick_first inp g g'); [by split|done|by apply IH].
Qed.

(** The game just started: the cursor is 0 and a first frame leaves it
    there. *)
Lemma C3_cursor_valid_and_forward_witness :
  reachable in_play ∧ playing in_play
  ∧ 0 ≤ Game.currentRoom in_play < Z.of_nat (length (Game.rooms in_play))
  ∧ ∃ g', Game.Update right_frame in_play = Some g'
          ∧ (Game.currentRoom g' = Game.currentRoom in_play
             ∨ Game.currentRoom g' = Game.currentRoom in_play + 1).
Proof.
  pose proof in_play_reachable as Hreach.
  assert (playing in_play) as Hplay by (split; vm_compute; reflexivity).
  destruct (C3_cursor_valid_and_forward in_play Hreach) as [Hvalid Htick].
  destruct (Htick right_frame Hplay) as (gm & g' & _ & Hstep & Hmove & _).
  split; [exact Hreach|]. split; [exact Hplay|]. split; [exact Hvalid|].
  exists g'. split; [exact Hstep|exact Hmove].
Defined.

(** C6. A Playing tick of a run runs to its end, and if, once the room
    was updated, the room is not cleared and the player's x is greater
    than the right edge less 50, the tick ends with the player's x equal
    to that boundary, [room.x + room.width - 50], in the same room. At the
    end of a tick the player is never past the exit boundary of a current
    room that is not cleared. *)
Theorem C6_uncleared_exit_blocks `{Platform} (inp : Input) (g : Game.t) :
  reachable g → playing g →
  ∃ gm g',
    Game.simulate inp (frameTime inp) g = Some gm
    ∧ Game.Update inp g = Some g'
    ∧ (∀ room, Game.room_at gm = Some room → Room.cleared room = false →
         (Player.x (Game.player gm) >? Game.exit_boundary room)%F = true →
         Player.x (Game.player g')
         = (Room.x room + Room.width room - F.ofZ 50)%F
         ∧ Game.currentRoom g' = Game.currentRoom g
         ∧ Game.room_at g' = Some room)
    ∧ (∀ room', Game.room_at g' = Some room' → Room.cleared room' = false →
         (Player.x (Game.player g') >? Game.exit_boundary room')%F = false).
Proof.
  intros Hwf%reachable_well_formed Hplay.
  destruct (UpdateGame_total inp (frameTime inp) g Hwf) as [g' Hstep].
  pose proof (UpdateGame_parts _ _ _ _ Hstep) as (gm & gt & Hsim & Ht & Hw).
  exists gm, g'. rewrite (Update_playing _ _ Hplay).
  pose proof (simulate_well_formed _ _ _ _ Hwf Hsim) as Hwfm.
  pose proof (simulate_flags _ _ _ _ Hsim) as (_ & _ & Hcm).
  destruct (cursor_arith gm Hwfm) as (Hof & Hlen & Hinc).
  apply win_lose_frame in Hw as (Hrw & _ & _ & Hcw & Hpw).
  assert (Game.room_at g' = Game.room_at gt) as Hroomw
    by (unfold Game.room_at; by rewrite Hrw, Hcw).
  rewrite Hpw, Hcw, Hroomw. clear Hrw Hcw Hpw Hroomw.
  split; [done|]. split; [done|].
  apply room_transition_spec in Ht
    as (room & Hroom & [(Hcl & Hx & Hlt & next & Hnext & ->)|[(Hcl & Hx & ->)|[-> Hor]]]).
  - split.
    + intros room0 Hroom0 Hcl0 _. congruence.
    + intros room' Hroom' Hcl'.
      change (Game.room_at (Game.with_currentRoom (I32.wrap (Game.currentRoom gm + 1)) gm)
              = Some room') in Hroom'.
      assert (room' = next) as -> by congruence.
      apply room_at_Some in Hnext as (_ & Hlook & _). simpl in Hlook.
      destruct (wf_geometry gm Hwfm _ _ Hlook) as [Hgx Hgw].
      apply (entry_before_exit _ next) in Hgx; [done| |done].
      apply lookup_lt_Some in Hlook. by rewrite (wf_rooms gm Hwfm) in Hlook.
  - split.
    + intros room0 Hroom0 _ _. assert (room0 = room) as -> by congruence.
      by split_and!.
    + intros room' Hroom' _.
      change (Game.room_at gm = Some room') in Hroom'.
      assert (room' = room) as -> by congruence. apply F_gtb_irrefl.
  - split.
    + intros room0 Hroom0 Hcl0 Hx0. assert (room0 = room) as -> by congruence.
      destruct Hor; congruence.
    + intros room' Hroom' Hcl'.
      assert (room' = room) as -> by congruence.
      destruct Hor; [congruence|done].
Qed.

(** Two seconds of the key D from the start: the enemies of the first room
    are alive and the player is held on its exit boundary, x = 750. *)
Lemma C6_uncleared_exit_blocks_witness :
  let g := run 120 right_frame in_play in
  reachable g ∧ playing g
  ∧ ∃ g', Game.Update right_frame g = Some g'
          ∧ Room.cleared <$> Game.room_at g' = Some false
          ∧ Player.x (Game.player g') = F.ofZ 750.
Proof.
  intros g.
  assert (reachable g) as Hreach by apply run_reachable, in_play_reachable.
  assert (playing g) as Hplay by (split; vm_compute; reflexivity).
  destruct (C6_uncleared_exit_blocks right_frame g Hreach Hplay)
    as (gm & g' & Hsim & Hstep & Hblock & _).
  split; [exact Hreach|]. split; [exact Hplay|].
  exists g'. split; [exact Hstep|].
  assert (gm = default g (Game.simulate right_frame (frameTime right_frame) g))
    as -> by (rewrite Hsim; reflexivity).
  destruct (Game.room_at
              (default g (Game.simulate right_frame (frameTime right_frame) g)))
    as [room|] eqn:Hroom; [|vm_compute in Hroom; discriminate Hroom].
  destruct (Hblock room eq_refl) as (Hx & _ & Hroom').
  - vm_compute in Hroom. injection Hroom as <-. vm_compute. reflexivity.
  - vm_compute in Hroom. injection Hroom as <-. vm_compute. reflexivity.
  - rewrite Hroom', Hx. vm_compute in Hroom. injection Hroom as <-.
    split; vm_compute; reflexivity.
Defined.

(** C9. When "Check for room transition" moves the cursor, the state it
    leaves is the one it found with the cursor one further and the
    player's x at the new room's x plus 50: the player's y, health, shoot
    cooldown and facing, every pool slot and every room are as before. *)
Theorem C9_transition_touches_cursor_and_x `{Platform} (g g' : Game.t) :
  Game.room_transition g = Some g' →
  Game.currentRoom g' ≠ Game.currentRoom g →
  ∃ next,
    Game.room_at g' = Some next
    ∧ Game.currentRoom g' = I32.wrap (Game.currentRoom g + 1)
    ∧ g' = Game.with_player
             (Player.on_base (Entity.with_x (Room.x next + F.ofZ 50)%F)
                (Game.player g))
             (Game.with_currentRoom (Game.currentRoom g') g)
    ∧ Player.x (Game.player g') = (Room.x next + F.ofZ 50)%F
    ∧ Player.y (Game.player g') = Player.y (Game.player g)
    ∧ Player.health (Game.player g') = Player.health (Game.player g)
    ∧ Player.shootCooldown (Game.player g') = Player.shootCooldown (Game.player g)
    ∧ Player.facing (Game.player g') = Player.facing (Game.player g)
    ∧ Game.projectiles g' = Game.projectiles g
    ∧ Game.rooms g' = Game.rooms g.
Proof.
  intros (room & Hroom & [(_ & _ & _ & next & Hnext & ->)|[(_ & _ & ->)|[-> _]]])
           %room_transition_spec Hmoved; [|done..].
  exists next. by split_and!.
Qed.

(** From [open_exit] the transition takes the player to the second room,
    at x = 850, and changes nothing else. *)
Lemma C9_transition_touches_cursor_and_x_witness :
  let g' := default open_exit (Game.room_transition open_exit) in
  Game.room_transition open_exit = Some g'
  ∧ Game.currentRoom g' ≠ Game.currentRoom open_exit
  ∧ Game.currentRoom g' = 1
  ∧ Player.x (Game.player g') = F.ofZ 850
  ∧ Player.y (Game.player g') = Player.y (Game.player open_exit)
  ∧ Game.projectiles g' = Game.projectiles open_exit.
Proof.
  intros g'.
  assert (Game.room_transition open_exit = Some g') as Hstep
    by (vm_compute; reflexivity).
  assert (Game.currentRoom g' ≠ Game.currentRoom open_exit) as Hmoved
    by (vm_compute; discriminate).
  destruct (C9_transition_touches_cursor_and_x open_exit g' Hstep Hmoved)
    as (next & Hnext & Hc & _ & Hx & Hy & _ & _ & _ & Hps & _).
  split; [exact Hstep|]. split; [exact Hmoved|].
  split; [vm_compute; reflexivity|]. split; [vm_compute; reflexivity|].
  split; [exact Hy|exact Hps].
Defined.

(** C10. Over the Playing ticks of a session of a run, a room that is
    cleared stays cleared, and no enemy that is active at the end was
    inactive at the beginning: nothing makes an enemy active again. *)
Theorem C10_cleared_is_monotone `{Platform} (g g' : Game.t) :
  reachable g → session g g' →
  ∀ i room, Game.rooms g !! i = Some room →
    ∃ room', Game.rooms g' !! i = Some room'
             ∧ (Room.cleared room = true → Room.cleared room' = true)
             ∧ Forall2 (λ e e', Enemy.active e' = true → Enemy.active e = true)
                 (Room.enemies room) (Room.enemies room').
Proof.
  intros Hreach Hs i room Hroom.
  destruct (session_damaged g g' Hreach Hs) as (_ & _ & Hrooms).
  destruct (Hrooms i room Hroom) as (room' & Hroom' & Hes & Hcl).
  exists room'. split_and!; [done..|].
  eapply Forall2_impl; [done|]. by intros e e' (Ha & _).
Qed.

(** A game played on the counter platform: a second of W, then ten
    seconds of D and SPACE. The three enemies of the first room are shot
    and the player has moved on to the second room; the first room is
    cleared, and a hundred ticks later it still is. *)
Lemma C10_cleared_is_monotone_witness :
  let g := run 600 shoot_right_frame (run 60 up_frame in_play) in
  let g' := run 100 shoot_right_frame g in
  reachable g ∧ session g g'
  ∧ Game.currentRoom g = 1
  ∧ Room.cleared <$> Game.rooms g !! 0%nat = Some true
  ∧ Room.cleared <$> Game.rooms g' !! 0%nat = Some true.
Proof.
  intros g g'.
  assert (reachable g) as Hreach
    by apply run_reachable, run_reachable, in_play_reachable.
  assert (session g g') as Hs
    by (apply plays_session; vm_compute; reflexivity).
  assert (Room.cleared <$> Game.rooms g !! 0%nat = Some true) as Hcl
    by (vm_compute; reflexivity).
  split; [exact Hreach|]. split; [exact Hs|].
  split; [vm_compute; reflexivity|]. split; [exact Hcl|].
  destruct (Game.rooms g !! 0%nat) as [room|] eqn:Hroom; [|discriminate Hcl].
  destruct (C10_cleared_is_monotone g g' Hreach Hs 0%nat room Hroom)
    as (room' & -> & Hstays & _).
  injection Hcl as Hcl. simpl. f_equal. exact (Hstays Hcl).
Defined.

(** * Further properties of the code *)

(** ** Order on binary32 values *)

Lemma SFcompare_antisym a b : SFcompare b a = CompOpp <$> SFcompare a b.
Proof.
  destruct a as [sa|sa| |sa ma ea], b as [sb|sb| |sb mb eb]; simpl;
    try done; try (by destruct sa); try (by destruct sb);
    try (by destruct sa, sb).
  destruct sa, sb; try done; f_equal.
  - rewrite (Z.compare_antisym ea eb).
    destruct (ea ?= eb)%Z; simpl; try done.
    change (Pos.compare_cont Eq mb ma) with (Pos.compare mb ma).
    change (Pos.compare_cont Eq ma mb) with (Pos.compare ma mb).
    by rewrite (Pos.compare_antisym ma mb).
  - rewrite (Z.compare_antisym ea eb).
    destruct (ea ?= eb)%Z; simpl; try done.
    change (Pos.compare_cont Eq mb ma) with (Pos.compare mb ma).
    change (Pos.compare_cont Eq ma mb) with (Pos.compare ma mb).
    by rewrite (Pos.compare_antisym ma mb).
Qed.

Lemma SFcompare_None a b :
  SFcompare a b = None ↔ a = S754_nan ∨ b = S754_nan.
Proof.
  destruct a as [sa|sa| |sa ma ea], b as [sb|sb| |sb mb eb]; simpl;
    split; try done; try (intros [|]; done); auto.
Qed.

Lemma F_gtb_ltb a b : (a >? b)%F = (b <? a)%F.
Proof.
  unfold F.gtb, F.ltb, SFltb. rewrite (SFcompare_antisym a b).
  by destruct (SFcompare a b) as [[]|].
Qed.

Lemma F_geb_leb a b : (a >=? b)%F = (b <=? a)%F.
Proof.
  unfold F.geb, F.leb, SFleb. rewrite (SFcompare_antisym a b).
  by destruct (SFcompare a b) as [[]|].
Qed.

Lemma F_leb_refl a : a ≠ S754_nan → (a <=? a)%F = true.
Proof.
  intros Ha. unfold F.leb, SFleb.
  destruct (SFcompare_refl a) as [-> | Hn]; [done|].
  apply SFcompare_None in Hn. by destruct Hn.
Qed.

Lemma F_leb_not_nan a b : (a <=? b)%F = true → a ≠ S754_nan ∧ b ≠ S754_nan.
Proof.
  unfold F.leb, SFleb. intros Hle.
  split; intros ->; [|by destruct a]; done.
Qed.

(** The clamp [std::max(lo, std::min(v, hi))] of the code lands in
    [[lo, hi]] whatever [v] is, a NaN included (which it sends to [lo]). *)
Lemma clamp_within lo hi v :
  (lo <=? hi)%F = true →
  (lo <=? F.max lo (F.min v hi))%F = true
  ∧ (F.max lo (F.min v hi) <=? hi)%F = true.
Proof.
  intros Hle. destruct (F_leb_not_nan _ _ Hle) as [Hlo Hhi].
  pose proof (F_leb_refl lo Hlo) as Hll. pose proof (F_leb_refl hi Hhi) as Hhh.
  unfold F.max, F.min, F.ltb, SFltb.
  destruct (SFcompare hi v) as [[]|] eqn:Hhv.
  - destruct (SFcompare lo v) as [[]|] eqn:Hlv; try done.
    split; [by unfold F.leb, SFleb; rewrite Hlv|].
    unfold F.leb, SFleb. by rewrite (SFcompare_antisym hi v), Hhv.
  - destruct (SFcompare lo hi) as [[]|] eqn:Hlh; done.
  - destruct (SFcompare lo v) as [[]|] eqn:Hlv; try done.
    split; [by unfold F.leb, SFleb; rewrite Hlv|].
    unfold F.leb, SFleb. by rewrite (SFcompare_antisym hi v), Hhv.
  - destruct (SFcompare lo v) as [[]|] eqn:Hlv; try done.
    apply SFcompare_None in Hhv as [->| ->]; [done|]. by destruct lo.
Qed.

Lemma clamp_nan lo hi : F.max lo (F.min S754_nan hi) = lo.
Proof.
  unfold F.max, F.min, F.ltb, SFltb.
  replace (SFcompare hi S754_nan) with (@None comparison) by (by destruct hi).
  by replace (SFcompare lo S754_nan) with (@None comparison) by (by destruct lo).
Qed.

(** ** The first part of a tick, step by step *)

(** [simulate] written out: the player moves and is kept inside, the
    shots are fired, the pool is advanced and resolved against the roster
    and the player, the room is updated, and only the current room, the
    player, the pool and the engine are written back. *)
Lemma simulate_unfold `{Platform} inp deltaTime (g gm : Game.t) :
  Game.simulate inp deltaTime g = Some gm →
  ∃ room, Game.room_at g = Some room ∧
    let s := after_shooting inp deltaTime room g in
    let r := Game.update_projectiles deltaTime (Room.with_enemies s.1 room)
               (Game.projectiles s.2) s.1 (Game.player s.2) in
    let u := Room.Update inp deltaTime r.2
               (Room.with_enemies r.1.2 (Room.with_enemies s.1 room)) (Game.rng g) in
    gm = Game.mk (Game.isMainMenu g) (Game.isGameOver g) r.2
           (<[Z.to_nat (Game.currentRoom g) := u.1]> (Game.rooms g))
           (Game.currentRoom g) r.1.1 u.2.
Proof.
  unfold Game.simulate, after_shooting.
  set (g1 := Game.with_player _ g).
  change (Game.room_at g1) with (Game.room_at g).
  destruct (Game.room_at g) as [room|] eqn:Hroom; [|done].
  cbn [mbind option_bind]. intros Hsim. exists room. split; [done|].
  change (Game.with_player
            (Game.keep_player_inside room (Player.Update inp deltaTime (Game.player g))) g)
    with (Game.with_player (Game.keep_player_inside room (Game.player g1)) g1).
  set (g3 := if keySpace inp && _ then _ else _) in *.
  assert (Game.rooms g3 = Game.rooms g ∧ Game.currentRoom g3 = Game.currentRoom g
          ∧ Game.isMainMenu g3 = Game.isMainMenu g
          ∧ Game.isGameOver g3 = Game.isGameOver g
          ∧ Game.rng g3 = Game.rng g) as (Hr3 & Hc3 & Hm3 & Ho3 & Hg3).
  { subst g3 g1. by destruct (keySpace inp && _). }
  pose proof (enemies_shoot_spec (Room.enemies room) g3) as (_ & Hs2 & _).
  destruct (Game.enemies_shoot (Room.enemies room) g3) as [es4 g4].
  simpl in Hs2. cbn [fst snd].
  assert (Game.room_at g4 = Some room) as Hroom4.
  { rewrite Hs2. unfold Game.room_at in *. simpl. by rewrite Hr3, Hc3. }
  unfold Game.UpdateProjectiles in Hsim.
  rewrite (room_at_set_room _ _ _ Hroom4) in Hsim. cbn [mbind option_bind] in Hsim.
  change (Room.enemies (Room.with_enemies es4 room)) with es4 in Hsim.
  change (Game.projectiles (Game.set_room (Room.with_enemies es4 room) g4))
    with (Game.projectiles g4) in Hsim.
  change (Game.player (Game.set_room (Room.with_enemies es4 room) g4))
    with (Game.player g4) in Hsim.
  destruct (Game.update_projectiles _ _ _ _ _) as [[ps es] pl].
  cbn [mbind option_bind fst snd] in *.
  match type of Hsim with
  | context [Game.room_at (Game.with_player ?p (Game.set_room ?r ?g0))] =>
      change (Game.room_at (Game.with_player p (Game.set_room r g0)))
        with (Game.room_at (Game.set_room r (Game.set_room (Room.with_enemies es4 room) g4)))
        in Hsim;
      rewrite (room_at_set_room _ _ r (room_at_set_room _ _ _ Hroom4)) in Hsim
  end.
  cbn [mbind option_bind] in Hsim. simpl in Hsim.
  rewrite Hs2 in Hsim. simpl in Hsim. rewrite Hg3 in Hsim.
  destruct (Room.Update _ _ _ _ _) as [room7 rng7].
  injection Hsim as <-. unfold Game.set_room, Game.with_rng. simpl.
  rewrite Hc3, Hr3, Hm3, Ho3.
  by rewrite !list_insert_insert_eq.
Qed.

(** ** What the steps of a tick do to an entity *)

Lemma aged_refl e : aged e e.
Proof. unfold aged. by split_and!. Qed.

Lemma aged_trans e1 e2 e3 : aged e1 e2 → aged e2 e3 → aged e1 e3.
Proof.
  unfold aged. intros (Hr & Hm & Hc & Hv) (Hr' & Hm' & Hc' & Hv').
  split_and!; try congruence.
  intros H1. destruct (Hv H1) as [H2 Hle]. destruct (Hv' H2) as [H3 Hle'].
  split; [done|lia].
Qed.

Lemma moved_aged e e' : moved e e' → aged e e'.
Proof.
  unfold moved, aged, vital. intros (Hr & Hh & Hm & Ha & Hc).
  split_and!; try done. rewrite Hh, Hm, Ha. intros Hv. split; [done|lia].
Qed.

Lemma struck_aged e e' : struck e e' → aged e e'.
Proof. unfold struck, aged. intros (_ & _ & Hr & Hm & Hc & _ & Hv). done. Qed.

Lemma struck_refl e : struck e e.
Proof. unfold struck. by split_and!. Qed.

Lemma struck_trans e1 e2 e3 : struck e1 e2 → struck e2 e3 → struck e1 e3.
Proof.
  unfold struck.
  intros (Hx & Hy & Hr & Hm & Hc & Hf & Hv) (Hx' & Hy' & Hr' & Hm' & Hc' & Hf' & Hv').
  split_and!; try congruence.
  intros H1. destruct (Hv H1) as [H2 Hle]. destruct (Hv' H2) as [H3 Hle'].
  split; [done|lia].
Qed.

(** An admissible hit: health falls by the damage, or to 0 and the entity
    is deactivated; a dead entity stays as it is. *)
Lemma TakeDamage_struck amount e :
  0 ≤ amount ≤ 10 → struck e (Entity.TakeDamage amount e).
Proof.
  intros Ha. unfold struck, vital. split_and!; try (by unfold Entity.TakeDamage;
    simpl; destruct (_ <=? _)).
  intros (Hh & Hm & Hact).
  assert (I32.in_range (Entity.health e - amount)) as Hr
    by (unfold I32.in_range, I32.min_int, I32.max_int in *; lia).
  destruct (Z_le_gt_dec (Entity.health e) amount) as [Hle|Hgt].
  - rewrite (TakeDamage_lethal _ _ Hr Hle). simpl.
    split_and!; try lia; try (split; [done|lia]).
  - rewrite (TakeDamage_not_lethal _ _ Hr); [|lia]. simpl.
    split_and!; try lia; try (rewrite Hact; lia).
Qed.

Lemma Forall2_enemy_aged_refl es : Forall2 enemy_aged es es.
Proof.
  induction es as [|e es IH]; [constructor|].
  constructor; [split; [apply aged_refl|done]|exact IH].
Qed.

Lemma Forall2_enemy_aged_trans es1 es2 es3 :
  Forall2 enemy_aged es1 es2 → Forall2 enemy_aged es2 es3 →
  Forall2 enemy_aged es1 es3.
Proof.
  intros H12. revert es3.
  induction H12 as [|e1 e2 es1 es2 [He Hb] _ IH]; intros es3 H23;
    inversion H23 as [|? e3 ? es3' [He' Hb'] H23']; subst; constructor; [|by auto].
  split; [by eapply aged_trans|congruence].
Qed.

Lemma Player_Update_moved inp deltaTime p :
  moved (Player.base p) (Player.base (Player.Update inp deltaTime p)).
Proof.
  unfold Player.Update, moved.
  by repeat match goal with
            | |- context [if ?c then _ else _] => destruct c
            end.
Qed.

Lemma keep_player_inside_moved room p :
  moved (Player.base p) (Player.base (Game.keep_player_inside room p)).
Proof. by unfold moved. Qed.

Lemma ChangeDirection_moved `{Platform} e rng :
  moved (Enemy.base e) (Enemy.base (Enemy.ChangeDirection e rng).1)
  ∧ Enemy.isBoss (Enemy.ChangeDirection e rng).1 = Enemy.isBoss e.
Proof.
  unfold Enemy.ChangeDirection, moved.
  by destruct (uniform_real_distribution _ _ rng).
Qed.

Lemma Enemy_Update_moved `{Platform} deltaTime player e rng :
  moved (Enemy.base e) (Enemy.base (Enemy.Update deltaTime player e rng).1)
  ∧ Enemy.isBoss (Enemy.Update deltaTime player e rng).1 = Enemy.isBoss e.
Proof.
  unfold Enemy.Update.
  repeat match goal with
         | |- context [if ?c then _ else _] => destruct c
         | |- context [let '(_, _) := ?c in _] =>
             let E := fresh "E" in destruct c eqn:E
         | E : context [let '(_, _) := ?c in _] |- _ =>
             let E' := fresh "E" in destruct c eqn:E'
         | E : (_, _) = (_, _) |- _ => injection E as <- <-
         end; simpl; try done;
  match goal with
  | E : Enemy.ChangeDirection ?e' _ = _ |- _ =>
      pose proof (ChangeDirection_moved e' rng) as HC; rewrite E in HC
  end;
  apply HC.
Qed.

Lemma enemy_Update_moved `{Platform} inp deltaTime player i e rng :
  moved (Enemy.base e) (Enemy.base (Room.enemy_Update inp deltaTime player i e rng).1)
  ∧ Enemy.isBoss (Room.enemy_Update inp deltaTime player i e rng).1 = Enemy.isBoss e.
Proof.
  unfold Room.enemy_Update, Boss.Update.
  pose proof (Enemy_Update_moved deltaTime player e rng) as HE.
  destruct (Enemy.isBoss e) eqn:Hb; [|done].
  by destruct (Enemy.Update deltaTime player e rng).
Qed.

Lemma update_enemies_moved `{Platform} inp deltaTime player r i es rng :
  Forall2 (λ e e', moved (Enemy.base e) (Enemy.base e')
                   ∧ Enemy.isBoss e' = Enemy.isBoss e)
    es (Room.update_enemies inp deltaTime player r i es rng).1.
Proof.
  revert i rng. induction es as [|e es IH]; intros i rng; simpl; [constructor|].
  pose proof (enemy_Update_moved inp deltaTime player i e rng) as HE.
  destruct (Enemy.active e) eqn:Ha.
  - destruct (Room.enemy_Update inp deltaTime player i e rng) as [e' rng'].
    specialize (IH (S i) rng').
    destruct (Room.update_enemies _ _ _ _ _ _ _) as [es' rng''].
    simpl in *. constructor; [|done]. done.
  - specialize (IH (S i) rng).
    destruct (Room.update_enemies _ _ _ _ _ _ _) as [es' rng''].
    simpl in *. constructor; [|done]. by unfold moved.
Qed.

Lemma Forall2_moved_aged es es' :
  Forall2 (λ e e', moved (Enemy.base e) (Enemy.base e')
                   ∧ Enemy.isBoss e' = Enemy.isBoss e) es es' →
  Forall2 enemy_aged es es'.
Proof.
  induction 1 as [|e e' es es' [Hm Hb] _ IH]; constructor; [|done].
  split; [by apply moved_aged|done].
Qed.

Lemma Forall2_same_base_aged es es' :
  Forall2 (λ e e', Enemy.base e' = Enemy.base e
                   ∧ Enemy.isBoss e' = Enemy.isBoss e) es es' →
  Forall2 enemy_aged es es'.
Proof.
  induction 1 as [|e e' es es' [Hm Hb] _ IH]; constructor; [|done].
  split; [rewrite Hm; apply aged_refl|done].
Qed.

Lemma hit_enemies_aged p es :
  damage_ok p → Forall2 enemy_aged es (Game.hit_enemies p es).1.
Proof.
  intros Hp. induction es as [|e es IH]; simpl; [constructor|].
  destruct (_ && _).
  - simpl. constructor; [|apply Forall2_enemy_aged_refl].
    split; [|done]. by apply struck_aged, TakeDamage_struck.
  - destruct (Game.hit_enemies p es). simpl in *.
    constructor; [|done]. split; [apply aged_refl|done].
Qed.

Lemma update_projectile_aged deltaTime room p es pl :
  damage_ok p →
  let r := Game.update_projectile deltaTime room p es pl in
  Forall2 enemy_aged es r.1.2 ∧ struck (Player.base pl) (Player.base r.2)
  ∧ Player.speedX r.2 = Player.speedX pl ∧ Player.speedY r.2 = Player.speedY pl
  ∧ Player.shootCooldown r.2 = Player.shootCooldown pl.
Proof.
  intros Hp. unfold Game.update_projectile.
  pose proof (Projectile_Update_damage deltaTime p) as Hd.
  assert (damage_ok (Projectile.Update deltaTime p)) as Hp'
    by (unfold damage_ok; by rewrite Hd).
  pose proof (hit_enemies_aged _ es Hp') as Hhit.
  destruct (Projectile.active p); simpl;
    [|by split_and!; [apply Forall2_enemy_aged_refl|apply struck_refl|..]].
  destruct (negb (Room.ContainsPoint _ _ _)); simpl;
    [by split_and!; [apply Forall2_enemy_aged_refl|apply struck_refl|..]|].
  destruct (negb (Projectile.isEnemyProjectile _)).
  - destruct (Game.hit_enemies _ es) as [es' hit]. simpl in *.
    split_and!; [done|apply struck_refl|done..].
  - destruct (Entity.IsColliding _ _); simpl;
      (split_and!; [apply Forall2_enemy_aged_refl| |done..]).
    + by apply TakeDamage_struck.
    + apply struck_refl.
Qed.

Lemma update_projectiles_aged deltaTime room ps es pl :
  Forall damage_ok ps →
  let r := Game.update_projectiles deltaTime room ps es pl in
  Forall2 enemy_aged es r.1.2 ∧ struck (Player.base pl) (Player.base r.2)
  ∧ Player.speedX r.2 = Player.speedX pl ∧ Player.speedY r.2 = Player.speedY pl
  ∧ Player.shootCooldown r.2 = Player.shootCooldown pl.
Proof.
  intros Hps. revert es pl.
  induction Hps as [|p ps Hp _ IH]; intros es pl; simpl.
  - split_and!; [apply Forall2_enemy_aged_refl|apply struck_refl|done..].
  - pose proof (update_projectile_aged deltaTime room p es pl Hp)
      as (He & Hl & Hsx & Hsy & Hcd).
    destruct (Game.update_projectile deltaTime room p es pl) as [[p' es'] pl'].
    specialize (IH es' pl') as (IHe & IHl & IHsx & IHsy & IHcd).
    destruct (Game.update_projectiles deltaTime room ps es' pl') as [[ps' es''] pl''].
    simpl in *. split_and!; [|by eapply struck_trans|congruence..].
    by eapply Forall2_enemy_aged_trans.
Qed.

(** ** Shots and the first part of a tick *)

Lemma enemies_shoot_same `{Platform} es (g : Game.t) :
  Forall2 (λ e e', e' = e ∨ e' = Enemy.ResetShootCooldown e)
    es (Game.enemies_shoot es g).1.
Proof.
  revert g. induction es as [|e es IH]; intros g; simpl; [constructor|].
  destruct (Enemy.active e && Enemy.CanShoot e).
  - specialize (IH (Game.FireProjectile (Enemy.x e) (Enemy.y e)
                      (Enemy.facing e) true g)).
    destruct (Game.enemies_shoot es _) as [es' g']. simpl in *.
    constructor; [by right|done].
  - specialize (IH g). destruct (Game.enemies_shoot es g) as [es' g'].
    simpl in *. constructor; [by left|done].
Qed.

Lemma after_shooting_spec `{Platform} inp deltaTime room (g : Game.t) :
  let s := after_shooting inp deltaTime room g in
  let p := Game.keep_player_inside room (Player.Update inp deltaTime (Game.player g)) in
  Forall2 (λ e e', e' = e ∨ e' = Enemy.ResetShootCooldown e) (Room.enemies room) s.1
  ∧ Player.base (Game.player s.2) = Player.base p
  ∧ Player.speedX (Game.player s.2) = Player.speedX p
  ∧ Player.speedY (Game.player s.2) = Player.speedY p
  ∧ length (Game.projectiles s.2) = length (Game.projectiles g)
  ∧ (Forall damage_ok (Game.projectiles g) → Forall damage_ok (Game.projectiles s.2)).
Proof.
  unfold after_shooting.
  set (p := Game.keep_player_inside room _).
  set (g3 := if keySpace inp && _ then _ else _).
  assert (Player.base (Game.player g3) = Player.base p
          ∧ Player.speedX (Game.player g3) = Player.speedX p
          ∧ Player.speedY (Game.player g3) = Player.speedY p
          ∧ length (Game.projectiles g3) = length (Game.projectiles g)
          ∧ (Forall damage_ok (Game.projectiles g) →
             Forall damage_ok (Game.projectiles g3))) as (Hb & Hsx & Hsy & Hn & Hd).
  { subst g3. destruct (keySpace inp && _); simpl; split_and!; try done.
    - apply fire_scan_length.
    - apply fire_scan_damage_ok. }
  pose proof (enemies_shoot_same (Room.enemies room) g3) as Hsame.
  pose proof (enemies_shoot_spec (Room.enemies room) g3) as (_ & Hs2 & Hs3 & Hs4).
  destruct (Game.enemies_shoot (Room.enemies room) g3) as [es4 g4].
  simpl in *. split_and!; [done|rewrite Hs2; done..| |].
  - by rewrite Hs3.
  - intros Hok. by apply Hs4, Hd.
Qed.

Lemma Forall2_shot_aged es es' :
  Forall2 (λ e e', e' = e ∨ e' = Enemy.ResetShootCooldown e) es es' →
  Forall2 enemy_aged es es'.
Proof.
  induction 1 as [|e e' es es' [-> | ->] _ IH]; constructor; try done;
    (split; [apply aged_refl|done]).
Qed.

(** What the first part of a tick does to the room, its roster and the
    player. *)
Lemma simulate_aged `{Platform} inp deltaTime (g gm : Game.t) :
  Forall damage_ok (Game.projectiles g) →
  Game.simulate inp deltaTime g = Some gm →
  ∃ room room',
    Game.room_at g = Some room ∧ Game.room_at gm = Some room'
    ∧ Game.rooms gm = <[Z.to_nat (Game.currentRoom g) := room']> (Game.rooms g)
    ∧ Game.currentRoom gm = Game.currentRoom g
    ∧ Room.x room' = Room.x room ∧ Room.y room' = Room.y room
    ∧ Room.width room' = Room.width room ∧ Room.height room' = Room.height room
    ∧ Room.hasBoss room' = Room.hasBoss room
    ∧ Forall2 enemy_aged (Room.enemies room) (Room.enemies room')
    ∧ struck
        (Player.base
           (Game.keep_player_inside room
              (Player.Update inp deltaTime (Game.player g))))
        (Player.base (Game.player gm)).
Proof.
  intros Hd Hsim.
  destruct (simulate_unfold _ _ _ _ Hsim) as (room & Hroom & Hgm).
  pose proof (after_shooting_spec inp deltaTime room g)
    as (Hshot & Hb & _ & _ & _ & Hd4).
  destruct (after_shooting inp deltaTime room g) as [es4 g4].
  cbn [fst snd] in *. specialize (Hd4 Hd).
  pose proof (update_projectiles_aged deltaTime (Room.with_enemies es4 room)
                _ es4 (Game.player g4) Hd4) as (He6 & Hp6 & _).
  destruct (Game.update_projectiles _ _ _ _ _) as [[ps6 es6] pl6].
  cbn [fst snd] in *.
  pose proof (Room_Update_spec inp deltaTime pl6
                (Room.with_enemies es6 (Room.with_enemies es4 room)) (Game.rng g))
    as (Hx & Hy & Hw & Hh & Hbs & _ & _).
  pose proof (update_enemies_moved inp deltaTime pl6
                (Room.with_enemies es6 (Room.with_enemies es4 room)) 0 es6 (Game.rng g))
    as Hmoved.
  unfold Room.Update in *.
  change (Room.enemies (Room.with_enemies es6 (Room.with_enemies es4 room)))
    with es6 in *.
  destruct (Room.update_enemies _ _ _ _ _ _ _) as [es7 rng7].
  cbn [fst snd] in *. simpl in Hx, Hy, Hw, Hh, Hbs.
  apply room_at_Some in Hroom as (Hc & Hlook & Hlt).
  exists room. eexists. rewrite Hgm. split_and!.
  - unfold Game.room_at. by destruct (Z.ltb_spec (Game.currentRoom g) 0); [lia|].
  - unfold Game.room_at. simpl.
    destruct (Z.ltb_spec (Game.currentRoom g) 0); [lia|].
    apply list_lookup_insert_eq. by apply lookup_lt_Some in Hlook.
  - done.
  - done.
  - done.
  - done.
  - done.
  - done.
  - done.
  - simpl. eapply Forall2_enemy_aged_trans; [by apply Forall2_shot_aged|].
    eapply Forall2_enemy_aged_trans; [done|]. by apply Forall2_moved_aged.
  - rewrite <- Hb. exact Hp6.
Qed.

(** ** Level generation, in full *)

Lemma fresh_enemy_vital e : fresh_enemy e → vital (Enemy.base e).
Proof.
  unfold fresh_enemy, enemy_kind_ok, vital, Enemy.active, Enemy.health.
  intros (Hk & Ha & Hh & _). rewrite Ha, Hh.
  destruct (Enemy.isBoss e); destruct Hk as [_ ->];
    unfold BOSS_HEALTH, ENEMY_HEALTH, I32.max_int; split_and!; try lia; done.
Qed.

Lemma Enemy_new_fresh `{Platform} ex ey rng :
  let e := (Enemy.new ex ey rng).1 in
  fresh_enemy e ∧ Enemy.isBoss e = false ∧ Enemy.x e = ex ∧ Enemy.y e = ey.
Proof.
  unfold Enemy.new, Enemy.ChangeDirection.
  by destruct (uniform_real_distribution _ _ rng).
Qed.

Lemma Boss_new_fresh `{Platform} ex ey rng :
  let e := (Boss.new ex ey rng).1 in
  fresh_enemy e ∧ Enemy.isBoss e = true ∧ Enemy.x e = ex ∧ Enemy.y e = ey.
Proof.
  unfold Boss.new, Enemy.new, Enemy.ChangeDirection.
  by destruct (uniform_real_distribution _ _ rng).
Qed.

Lemma add_enemies_generated `{Platform} n i r rng :
  let r' := (Game.add_enemies n i r rng).1 in
  Room.y r' = Room.y r ∧ Room.height r' = Room.height r
  ∧ Room.hasBoss r' = Room.hasBoss r
  ∧ (Forall fresh_enemy (Room.enemies r) → Forall fresh_enemy (Room.enemies r'))
  ∧ (Forall (λ e, Enemy.isBoss e = false) (Room.enemies r) →
     Forall (λ e, Enemy.isBoss e = false) (Room.enemies r'))
  ∧ length (Room.enemies r') = (length (Room.enemies r) + n)%nat.
Proof.
  revert r rng. induction n as [|n IH]; intros r rng.
  - simpl. split_and!; try done; lia.
  - cbn [Game.add_enemies].
    destruct (Game.draw_position i rng) as [[ex ey] rng2].
    unfold Room.AddEnemy.
    pose proof (Enemy_new_fresh ex ey rng2) as (Hf & Hb & _).
    destruct (Enemy.new ex ey rng2) as [e rng3]. simpl in Hf, Hb.
    destruct (IH (Room.with_enemies (Room.enemies r ++ [e]) r) rng3)
      as (Hy & Hh & Hbs & Hfresh & Hplain & Hlen).
    split_and!; try done.
    + intros Hall. apply Hfresh. simpl. apply Forall_app. split; [done|].
      by constructor.
    + intros Hall. apply Hplain. simpl. apply Forall_app. split; [done|].
      by constructor.
    + rewrite Hlen. simpl. rewrite length_app. simpl. lia.
Qed.

Lemma make_room_generated `{Platform} i rng :
  generated i (Game.make_room i rng).1.
Proof.
  pose proof (make_room_fresh i rng) as (Hx & Hw & Hcl).
  unfold generated. split; [done|].
  unfold Game.make_room in *. destruct (i =? 4) eqn:Hi.
  - unfold Room.AddBoss in *.
    pose proof (Boss_new_fresh (F.ofZ i * F.ofZ 800 + F.ofZ 400)%F (F.ofZ 300) rng)
      as (Hf & Hb & Hbx & Hby).
    destruct (Boss.new _ _ rng) as [boss rng1]. simpl in *.
    split_and!; try done; [by constructor|]. by exists boss.
  - destruct (uniform_int_distribution 3 6 rng) as [n rng1].
    destruct (add_enemies_generated (Z.to_nat n) i
                (Room.new (F.ofZ i * F.ofZ 800)%F (F.ofZ 0) (F.ofZ 800) (F.ofZ 600) false)
                rng1) as (Hy & Hh & Hbs & Hfresh & Hplain & _).
    split_and!; [done..|by apply Hfresh|by apply Hplain].
Qed.

Lemma make_rooms_generated `{Platform} todo rs rng :
  ∃ rs', (Game.make_rooms todo rs rng).1 = rs ++ rs'
         ∧ Forall2 generated todo rs'.
Proof.
  revert rs rng. induction todo as [|i todo IH]; intros rs rng; simpl.
  - exists []. by rewrite app_nil_r.
  - pose proof (make_room_generated i rng) as Hr.
    destruct (Game.make_room i rng) as [r rng1].
    destruct (IH (rs ++ [r]) rng1) as (rs' & -> & Hrs').
    exists (r :: rs'). rewrite <- app_assoc. split; [done|by constructor].
Qed.

(** The rooms [ResetGame] makes, whatever the state it is called on. *)
Lemma ResetGame_rooms `{Platform} (g : Game.t) :
  Forall2 generated [0; 1; 2; 3; 4] (Game.rooms (Game.ResetGame g)).
Proof.
  unfold Game.ResetGame.
  match goal with
  | |- context [Game.make_rooms ?todo ?rs0 ?rng0] =>
      destruct (make_rooms_generated todo rs0 rng0) as (rs & Hrs & Hgen);
      destruct (Game.make_rooms todo rs0 rng0) as [rs1 rng]
  end.
  simpl in Hrs. subst rs1. exact Hgen.
Qed.

Lemma generated_lookup `{Platform} (g : Game.t) i r :
  Game.rooms (Game.ResetGame g) !! i = Some r →
  (i < 5)%nat ∧ generated (Z.of_nat i) r.
Proof.
  intros Hi. pose proof (ResetGame_rooms g) as Hgen.
  destruct (Forall2_lookup_r _ _ _ _ _ Hgen Hi) as (z & Hz & Hr).
  assert (z = Z.of_nat i ∧ (i < 5)%nat) as [-> Hlt]; [|done].
  do 5 (destruct i as [|i]; [injection Hz as <-; split; [done|lia]|]). done.
Qed.

(** ** The further invariant of a run *)

(** Sizes of the five rooms against the places the code puts the player:
    the clamp interval is not empty, and the entry point and the exit
    boundary lie in it. *)
Lemma room_bounds (i : nat) (x : float) :
  (i < 5)%nat → x = (F.ofZ (Z.of_nat i) * F.ofZ 800)%F →
  (x + F.ofZ 15 <=? x + F.ofZ 800 - F.ofZ 15)%F = true
  ∧ (x + F.ofZ 15 <=? x + F.ofZ 50)%F = true
  ∧ (x + F.ofZ 50 <=? x + F.ofZ 800 - F.ofZ 15)%F = true
  ∧ (x + F.ofZ 15 <=? x + F.ofZ 800 - F.ofZ 50)%F = true
  ∧ (x + F.ofZ 800 - F.ofZ 50 <=? x + F.ofZ 800 - F.ofZ 15)%F = true.
Proof.
  intros Hi ->. do 5 (destruct i as [|i]; [by vm_compute|]). lia.
Qed.

Lemma inside_keep room p :
  (Room.x room + Player.radius p <=? Room.x room + Room.width room - Player.radius p)%F
  = true →
  (Room.y room + Player.radius p <=? Room.y room + Room.height room - Player.radius p)%F
  = true →
  inside room (Game.keep_player_inside room p).
Proof.
  intros Hx Hy. unfold inside, Game.keep_player_inside.
  destruct (clamp_within _ _ (Player.x p) Hx) as [Hx1 Hx2].
  destruct (clamp_within _ _ (Player.y p) Hy) as [Hy1 Hy2].
  by split_and!.
Qed.

Lemma ResetGame_fields `{Platform} (g : Game.t) :
  Game.player (Game.ResetGame g) = Player.new (F.ofZ 400) (F.ofZ 300)
  ∧ Game.currentRoom (Game.ResetGame g) = 0
  ∧ Game.isGameOver (Game.ResetGame g) = false
  ∧ Game.isMainMenu (Game.ResetGame g) = Game.isMainMenu g
  ∧ Game.projectiles (Game.ResetGame g)
    = map (Projectile.on_base (Entity.with_active false)) (Game.projectiles g).
Proof.
  unfold Game.ResetGame.
  match goal with
  | |- context [Game.make_rooms ?todo ?rs0 ?rng0] =>
      destruct (Game.make_rooms todo rs0 rng0) as [rs1 rng]
  end.
  by split_and!.
Qed.

Lemma ResetGame_sound `{Platform} (g : Game.t) : sound (Game.ResetGame g).
Proof.
  destruct (ResetGame_fields g) as (Hp & Hc & _).
  split.
  - rewrite Hp. unfold vital, I32.max_int. simpl.
    split_and!; try lia; try done.
  - by rewrite Hp.
  - intros i r (Hi & _ & Hy & _ & Hh & _ & Hb & _)%generated_lookup.
    split_and!; [done..|]. rewrite Hb.
    do 5 (destruct i as [|i]; [done|]). lia.
  - intros r e [i Hi]%list_elem_of_lookup He.
    apply generated_lookup in Hi as (_ & _ & _ & _ & _ & _ & _ & Hfresh & _).
    rewrite Forall_forall in Hfresh. specialize (Hfresh e He).
    split; [by apply fresh_enemy_vital|by destruct Hfresh].
  - intros room Hroom. unfold Game.room_at in Hroom. rewrite Hc in Hroom.
    simpl in Hroom.
    apply generated_lookup in Hroom as (_ & Hx & Hy & Hw & Hh & _).
    rewrite Hp. unfold inside. rewrite Hx, Hy, Hw, Hh. by vm_compute.
Qed.

Lemma new_sound `{Platform} seed : sound (Game.new seed).
Proof. apply ResetGame_sound. Qed.

Lemma moved_vital e e' : moved e e' → vital e → vital e'.
Proof. intros Hm Hv. by apply (moved_aged _ _ Hm). Qed.

Lemma sound_with_isGameOver `{Platform} b (g : Game.t) :
  sound g → sound (Game.with_isGameOver b g).
Proof. by intros []. Qed.

Lemma sound_with_isMainMenu `{Platform} b (g : Game.t) :
  sound g → sound (Game.with_isMainMenu b g).
Proof. by intros []. Qed.

Lemma simulate_sound `{Platform} inp deltaTime (g gm : Game.t) :
  well_formed g → sound g →
  Game.simulate inp deltaTime g = Some gm → sound gm.
Proof.
  intros Hwf [Hpv [Hpr Hpm] Hrooms Henemies _] Hsim.
  destruct (simulate_aged _ _ _ _ (wf_damage g Hwf) Hsim)
    as (room & room' & Hroom & Hroom' & Hrs & Hc & Hx & Hy & Hw & Hh & Hb & Hes & Hpl).
  apply room_at_Some in Hroom as (Hc0 & Hlook & Hlt).
  destruct (wf_geometry g Hwf _ _ Hlook) as [Hgx Hgw].
  destruct (Hrooms _ _ Hlook) as (Hgy & Hgh & Hgb).
  assert (Z.to_nat (Game.currentRoom g) < 5)%nat as Hcur
    by (pose proof (wf_cursor g Hwf); lia).
  set (p := Game.keep_player_inside room _) in Hpl.
  assert (moved (Player.base (Game.player g)) (Player.base p)) as Hmoved.
  { pose proof (Player_Update_moved inp deltaTime (Game.player g)) as Hm.
    unfold moved in *. subst p. simpl. done. }
  destruct Hpl as (Hsx & Hsy & Hsr & Hsm & _ & _ & Hsv).
  assert (Player.radius p = F.ofZ 15) as Hrp.
  { destruct Hmoved as (Hr & _). unfold Player.radius in *. congruence. }
  split.
  - apply Hsv. by eapply moved_vital.
  - unfold Player.radius in *. destruct Hmoved as (Hr & _ & Hm & _).
    split; congruence.
  - intros i r. rewrite Hrs.
    intros [(<- & <- & _)|[_ Hi]]%list_lookup_insert_Some; [|by apply Hrooms].
    rewrite Hy, Hh, Hb. done.
  - intros r e [i Hi]%list_elem_of_lookup He. rewrite Hrs in Hi.
    apply list_lookup_insert_Some in Hi as [(_ & <- & _)|[_ Hi]].
    + apply list_elem_of_lookup in He as [j Hj].
      destruct (Forall2_lookup_r _ _ _ _ _ Hes Hj)
        as (e0 & He0 & (Hr & Hm & _ & Hv) & Hboss).
      destruct (Henemies room e0) as [Hv0 Hk0];
        [by eapply list_elem_of_lookup_2..|].
      split; [by apply Hv|].
      unfold enemy_kind_ok, Enemy.radius in *. rewrite Hboss, Hr, Hm. done.
    + apply (Henemies r e); [by eapply list_elem_of_lookup_2|done].
  - intros room0 Hroom0. assert (room0 = room') as -> by congruence.
    destruct (room_bounds _ _ Hcur Hgx) as (Hbx & _).
    assert (inside room p) as (Hi1 & Hi2 & Hi3 & Hi4).
    { apply inside_keep.
      - change (Player.radius (Player.Update inp deltaTime (Game.player g)))
          with (Player.radius p).
        rewrite Hrp, Hgw. exact Hbx.
      - change (Player.radius (Player.Update inp deltaTime (Game.player g)))
          with (Player.radius p).
        rewrite Hrp, Hgy, Hgh. by vm_compute. }
    unfold inside, Player.x, Player.y, Player.radius in *.
    rewrite Hsx, Hsy, Hsr, Hx, Hy, Hw, Hh. done.
Qed.

Lemma room_transition_sound `{Platform} (g g' : Game.t) :
  well_formed g → sound g → Game.room_transition g = Some g' → sound g'.
Proof.
  intros Hwf Hs (room & Hroom & Hcases)%room_transition_spec.
  pose proof Hs as [Hpv [Hpr Hpm] Hrooms Henemies Hin].
  destruct (Hin room Hroom) as (Hi1 & Hi2 & Hi3 & Hi4).
  pose proof (room_at_Some _ _ Hroom) as (Hc0 & Hlook & Hlt).
  destruct (wf_geometry g Hwf _ _ Hlook) as [Hgx Hgw].
  destruct (Hrooms _ _ Hlook) as (Hgy & Hgh & _).
  assert (Z.to_nat (Game.currentRoom g) < 5)%nat as Hcur
    by (pose proof (wf_cursor g Hwf); lia).
  destruct Hcases as [(_ & _ & _ & next & Hnext & ->)|[(_ & _ & ->)|[-> _]]].
  - pose proof (room_at_Some _ _ Hnext) as (_ & Hlook' & _). simpl in Hlook'.
    destruct (wf_geometry g Hwf _ _ Hlook') as [Hnx Hnw].
    destruct (Hrooms _ _ Hlook') as (Hny & Hnh & _).
    assert (Z.to_nat (I32.wrap (Game.currentRoom g + 1)) < 5)%nat as Hcur'.
    { apply lookup_lt_Some in Hlook'. by rewrite (wf_rooms g Hwf) in Hlook'. }
    destruct (room_bounds _ _ Hcur' Hnx) as (_ & Hb1 & Hb2 & _).
    split; try done.
    intros room0 Hroom0.
    assert (room0 = next) as ->.
    { change (Game.room_at (Game.with_currentRoom (I32.wrap (Game.currentRoom g + 1)) g)
              = Some room0) in Hroom0. congruence. }
    unfold inside, Player.x, Player.y, Player.radius in *. simpl.
    rewrite Hpr, Hnw, Hny, Hnh. rewrite Hpr, Hgy in Hi3.
    rewrite Hpr, Hgy, Hgh in Hi4. by split_and!.
  - destruct (room_bounds _ _ Hcur Hgx) as (_ & _ & _ & Hb1 & Hb2).
    split; try done.
    intros room0 Hroom0.
    assert (room0 = room) as ->.
    { change (Game.room_at g = Some room0) in Hroom0. congruence. }
    unfold inside, Game.exit_boundary, Player.x, Player.y, Player.radius in *.
    simpl. rewrite Hpr, Hgw. rewrite Hpr in Hi3, Hi4. by split_and!.
  - done.
Qed.

Lemma UpdateGame_sound `{Platform} inp deltaTime (g g' : Game.t) :
  well_formed g → sound g →
  Game.UpdateGame inp deltaTime g = Some g' → sound g'.
Proof.
  intros Hwf Hs (gm & gt & Hsim & Ht & Hw)%UpdateGame_parts.
  apply win_lose_spec in Hw as [-> _]. apply sound_with_isGameOver.
  eapply room_transition_sound; [|by eapply simulate_sound|done].
  by eapply simulate_well_formed.
Qed.

Lemma Update_sound `{Platform} inp (g g' : Game.t) :
  well_formed g → sound g → Game.Update inp g = Some g' → sound g'.
Proof.
  intros Hwf Hs. unfold Game.Update.
  destruct (Game.isMainMenu g); [|destruct (Game.isGameOver g)].
  - intros [= <-]. destruct (enterPressed inp); [|done].
    by apply sound_with_isMainMenu.
  - intros [= <-]. destruct (enterPressed inp); [|done].
    apply ResetGame_sound.
  - by apply UpdateGame_sound.
Qed.

Lemma reachable_sound `{Platform} (g : Game.t) : reachable g → sound g.
Proof.
  induction 1 as [seed|inp g g' Hreach IH Hstep].
  - apply new_sound.
  - eapply Update_sound; [|done..]. by apply reachable_well_formed.
Qed.

(** ** Properties of a run *)

(** X1. In every state of a run the player's circle, of radius 15, lies
    within the current room: the clamp of [UpdateGame], the entry point of
    a new room and the exit boundary all keep it there, even through a
    frame whose timer is not a number. *)
Theorem X1_player_stays_inside `{Platform} (g : Game.t) (room : Room.t) :
  reachable g → Game.room_at g = Some room →
  Player.radius (Game.player g) = F.ofZ 15
  ∧ (Room.x room + F.ofZ 15 <=? Player.x (Game.player g))%F = true
  ∧ (Player.x (Game.player g) <=? Room.x room + Room.width room - F.ofZ 15)%F = true
  ∧ (Room.y room + F.ofZ 15 <=? Player.y (Game.player g))%F = true
  ∧ (Player.y (Game.player g) <=? Room.y room + Room.height room - F.ofZ 15)%F = true.
Proof.
  intros [_ [Hr _] _ _ Hin]%reachable_sound Hroom.
  specialize (Hin room Hroom). unfold inside in Hin. rewrite Hr in Hin.
  by split.
Qed.

(** After a frame with a NaN timer the player is at the corner (15, 15) of
    the first room. *)
Lemma X1_player_stays_inside_witness :
  let g := run 1 nan_frame in_play in
  reachable g
  ∧ ∃ room, Game.room_at g = Some room
            ∧ Player.x (Game.player g) = F.ofZ 15
            ∧ (Room.x room + F.ofZ 15 <=? Player.x (Game.player g))%F = true.
Proof.
  intros g.
  assert (reachable g) as Hreach by apply run_reachable, in_play_reachable.
  split; [exact Hreach|].
  destruct (Game.room_at g) as [room|] eqn:Hroom;
    [|vm_compute in Hroom; discriminate Hroom].
  exists room. split; [reflexivity|]. split; [vm_compute; reflexivity|].
  exact (proj1 (proj2 (X1_player_stays_inside g room Hreach Hroom))).
Defined.

(** X2. In every state of a run the health of the player and of every
    enemy of every room lies between 0 and its maximum, and the entity is
    active exactly when its health is positive; the player's maximum is
    100, a boss has radius 25 and maximum 150, another enemy radius 12 and
    maximum 30. *)
Theorem X2_health_and_activity_agree `{Platform} (g : Game.t) :
  reachable g →
  (0 ≤ Player.health (Game.player g) ≤ 100
   ∧ (Player.active (Game.player g) = true ↔ 0 < Player.health (Game.player g)))
  ∧ ∀ r e, r ∈ Game.rooms g → e ∈ Room.enemies r →
      0 ≤ Enemy.health e ≤ Entity.maxHealth (Enemy.base e)
      ∧ (Enemy.active e = true ↔ 0 < Enemy.health e)
      ∧ (if Enemy.isBoss e
         then Enemy.radius e = F.ofZ 25 ∧ Entity.maxHealth (Enemy.base e) = 150
         else Enemy.radius e = F.ofZ 12 ∧ Entity.maxHealth (Enemy.base e) = 30).
Proof.
  intros [(Hh & _ & Ha) [_ Hm] _ Hen _]%reachable_sound. split.
  - unfold Player.health, Player.active. rewrite Hm in Hh. by split.
  - intros r e Hr He. destruct (Hen r e Hr He) as [(Hh' & _ & Ha') Hk].
    split; [exact Hh'|]. split; [exact Ha'|exact Hk].
Qed.

(** The play-through that clears the first room: its three enemies are
    dead at health 0, the player alive. *)
Lemma X2_health_and_activity_agree_witness :
  let g := run 600 shoot_right_frame (run 60 up_frame in_play) in
  reachable g
  ∧ 0 ≤ Player.health (Game.player g) ≤ 100
  ∧ (λ r, Enemy.health <$> Room.enemies r) <$> Game.rooms g !! 0%nat
    = Some [0; 0; 0].
Proof.
  intros g.
  assert (reachable g) as Hreach
    by apply run_reachable, run_reachable, in_play_reachable.
  split; [exact Hreach|].
  split; [exact (proj1 (proj1 (X2_health_and_activity_agree g Hreach)))|].
  vm_compute. reflexivity.
Defined.

Lemma win_lose_iff `{Platform} (g g' : Game.t) :
  Game.win_lose g = Some g' →
  (Game.isGameOver g' = true
   ↔ Game.isGameOver g = true
     ∨ Player.health (Game.player g) ≤ 0
     ∨ (SizeT.ofInt (Game.currentRoom g)
        = SizeT.wrap (Z.of_nat (length (Game.rooms g)) - 1)
        ∧ ∃ room, Game.room_at g = Some room ∧ Room.cleared room = true)).
Proof.
  unfold Game.win_lose.
  destruct (Z.eqb_spec (SizeT.ofInt (Game.currentRoom g))
              (SizeT.wrap (Z.of_nat (length (Game.rooms g)) - 1))) as [Heq|Hne].
  - destruct (Game.room_at g) as [room|]; [|done]. cbn [mbind option_bind].
    destruct (Room.cleared room) eqn:Hcl; simpl;
      destruct (Z.leb_spec (Player.health (Game.player g)) 0) as [Hle|Hgt];
      intros [= <-]; simpl.
    + split; [intros _; right; by left|done].
    + split; [intros _|done]. right; right. split; [done|by exists room].
    + split; [intros _; right; by left|done].
    + split; [by left|].
      intros [?|[?|(_ & room' & [= <-] & ?)]]; [done|lia|congruence].
  - cbn [mbind option_bind].
    destruct (Z.leb_spec (Player.health (Game.player g)) 0) as [Hle|Hgt];
      intros [= <-]; simpl.
    + split; [intros _; right; by left|done].
    + split; [by left|]. intros [?|[?|(? & _)]]; [done|lia|done].
Qed.

(** X3. A Playing tick of a run ends the game exactly when, at its end,
    the player's health is 0 or the cursor is on the last room and that
    room is cleared; ended with health left, the end screen is the one of
    victory, and not ended, the game screen is drawn. *)
Theorem X3_game_ends_by_defeat_or_victory `{Platform} (inp : Input)
    (g g' : Game.t) :
  reachable g → playing g → Game.Update inp g = Some g' →
  (Game.isGameOver g' = true
   ↔ Player.health (Game.player g') ≤ 0
     ∨ (Game.currentRoom g' = 4
        ∧ ∃ room, Game.room_at g' = Some room ∧ Room.cleared room = true))
  ∧ (Game.isGameOver g' = true → 0 < Player.health (Game.player g') →
     Game.Draw g' = GameOverScreen "YOU WIN! BOSS DEFEATED!")
  ∧ (Game.isGameOver g' = false → Game.Draw g' = GameScreen).
Proof.
  intros Hwf%reachable_well_formed Hplay Hstep. pose proof Hplay as [Hmenu Hover].
  rewrite (Update_playing _ _ Hplay) in Hstep.
  apply UpdateGame_parts in Hstep as (gm & gt & Hsim & Ht & Hw).
  pose proof (simulate_well_formed _ _ _ _ Hwf Hsim) as Hwfm.
  pose proof (room_transition_well_formed _ _ Hwfm Ht) as Hwft.
  apply simulate_flags in Hsim as (Hm1 & Ho1 & _).
  apply room_transition_frame in Ht as (_ & _ & Hm2 & Ho2 & _).
  pose proof (win_lose_frame _ _ Hw) as (Hrw & _ & Hm3 & Hcw & Hpw).
  pose proof (win_lose_iff _ _ Hw) as Hiff.
  destruct (cursor_arith gt Hwft) as (Hof & Hlen & _).
  rewrite Hof, Hlen in Hiff.
  assert (Game.room_at g' = Game.room_at gt) as Hroom
    by (unfold Game.room_at; by rewrite Hrw, Hcw).
  assert (Game.isMainMenu g' = false) as Hm by congruence.
  rewrite Hpw, Hcw, Hroom. split_and!.
  - rewrite Hiff. split.
    + intros [?|[?|?]]; [congruence|by left|by right].
    + intros [?|?]; [right; by left|right; by right].
  - intros Ho Hh. unfold Game.Draw, Game.DrawGameOver. rewrite Hm, Ho, Hpw.
    by destruct (Z.leb_spec (Player.health (Game.player gt)) 0); [lia|].
  - intros Ho. unfold Game.Draw. by rewrite Hm, Ho.
Qed.

(** The play-through to its end: on its 1051st tick the player, in the
    second room, loses its last health, and the game is over, lost. *)
Lemma X3_game_ends_by_defeat_or_victory_witness :
  let g := run 990 shoot_right_frame (run 60 up_frame in_play) in
  let g' := run 1 shoot_right_frame g in
  reachable g ∧ playing g
  ∧ Game.Update shoot_right_frame g = Some g'
  ∧ Player.health (Game.player g') ≤ 0
  ∧ Game.isGameOver g' = true.
Proof.
  intros g g'.
  assert (reachable g) as Hreach
    by apply run_reachable, run_reachable, in_play_reachable.
  assert (playing g) as Hplay by (split; vm_compute; reflexivity).
  assert (Game.Update shoot_right_frame g = Some g') as Hstep
    by (vm_compute; reflexivity).
  assert (Player.health (Game.player g') ≤ 0) as Hdead
    by (vm_compute; discriminate).
  destruct (X3_game_ends_by_defeat_or_victory shoot_right_frame g g'
              Hreach Hplay Hstep) as (Hiff & _ & _).
  split; [exact Hreach|]. split; [exact Hplay|].
  split; [exact Hstep|]. split; [exact Hdead|].
  apply Hiff. left. exact Hdead.
Defined.

(** X4. ENTER on the end screen rebuilds the game: back in the main menu
    and not over, the cursor on the first room, a new player at (400, 300),
    every pool slot inactive in a pool of the same size, and five new
    rooms, 800 by 600 side by side, none cleared, their enemies active at
    full health, the last room with one boss at its centre and the others
    with plain enemies only. *)
Theorem X4_enter_on_end_screen_resets `{Platform} (inp : Input) (g : Game.t) :
  Game.isMainMenu g = false → Game.isGameOver g = true →
  enterPressed inp = true →
  ∃ g', Game.Update inp g = Some g'
        ∧ Game.Draw g' = MainMenuScreen
        ∧ Game.isGameOver g' = false
        ∧ Game.currentRoom g' = 0
        ∧ Game.player g' = Player.new (F.ofZ 400) (F.ofZ 300)
        ∧ length (Game.projectiles g') = length (Game.projectiles g)
        ∧ (∀ p, p ∈ Game.projectiles g' → Projectile.active p = false)
        ∧ Forall2 generated [0; 1; 2; 3; 4] (Game.rooms g').
Proof.
  intros Hm Ho He. unfold Game.Update. rewrite Hm, Ho, He.
  eexists. split; [reflexivity|].
  destruct (ResetGame_fields (Game.with_isMainMenu true g))
    as (Hp & Hc & Hov & Hmenu & Hps).
  split_and!; try done.
  - unfold Game.Draw. by rewrite Hmenu.
  - rewrite Hps. by rewrite length_map.
  - rewrite Hps. intros p (q & -> & _)%list_elem_of_fmap. done.
  - apply ResetGame_rooms.
Qed.

(** ENTER after the lost play-through. *)
Lemma X4_enter_on_end_screen_resets_witness :
  let g := run 1000 shoot_right_frame (run 60 up_frame in_play) in
  Game.isMainMenu g = false ∧ Game.isGameOver g = true
  ∧ enterPressed enter_frame = true
  ∧ ∃ g', Game.Update enter_frame g = Some g'
          ∧ Game.Draw g' = MainMenuScreen
          ∧ Game.player g' = Player.new (F.ofZ 400) (F.ofZ 300).
Proof.
  intros g.
  assert (Game.isMainMenu g = false) as Hm by (vm_compute; reflexivity).
  assert (Game.isGameOver g = true) as Ho by (vm_compute; reflexivity).
  destruct (X4_enter_on_end_screen_resets enter_frame g Hm Ho eq_refl)
    as (g' & Hstep & Hdraw & _ & _ & Hp & _).
  split; [exact Hm|]. split; [exact Ho|]. split; [reflexivity|].
  exists g'. split; [exact Hstep|]. split; [exact Hdraw|exact Hp].
Defined.

Lemma reachable_menu_not_over `{Platform} (g : Game.t) :
  reachable g → Game.isMainMenu g = true → Game.isGameOver g = false.
Proof.
  induction 1 as [seed|inp g g' Hreach IH Hstep].
  - intros _. apply (ResetGame_fields _).
  - unfold Game.Update in Hstep.
    destruct (Game.isMainMenu g) eqn:Hm; [|destruct (Game.isGameOver g) eqn:Ho].
    + injection Hstep as <-. destruct (enterPressed inp); [done|].
      intros _. by apply IH.
    + injection Hstep as <-. destruct (enterPressed inp); [|by rewrite Hm].
      intros _. apply (ResetGame_fields _).
    + apply UpdateGame_parts in Hstep as (gm & gt & Hsim & Ht & Hw).
      apply simulate_flags in Hsim as (Hm1 & _).
      apply room_transition_frame in Ht as (_ & _ & Hm2 & _).
      apply win_lose_frame in Hw as (_ & _ & Hm3 & _). congruence.
Qed.

(** X5. Outside Playing mode a frame without ENTER changes nothing,
    whatever keys are down and whatever the timer reads; and in the main
    menu of a run ENTER starts play on the world as it stands: only the
    menu flag changes and the game screen is drawn. *)
Theorem X5_menus_wait_for_enter `{Platform} (inp : Input) (g : Game.t) :
  reachable g →
  (enterPressed inp = false → ¬ playing g → Game.Update inp g = Some g)
  ∧ (Game.isMainMenu g = true → enterPressed inp = true →
     Game.Update inp g = Some (Game.with_isMainMenu false g)
     ∧ playing (Game.with_isMainMenu false g)
     ∧ Game.Draw (Game.with_isMainMenu false g) = GameScreen).
Proof.
  intros Hreach. split.
  - intros He Hnp. unfold Game.Update. rewrite He.
    destruct (Game.isMainMenu g) eqn:Hm; [done|].
    destruct (Game.isGameOver g) eqn:Ho; [done|]. by destruct Hnp.
  - intros Hm He. pose proof (reachable_menu_not_over g Hreach Hm) as Ho.
    unfold Game.Update, Game.Draw, playing. rewrite Hm, He. simpl.
    by rewrite Ho.
Qed.

(** The game as constructed waits in the menu; ENTER starts it. *)
Lemma X5_menus_wait_for_enter_witness :
  reachable start
  ∧ enterPressed right_frame = false ∧ ¬ playing start
  ∧ Game.Update right_frame start = Some start
  ∧ Game.isMainMenu start = true ∧ enterPressed enter_frame = true
  ∧ Game.Update enter_frame start = Some (Game.with_isMainMenu false start).
Proof.
  assert (reachable start) as Hreach by apply reachable_new.
  assert (Game.isMainMenu start = true) as Hm by (vm_compute; reflexivity).
  assert (¬ playing start) as Hnp.
  { intros [Hm' _]. rewrite Hm in Hm'. discriminate Hm'. }
  destruct (X5_menus_wait_for_enter right_frame start Hreach) as [Hwait _].
  destruct (X5_menus_wait_for_enter enter_frame start Hreach) as [_ Hgo].
  split; [exact Hreach|]. split; [reflexivity|]. split; [exact Hnp|].
  split; [exact (Hwait eq_refl Hnp)|]. split; [exact Hm|].
  split; [reflexivity|]. exact (proj1 (Hgo Hm eq_refl)).
Defined.


Lemma make_rooms_made `{Platform} todo rs rng :
  ∃ rs', (Game.make_rooms todo rs rng).1 = rs ++ rs'
         ∧ Forall2 (λ i r, ∃ rng0, r = (Game.make_room i rng0).1) todo rs'.
Proof.
  revert rs rng. induction todo as [|i todo IH]; intros rs rng; simpl.
  - exists []. by rewrite app_nil_r.
  - destruct (Game.make_room i rng) as [r rng1] eqn:Hr.
    destruct (IH (rs ++ [r]) rng1) as (rs' & -> & Hrs').
    exists (r :: rs'). rewrite <- app_assoc. split; [done|].
    constructor; [|done]. exists rng. by rewrite Hr.
Qed.



(** ** Projectiles against the roster and the player *)

(** X7. A player projectile damages at most one enemy: if no active enemy
    of the roster collides with it nothing changes; otherwise the first
    such enemy in roster order takes the damage and every other entry of
    the roster is left as it was, later overlapping enemies included. *)
Theorem X7_projectile_hits_first_enemy_only (p : Projectile.t)
    (es : list Enemy.t) :
  let target e :=
    Enemy.active e && Entity.IsColliding (Projectile.base p) (Enemy.base e) in
  ((∀ e, e ∈ es → target e = false) ∧ Game.hit_enemies p es = (es, false))
  ∨ ∃ i e,
      es !! i = Some e ∧ target e = true
      ∧ (∀ j e', (j < i)%nat → es !! j = Some e' → target e' = false)
      ∧ Game.hit_enemies p es
        = (<[i := Enemy.on_base (Entity.TakeDamage (Projectile.damage p)) e]> es,
           true).
Proof.
  intros target. induction es as [|e es IH]; simpl.
  - left. split; [|done]. intros e He. by apply elem_of_nil in He.
  - fold (target e). destruct (target e) eqn:Ht.
    + right. exists 0%nat, e. split_and!; [done..| |done]. intros j e' Hj. lia.
    + destruct IH as [[Hnone ->]|(i & e0 & Hi & Ht0 & Hbefore & ->)].
      * left. split; [|done]. intros e' [->|He']%elem_of_cons; auto.
      * right. exists (S i), e0. split_and!; [done..| |done].
        intros [|j] e' Hj Hlook; simpl in Hlook; [by injection Hlook as <-|].
        apply (Hbefore j e'); [lia|done].
Qed.

(** Two enemies on the same spot and a projectile of the player upon
    them: one is hit. *)
Lemma X7_projectile_hits_first_enemy_only_witness :
  let e := (@Enemy.new counter_platform (F.ofZ 100) (F.ofZ 100) 0).1 in
  let p := Projectile.Fire (F.ofZ 100) (F.ofZ 100) RIGHT false Projectile.new in
  (Game.hit_enemies p [e; e]).2 = true.
Proof.
  intros e p.
  destruct (X7_projectile_hits_first_enemy_only p [e; e])
    as [[Hnone _]|(i & e0 & _ & _ & _ & Heq)].
  - specialize (Hnone e (list_elem_of_here e [e])).
    vm_compute in Hnone. discriminate Hnone.
  - rewrite Heq. reflexivity.
Defined.

(** X8. How [UpdateProjectiles] treats one slot: an inactive slot is
    skipped and changes nothing; a projectile of the player never changes
    the player and one of an enemy never changes the roster; a projectile
    that has left the room after its move is deactivated and damages
    nobody. *)
Theorem X8_projectile_resolution (deltaTime : float) (room : Room.t)
    (p : Projectile.t) (es : list Enemy.t) (pl : Player.t) :
  let r := Game.update_projectile deltaTime room p es pl in
  let q := Projectile.Update deltaTime p in
  (Projectile.active p = false → r = (p, es, pl))
  ∧ (Projectile.isEnemyProjectile p = false → r.2 = pl)
  ∧ (Projectile.isEnemyProjectile p = true → r.1.2 = es)
  ∧ (Projectile.active p = true →
     Room.ContainsPoint (Entity.x (Projectile.base q)) (Entity.y (Projectile.base q))
       room = false →
     r = (Game.deactivate q, es, pl)).
Proof.
  intros r q. subst r q. unfold Game.update_projectile.
  assert (Projectile.isEnemyProjectile (Projectile.Update deltaTime p)
          = Projectile.isEnemyProjectile p) as Hf
    by (unfold Projectile.Update; by destruct (Projectile.active p)).
  split_and!.
  - by intros ->.
  - intros Hp. destruct (Projectile.active p); [|done].
    destruct (negb (Room.ContainsPoint _ _ _)); [done|].
    rewrite Hf, Hp. simpl. by destruct (Game.hit_enemies _ es).
  - intros Hp. destruct (Projectile.active p); [|done].
    destruct (negb (Room.ContainsPoint _ _ _)); [done|].
    rewrite Hf, Hp. simpl. by destruct (Entity.IsColliding _ _).
  - intros -> ->. done.
Qed.

(** A spent enemy projectile next to the player, and a live one that
    flies out of the first room. *)
Lemma X8_projectile_resolution_witness :
  let room := Room.new (F.ofZ 0) (F.ofZ 0) (F.ofZ 800) (F.ofZ 600) false in
  let pl := Player.new (F.ofZ 400) (F.ofZ 300) in
  let spent := Projectile.on_base (Entity.with_active false)
                 (Projectile.Fire (F.ofZ 400) (F.ofZ 300) UP true Projectile.new) in
  let leaving := Projectile.Fire (F.ofZ 799) (F.ofZ 300) RIGHT true Projectile.new in
  Projectile.active spent = false
  ∧ Game.update_projectile (F.literal 1 60) room spent [] pl = (spent, [], pl)
  ∧ Projectile.active leaving = true
  ∧ (Game.update_projectile (F.literal 1 60) room leaving [] pl).2 = pl.
Proof.
  intros room pl spent leaving.
  destruct (X8_projectile_resolution (F.literal 1 60) room spent [] pl)
    as (Hskip & _).
  destruct (X8_projectile_resolution (F.literal 1 60) room leaving [] pl)
    as (_ & _ & _ & Hout).
  split; [reflexivity|]. split; [exact (Hskip eq_refl)|].
  split; [reflexivity|].
  rewrite (Hout eq_refl); [reflexivity|]. vm_compute. reflexivity.
Defined.

(** ** One tick and the rooms *)

(** X9. A tick simulates only the room the cursor points at: every other
    room of the level, with the positions, timers and health of its
    enemies, is after the tick exactly what it was before, and the vector
    keeps its size. *)
Theorem X9_other_rooms_are_frozen `{Platform} inp deltaTime (g g' : Game.t) :
  Game.UpdateGame inp deltaTime g = Some g' →
  length (Game.rooms g') = length (Game.rooms g)
  ∧ ∀ i, i ≠ Z.to_nat (Game.currentRoom g) →
         Game.rooms g' !! i = Game.rooms g !! i.
Proof.
  intros (gm & gt & Hsim & Ht & Hw)%UpdateGame_parts.
  apply simulate_unfold in Hsim as (room & _ & Hgm).
  apply room_transition_frame in Ht as (Hrt & _).
  apply win_lose_frame in Hw as (Hrw & _).
  rewrite Hrw, Hrt, Hgm. cbn [Game.rooms]. split.
  - apply length_insert.
  - intros i Hi. by apply list_lookup_insert_ne.
Qed.

(** The second room over the first tick of a game. *)
Lemma X9_other_rooms_are_frozen_witness :
  let g' := default in_play
              (Game.UpdateGame idle_frame (frameTime idle_frame) in_play) in
  Game.UpdateGame idle_frame (frameTime idle_frame) in_play = Some g'
  ∧ Game.rooms g' !! 1%nat = Game.rooms in_play !! 1%nat.
Proof.
  intros g'.
  assert (Game.UpdateGame idle_frame (frameTime idle_frame) in_play = Some g')
    as Hstep by (vm_compute; reflexivity).
  split; [exact Hstep|].
  apply (X9_other_rooms_are_frozen _ _ _ _ Hstep). vm_compute. intros [=].
Defined.

(** ** Room::Update on its roster *)

Lemma update_enemies_pointwise `{Platform} inp deltaTime player r i es rng :
  Forall2 (λ e e',
             if Enemy.active e
             then ∃ k rng0,
                 e' = Room.keep_inside r
                        (Room.enemy_Update inp deltaTime player k e rng0).1
             else e' = e)
    es (Room.update_enemies inp deltaTime player r i es rng).1.
Proof.
  revert i rng. induction es as [|e es IH]; intros i rng; simpl; [constructor|].
  destruct (Enemy.active e) eqn:Ha.
  - destruct (Room.enemy_Update inp deltaTime player i e rng) as [e1 rng1] eqn:He.
    specialize (IH (S i) rng1).
    destruct (Room.update_enemies _ _ _ _ _ _ _) as [es' rng']. simpl in *.
    constructor; [|done]. rewrite Ha. exists i, rng. by rewrite He.
  - specialize (IH (S i) rng).
    destruct (Room.update_enemies _ _ _ _ _ _ _) as [es' rng']. simpl in *.
    constructor; [|done]. by rewrite Ha.
Qed.

Lemma update_enemies_idle `{Platform} inp deltaTime player r i es rng :
  Room.no_active_enemy es = true →
  Room.update_enemies inp deltaTime player r i es rng = (es, rng).
Proof.
  revert i. induction es as [|e es IH]; intros i; simpl; [done|].
  destruct (Enemy.active e); [done|]. intros Hn. by rewrite (IH (S i) Hn).
Qed.

(** X10. [Room::Update] leaves defeated enemies alone: an inactive enemy
    is after the update exactly what it was; and on a roster with no
    active enemy the update only sets [cleared], it changes no enemy and
    draws nothing from the random engine. *)
Theorem X10_defeated_enemies_are_left_alone `{Platform} inp deltaTime player
    (room : Room.t) rng :
  let r := Room.Update inp deltaTime player room rng in
  (∀ i e, Room.enemies room !! i = Some e → Enemy.active e = false →
          Room.enemies r.1 !! i = Some e)
  ∧ (Room.no_active_enemy (Room.enemies room) = true →
     r = (Room.with_cleared true room, rng)).
Proof.
  intros r. subst r. unfold Room.Update. split.
  - intros i e Hi Ha.
    pose proof (update_enemies_pointwise inp deltaTime player room 0
                  (Room.enemies room) rng) as Hall.
    destruct (Room.update_enemies _ _ _ _ _ _ _) as [es rng']. simpl in *.
    destruct (Forall2_lookup_l _ _ _ _ _ Hall Hi) as (e' & He' & Hrel).
    rewrite Ha in Hrel. by rewrite He', Hrel.
  - intros Hn. rewrite (update_enemies_idle _ _ _ _ _ _ _ Hn). simpl.
    rewrite Hn. by destruct room.
Qed.

(** The room of the unit tests, its two enemies deactivated. *)
Lemma X10_defeated_enemies_are_left_alone_witness :
  Room.no_active_enemy (Room.enemies test_room) = true
  ∧ @Room.Update counter_platform idle_frame (frameTime idle_frame)
      (Player.new (F.ofZ 400) (F.ofZ 300)) test_room 7
    = (Room.with_cleared true test_room, 7).
Proof.
  split; [reflexivity|].
  apply (@X10_defeated_enemies_are_left_alone counter_platform idle_frame
           (frameTime idle_frame) (Player.new (F.ofZ 400) (F.ofZ 300))
           test_room 7).
  reflexivity.
Defined.

(** X11. [Room::Update] keeps the active enemies in the room: in a room
    wide and high enough for the enemy, an active enemy is after the
    update, whatever its move was (a NaN position included), with its
    whole circle between the walls; its radius is unchanged. *)
Theorem X11_active_enemies_are_kept_inside `{Platform} inp deltaTime player
    (room : Room.t) rng i (e e' : Enemy.t) :
  Room.enemies room !! i = Some e →
  Room.enemies (Room.Update inp deltaTime player room rng).1 !! i = Some e' →
  Enemy.active e = true →
  (Room.x room + Enemy.radius e
     <=? Room.x room + Room.width room - Enemy.radius e)%F = true →
  (Room.y room + Enemy.radius e
     <=? Room.y room + Room.height room - Enemy.radius e)%F = true →
  Enemy.radius e' = Enemy.radius e
  ∧ (Room.x room + Enemy.radius e <=? Enemy.x e')%F = true
  ∧ (Enemy.x e' <=? Room.x room + Room.width room - Enemy.radius e)%F = true
  ∧ (Room.y room + Enemy.radius e <=? Enemy.y e')%F = true
  ∧ (Enemy.y e' <=? Room.y room + Room.height room - Enemy.radius e)%F = true.
Proof.
  intros Hi Hi' Ha Hx Hy. unfold Room.Update in Hi'.
  pose proof (update_enemies_pointwise inp deltaTime player room 0
                (Room.enemies room) rng) as Hall.
  destruct (Room.update_enemies _ _ _ _ _ _ _) as [es rng']. simpl in *.
  destruct (Forall2_lookup_l _ _ _ _ _ Hall Hi) as (e0 & He0 & Hrel).
  assert (e0 = e') as -> by congruence.
  rewrite Ha in Hrel. destruct Hrel as (k & rng0 & ->).
  destruct (enemy_Update_moved inp deltaTime player k e rng0) as [(Hr & _) _].
  set (e1 := (Room.enemy_Update inp deltaTime player k e rng0).1) in *.
  assert (Enemy.radius e1 = Enemy.radius e) as Hrad by exact Hr.
  unfold Room.keep_inside, Enemy.x, Enemy.y, Enemy.radius in *. simpl.
  rewrite Hr.
  destruct (clamp_within _ _ (Entity.x (Enemy.base e1)) Hx) as [Hx1 Hx2].
  destruct (clamp_within _ _ (Entity.y (Enemy.base e1)) Hy) as [Hy1 Hy2].
  by split_and!.
Qed.

(** The first enemy of the first room over one update. *)
Lemma X11_active_enemies_are_kept_inside_witness :
  let room := default test_room (Game.room_at in_play) in
  let e := default (Enemy.ResetShootCooldown
                      (@Enemy.new counter_platform (F.ofZ 0) (F.ofZ 0) 0).1)
             (Room.enemies room !! 0%nat) in
  let r := @Room.Update counter_platform idle_frame (frameTime idle_frame)
             (Game.player in_play) room 0 in
  let e' := default e (Room.enemies r.1 !! 0%nat) in
  Enemy.active e = true
  ∧ (Room.x room + Enemy.radius e <=? Enemy.x e')%F = true
  ∧ (Enemy.x e' <=? Room.x room + Room.width room - Enemy.radius e)%F = true.
Proof.
  intros room e r e'.
  assert (Room.enemies room !! 0%nat = Some e) as Hi by (vm_compute; reflexivity).
  assert (Room.enemies r.1 !! 0%nat = Some e') as Hi' by (vm_compute; reflexivity).
  assert (Enemy.active e = true) as Ha by (vm_compute; reflexivity).
  destruct (@X11_active_enemies_are_kept_inside counter_platform idle_frame
              (frameTime idle_frame) (Game.player in_play) room 0 0%nat e e'
              Hi Hi' Ha) as (_ & Hx1 & Hx2 & _).
  - vm_compute. reflexivity.
  - vm_compute. reflexivity.
  - split; [exact Ha|]. split; [exact Hx1|exact Hx2].
Defined.

(** ** Input, pursuit and the shooting gates *)

(** X12. [Player::Update] has no inertia and resolves opposite keys by the
    order of its tests: the velocity is rebuilt from the keys of this
    frame alone, D wins over A and S over W on their axes, the facing is
    that of the last key tested among W, S, A, D that is down (and is kept
    when none is), and the position advances by that velocity times the
    frame time. *)
Theorem X12_player_input_priority (inp : Input) (deltaTime : float)
    (p : Player.t) :
  let p' := Player.Update inp deltaTime p in
  let vx := if keyD inp then PLAYER_SPEED
            else if keyA inp then (- PLAYER_SPEED)%F else F.ofZ 0 in
  let vy := if keyS inp then PLAYER_SPEED
            else if keyW inp then (- PLAYER_SPEED)%F else F.ofZ 0 in
  Player.speedX p' = vx ∧ Player.speedY p' = vy
  ∧ Player.facing p'
    = (if keyD inp then RIGHT else if keyA inp then LEFT
       else if keyS inp then DOWN else if keyW inp then UP
       else Player.facing p)
  ∧ Player.x p' = (Player.x p + vx * deltaTime)%F
  ∧ Player.y p' = (Player.y p + vy * deltaTime)%F
  ∧ Player.health p' = Player.health p
  ∧ Player.active p' = Player.active p.
Proof.
  unfold Player.Update.
  destruct (keyW inp), (keyS inp), (keyA inp), (keyD inp); cbn zeta;
    match goal with
    | |- context [if ?c then _ else _] => destruct c
    end; by split_and!.
Qed.

Lemma ChangeDirection_aggro `{Platform} (e : Enemy.t) (rng : RNG) :
  Enemy.aggro (Enemy.ChangeDirection e rng).1 = Enemy.aggro e.
Proof.
  unfold Enemy.ChangeDirection.
  by destruct (uniform_real_distribution _ _ rng).
Qed.

(** X13. The pursuit of [Enemy::Update] has no memory and does not chase:
    the old aggro flag has no influence on the update; the new flag says
    whether the player is within 150 of the enemy; an enemy that is aggro
    only turns to the player, keeping the velocity and the timer of its
    wandering and drawing nothing from the random engine, and it faces
    along the axis on which the player is farther away (right or left when
    that is x, down or up otherwise, with up when the two are equal); one
    that is not advances its timer, which restarts from 0 when it
    reaches 2. *)
Theorem X13_enemy_pursuit `{Platform} (deltaTime : float) (player : Player.t)
    (e : Enemy.t) (rng : RNG) (old : bool) :
  let dx := (Player.x player - Enemy.x e)%F in
  let dy := (Player.y player - Enemy.y e)%F in
  let near := (F.sqrt (dx * dx + dy * dy) <=? F.ofZ 150)%F in
  let r := Enemy.Update deltaTime player e rng in
  Enemy.Update deltaTime player (Enemy.with_aggro old e) rng = r
  ∧ Enemy.aggro r.1 = near
  ∧ if near
    then r.2 = rng ∧ Enemy.speedX r.1 = Enemy.speedX e
         ∧ Enemy.speedY r.1 = Enemy.speedY e
         ∧ Enemy.moveTimer r.1 = Enemy.moveTimer e
         ∧ Enemy.facing r.1
           = (if (F.abs dx >? F.abs dy)%F
              then (if (dx >? F.ofZ 0)%F then RIGHT else LEFT)
              else (if (dy >? F.ofZ 0)%F then DOWN else UP))
    else Enemy.moveTimer r.1
         = if (Enemy.moveTimer e + deltaTime >=? F.ofZ 2)%F
           then F.ofZ 0 else (Enemy.moveTimer e + deltaTime)%F.
Proof.
  intros dx dy near r. split; [reflexivity|].
  subst r. unfold Enemy.Update. fold dx dy. fold near.
  destruct near; cbn [negb Enemy.aggro Enemy.with_aggro].
  - cbn zeta.
    destruct (Enemy.shootCooldown _ >? F.ofZ 0)%F; by split_and!.
  - change (Enemy.moveTimer (Enemy.with_moveTimer (Enemy.moveTimer _ + deltaTime)%F _))
      with (Enemy.moveTimer e + deltaTime)%F.
    destruct (Enemy.moveTimer e + deltaTime >=? F.ofZ 2)%F.
    + pose proof (ChangeDirection_aggro
                    (Enemy.with_moveTimer (Enemy.moveTimer e + deltaTime)%F
                       (Enemy.with_aggro false e)) rng) as Hag.
      change (Enemy.moveTimer (Enemy.with_aggro false e))
        with (Enemy.moveTimer e) in *.
      destruct (Enemy.ChangeDirection _ rng) as [e1 rng1]. cbn zeta.
      simpl in Hag.
      destruct (Enemy.shootCooldown _ >? F.ofZ 0)%F; (split; [exact Hag|reflexivity]).
    + cbn zeta.
      destruct (Enemy.shootCooldown _ >? F.ofZ 0)%F; by split_and!.
Qed.

Lemma CanShoot_after_reset (e : Enemy.t) :
  Enemy.CanShoot (Enemy.ResetShootCooldown e) = false.
Proof. reflexivity. Qed.

(** X14. The enemies' shooting phase: an enemy is changed only by having
    its cooldown restarted, and that exactly when it is active and can
    shoot; after the phase no active enemy can shoot, so each fires at
    most once in a tick; and when no enemy is active and ready, neither
    the roster nor the game (its pool included) changes. The player, too,
    cannot shoot right after a shot. *)
Theorem X14_shooting_gates `{Platform} (es : list Enemy.t) (g : Game.t)
    (p : Player.t) :
  let r := Game.enemies_shoot es g in
  let ready e := Enemy.active e && Enemy.CanShoot e in
  r.1 = map (λ e, if ready e then Enemy.ResetShootCooldown e else e) es
  ∧ Forall (λ e, ready e = false) r.1
  ∧ (Forall (λ e, ready e = false) es → r = (es, g))
  ∧ Player.CanShoot (Player.ResetShootCooldown p) = false.
Proof.
  intros r ready. subst r. split_and!; [| | |reflexivity].
  - revert g. induction es as [|e es IH]; intros g; simpl; [done|].
    fold (ready e). destruct (ready e).
    + specialize (IH (Game.FireProjectile (Enemy.x e) (Enemy.y e)
                        (Enemy.facing e) true g)).
      destruct (Game.enemies_shoot es _) as [es' g']. simpl in *. by rewrite IH.
    + specialize (IH g). destruct (Game.enemies_shoot es g) as [es' g'].
      simpl in *. by rewrite IH.
  - revert g. induction es as [|e es IH]; intros g; simpl; [constructor|].
    fold (ready e). destruct (ready e) eqn:Hr.
    + specialize (IH (Game.FireProjectile (Enemy.x e) (Enemy.y e)
                        (Enemy.facing e) true g)).
      destruct (Game.enemies_shoot es _) as [es' g']. simpl in *.
      constructor; [|done]. unfold ready.
      rewrite CanShoot_after_reset. apply andb_false_r.
    + specialize (IH g). destruct (Game.enemies_shoot es g) as [es' g'].
      simpl in *. by constructor.
  - revert g. induction es as [|e es IH]; intros g; simpl; [done|].
    intros [He Hes]%Forall_cons. fold (ready e). rewrite He.
    by rewrite (IH g Hes).
Qed.

(** The enemies of the first room at the start: none is aggro yet. *)
Lemma X14_shooting_gates_witness :
  let es := Room.enemies (default test_room (Game.room_at in_play)) in
  es ≠ [] ∧ Game.enemies_shoot es in_play = (es, in_play).
Proof.
  intros es. split; [vm_compute; intros [=]|].
  destruct (@X14_shooting_gates counter_platform es in_play
              (Game.player in_play)) as (_ & _ & Hquiet & _).
  apply Hquiet. vm_compute. repeat constructor.
Defined.

(** ** What the game screen shows in a run *)

(** In a run the player is never past the exit boundary of a room that is
    not cleared: the transition step pulls it back to the boundary, and a
    new room is entered short of its boundary. *)
Lemma reachable_not_past_exit `{Platform} (g : Game.t) (room : Room.t) :
  reachable g → Game.room_at g = Some room →
  Room.cleared room = true
  ∨ (Player.x (Game.player g) >? Game.exit_boundary room)%F = false.
Proof.
  intros Hreach. revert room.
  assert (∀ g0 : Game.t, ∀ room,
            Game.room_at (Game.ResetGame g0) = Some room →
            (Player.x (Game.player (Game.ResetGame g0))
               >? Game.exit_boundary room)%F = false) as Hreset.
  { intros g0 room Hroom. destruct (ResetGame_fields g0) as (Hp & Hc & _).
    unfold Game.room_at in Hroom. rewrite Hc in Hroom. simpl in Hroom.
    apply generated_lookup in Hroom as (_ & Hx & _ & Hw & _).
    unfold Game.exit_boundary. rewrite Hp, Hx, Hw. by vm_compute. }
  induction Hreach as [seed|inp g g' Hreach IH Hstep]; intros room Hroom.
  - right. by apply Hreset.
  - pose proof (reachable_well_formed g Hreach) as Hwf.
    unfold Game.Update in Hstep.
    destruct (Game.isMainMenu g); [|destruct (Game.isGameOver g)].
    + injection Hstep as <-.
      destruct (enterPressed inp); apply IH; exact Hroom.
    + injection Hstep as <-. destruct (enterPressed inp); [|by apply IH].
      right. by apply Hreset.
    + apply UpdateGame_parts in Hstep as (gm & gt & Hsim & Ht & Hw).
      pose proof (simulate_well_formed _ _ _ _ Hwf Hsim) as Hwfm.
      pose proof (room_transition_well_formed _ _ Hwfm Ht) as Hwft.
      apply win_lose_frame in Hw as (Hrw & _ & _ & Hcw & Hpw).
      assert (Game.room_at gt = Some room) as Hroomt.
      { unfold Game.room_at in *. by rewrite <- Hrw, <- Hcw. }
      rewrite Hpw. clear Hrw Hcw Hpw Hroom.
      apply room_transition_spec in Ht
        as (room0 & Hroom0 & [(_ & _ & _ & next & Hnext & ->)|[(_ & _ & ->)|[-> Hc]]]).
      * right. assert (next = room) as ->
          by (unfold Game.room_at in Hnext, Hroomt; simpl in Hnext, Hroomt;
              congruence).
        apply room_at_Some in Hroomt as (Hge & Hlook & Hlt).
        destruct (wf_geometry _ Hwft _ _ Hlook) as [Hx Hwd].
        apply (entry_before_exit (Z.to_nat (Game.currentRoom
                 (Game.with_currentRoom (I32.wrap (Game.currentRoom gm + 1)) gm))));
          [|done..].
        destruct Hwft as [_ Hcur _ _ _ _]. simpl in *. lia.
      * right. assert (room0 = room) as ->
          by (unfold Game.room_at in Hroom0, Hroomt; simpl in Hroom0, Hroomt;
              congruence).
        apply F_gtb_irrefl.
      * assert (room0 = room) as -> by congruence. done.
Qed.

(** X15. The message "Defeat all enemies to proceed!" is never drawn: in
    every state of a run the test of [DrawGame] for it is false, because
    [UpdateGame] has already pulled the player back to the exit boundary
    of a room that is not cleared, and the test asks for a position
    strictly past it. *)
Theorem X15_blocked_message_is_never_drawn `{Platform} (g : Game.t) :
  reachable g → DrawGame_blocked_message g = Some false.
Proof.
  intros Hreach. unfold DrawGame_blocked_message.
  destruct (well_formed_room_at g (reachable_well_formed g Hreach)) as [room Hroom].
  rewrite Hroom. cbn [mbind option_bind]. f_equal.
  destruct (reachable_not_past_exit g room Hreach Hroom) as [-> | Hx]; [done|].
  unfold Game.exit_boundary in Hx. rewrite Hx. apply andb_false_r.
Qed.

(** The player run against the exit of the first room for two seconds. *)
Lemma X15_blocked_message_is_never_drawn_witness :
  DrawGame_blocked_message (run 120 right_frame in_play) = Some false.
Proof.
  apply (@X15_blocked_message_is_never_drawn counter_platform).
  apply run_reachable. apply in_play_reachable.
Defined.

(** In a run that is not over, the last room is not cleared while the
    cursor is on it. *)
Lemma reachable_boss_room `{Platform} (g : Game.t) (room : Room.t) :
  reachable g → Game.isGameOver g = false → Game.currentRoom g = 4 →
  Game.room_at g = Some room → Room.cleared room = false.
Proof.
  intros Hreach. revert room.
  induction Hreach as [seed|inp g g' Hreach IH Hstep]; intros room Hover Hcur Hroom.
  - unfold Game.new in Hcur.
    match type of Hcur with
    | Game.currentRoom (Game.ResetGame ?g0) = _ =>
        destruct (ResetGame_fields g0) as (_ & Hc & _)
    end.
    rewrite Hc in Hcur. done.
  - pose proof (reachable_well_formed g Hreach) as Hwf.
    unfold Game.Update in Hstep.
    destruct (Game.isMainMenu g) eqn:Hm; [|destruct (Game.isGameOver g) eqn:Ho].
    + injection Hstep as <-. destruct (enterPressed inp); by apply IH.
    + injection Hstep as <-. destruct (enterPressed inp); [|congruence].
      destruct (ResetGame_fields (Game.with_isMainMenu true g)) as (_ & Hc & _).
      rewrite Hc in Hcur. done.
    + apply UpdateGame_parts in Hstep as (gm & gt & Hsim & Ht & Hw).
      pose proof (simulate_well_formed _ _ _ _ Hwf Hsim) as Hwfm.
      pose proof (room_transition_well_formed _ _ Hwfm Ht) as Hwft.
      destruct (cursor_arith gt Hwft) as (Hof & Hlen & _).
      pose proof (win_lose_iff _ _ Hw) as Hiff.
      apply win_lose_frame in Hw as (Hrw & _ & _ & Hcw & _).
      assert (Game.room_at gt = Some room) as Hroomt.
      { unfold Game.room_at in *. by rewrite <- Hrw, <- Hcw. }
      destruct (Room.cleared room) eqn:Hcl; [|done].
      assert (Game.isGameOver g' = true) as Hover'; [|congruence].
      apply Hiff. right. right. split; [|by exists room].
      rewrite Hof, Hlen. congruence.
Qed.

(** X16. What [DrawPlayerUI] shows in a run: it never divides by zero;
    the green bar is twice the health wide, so between 0 and the 200 of
    its red background; the room counter reads the cursor plus one out of
    5, between 1 and 5; and during play the boss warning is drawn exactly
    while the cursor is on the last room. *)
Theorem X16_player_ui `{Platform} (g : Game.t) :
  reachable g →
  ∃ hud, DrawPlayerUI g = Some hud
    ∧ bar_width hud = 2 * Player.health (Game.player g)
    ∧ 0 ≤ bar_width hud ≤ 200
    ∧ health_text hud = (Player.health (Game.player g), 100)
    ∧ room_text hud = (Game.currentRoom g + 1, 5)
    ∧ 1 ≤ Game.currentRoom g + 1 ≤ 5
    ∧ (Game.isGameOver g = false →
       boss_warning hud = (Game.currentRoom g =? 4)).
Proof.
  intros Hreach.
  pose proof (reachable_well_formed g Hreach) as Hwf.
  destruct (reachable_sound g Hreach) as [Hv [_ Hmax] _ _ _].
  destruct Hv as ([Hh0 Hh1] & _ & _).
  destruct (cursor_arith g Hwf) as (Hof & Hlen & Hinc).
  destruct (well_formed_room_at g Hwf) as [room Hroom].
  pose proof (wf_rooms g Hwf) as Hn. pose proof (wf_cursor g Hwf) as Hcur.
  unfold DrawPlayerUI, Player.health in *.
  rewrite Hmax in *. unfold PLAYER_HEALTH in *.
  change (100 =? 0) with false. cbn match.
  rewrite Hof, Hlen, Hroom, Hinc, Hn. cbn [mbind option_bind].
  assert (I32.wrap (200 * Entity.health (Player.base (Game.player g)))
          = 200 * Entity.health (Player.base (Game.player g))) as ->.
  { apply I32_wrap_in_range. unfold I32.in_range, I32.min_int, I32.max_int. lia. }
  assert (200 * Entity.health (Player.base (Game.player g))
          = 2 * Entity.health (Player.base (Game.player g)) * 100) as -> by lia.
  rewrite Z.quot_mul by lia.
  assert (I32.wrap (2 * Entity.health (Player.base (Game.player g)))
          = 2 * Entity.health (Player.base (Game.player g))) as Hbar.
  { apply I32_wrap_in_range. unfold I32.in_range, I32.min_int, I32.max_int. lia. }
  destruct (Z.eqb_spec (Game.currentRoom g) 4) as [Heq|Hne].
  - cbn [mbind option_bind]. eexists. split; [reflexivity|]. simpl.
    rewrite Hbar. split_and!; try done; try lia.
    intros Hover. by rewrite (reachable_boss_room g room Hreach Hover Heq Hroom).
  - cbn [mbind option_bind]. eexists. split; [reflexivity|]. simpl.
    rewrite Hbar. split_and!; try done; try lia.
Qed.

(** The second room of the play-through, the player at 30 health. *)
Lemma X16_player_ui_witness :
  let g := run 600 shoot_right_frame (run 60 up_frame in_play) in
  ∃ hud, DrawPlayerUI g = Some hud
         ∧ bar_width hud = 60 ∧ room_text hud = (2, 5)
         ∧ boss_warning hud = false.
Proof.
  intros g.
  assert (reachable g) as Hreach
    by (apply run_reachable, run_reachable, in_play_reachable).
  destruct (@X16_player_ui counter_platform g Hreach)
    as (hud & Hhud & Hbar & _ & _ & Hroom & _ & Hboss).
  exists hud. split; [exact Hhud|].
  assert (Player.health (Game.player g) = 30) as Hh by (vm_compute; reflexivity).
  assert (Game.currentRoom g = 1) as Hc by (vm_compute; reflexivity).
  assert (Game.isGameOver g = false) as Ho by (vm_compute; reflexivity).
  rewrite Hh in Hbar. rewrite Hc in Hroom. rewrite (Hboss Ho), Hc.
  split; [exact Hbar|]. split; [exact Hroom|reflexivity].
Defined.

(** ** The flight of a projectile and the pool *)

Lemma F_add_zero_mul (v deltaTime : float) :
  finite_float deltaTime = true → v ≠ S754_nan →
  F.eqb (v + F.ofZ 0 * deltaTime)%F v = true.
Proof.
  intros Hdt Hv.
  assert (∃ s, (F.ofZ 0 * deltaTime)%F = S754_zero s) as [s ->].
  { destruct deltaTime as [s| | |s m e]; try done; by eexists. }
  unfold F.eqb, SFeqb.
  destruct v as [sv|sv| |sv mv ev]; try done.
  - by destruct sv, s.
  - by destruct sv.
  - change (S754_finite sv mv ev + S754_zero s)%F with (S754_finite sv mv ev).
    destruct (SFcompare_refl (S754_finite sv mv ev)) as [-> | Hn]; [done|].
    apply SFcompare_None in Hn. by destruct Hn.
Qed.

(** X17. A projectile flies straight: after [Fire] from a position that
    is a number and one [Update] over a frame time that is finite, the
    coordinate along the direction of fire has advanced by 400 times the
    frame time, and the other coordinate still compares equal to the one
    it was fired from; the projectile is active. *)
Theorem X17_projectile_flies_straight (startX startY deltaTime : float)
    (dir : Direction) (fromEnemy : bool) (p : Projectile.t) :
  finite_float deltaTime = true → startX ≠ S754_nan → startY ≠ S754_nan →
  let q := Projectile.Update deltaTime
             (Projectile.Fire startX startY dir fromEnemy p) in
  let qx := Entity.x (Projectile.base q) in
  let qy := Entity.y (Projectile.base q) in
  Projectile.active q = true
  ∧ match dir with
    | RIGHT => qx = (startX + PROJECTILE_SPEED * deltaTime)%F
               ∧ F.eqb qy startY = true
    | LEFT => qx = (startX + - PROJECTILE_SPEED * deltaTime)%F
              ∧ F.eqb qy startY = true
    | DOWN => F.eqb qx startX = true
              ∧ qy = (startY + PROJECTILE_SPEED * deltaTime)%F
    | UP => F.eqb qx startX = true
            ∧ qy = (startY + - PROJECTILE_SPEED * deltaTime)%F
    end.
Proof.
  intros Hdt Hx Hy q qx qy. subst qx qy q.
  pose proof (F_add_zero_mul startX deltaTime Hdt Hx) as Hx0.
  pose proof (F_add_zero_mul startY deltaTime Hdt Hy) as Hy0.
  unfold Projectile.Update, Projectile.Fire.
  destruct dir, fromEnemy; (split; [reflexivity|]); split;
    first [reflexivity | exact Hx0 | exact Hy0].
Qed.

(** The shot of the unit tests: from (100, 100) to the right, 0.5 s. *)
Lemma X17_projectile_flies_straight_witness :
  let q := Projectile.Update (F.literal 5 10)
             (Projectile.Fire (F.ofZ 100) (F.ofZ 100) RIGHT false Projectile.new) in
  Projectile.active q = true
  ∧ Entity.x (Projectile.base q)
    = (F.ofZ 100 + PROJECTILE_SPEED * F.literal 5 10)%F
  ∧ F.eqb (Entity.y (Projectile.base q)) (F.ofZ 100) = true.
Proof.
  apply (X17_projectile_flies_straight (F.ofZ 100) (F.ofZ 100) (F.literal 5 10)
           RIGHT false Projectile.new).
  - vm_compute. reflexivity.
  - vm_compute. intros [=].
  - vm_compute. intros [=].
Defined.

Lemma Fire_slot_ok sx sy dir isEnemy p :
  slot_ok p → slot_ok (Projectile.Fire sx sy dir isEnemy p).
Proof.
  intros (Hr & Hh & _). unfold slot_ok, Projectile.Fire.
  destruct dir, isEnemy; simpl; split_and!; auto.
Qed.

Lemma Projectile_Update_slot_ok deltaTime p :
  slot_ok p → slot_ok (Projectile.Update deltaTime p).
Proof. unfold Projectile.Update. by destruct (Projectile.active p). Qed.

Lemma deactivate_slot_ok p : slot_ok p → slot_ok (Game.deactivate p).
Proof. done. Qed.

Lemma fire_scan_slot_ok sx sy dir isEnemy ps :
  Forall slot_ok ps → Forall slot_ok (Game.fire_scan sx sy dir isEnemy ps).
Proof.
  induction 1 as [|p ps Hp Hps IH]; simpl; [constructor|].
  destruct (Projectile.active p); simpl; [by constructor|].
  destruct (Game.spawn sx sy dir). constructor; [|done].
  by apply Fire_slot_ok.
Qed.

Lemma enemies_shoot_slot_ok `{Platform} es (g : Game.t) :
  Forall slot_ok (Game.projectiles g) →
  Forall slot_ok (Game.projectiles (Game.enemies_shoot es g).2).
Proof.
  revert g. induction es as [|e es IH]; intros g Hg; simpl; [done|].
  destruct (Enemy.active e && Enemy.CanShoot e).
  - specialize (IH (Game.FireProjectile (Enemy.x e) (Enemy.y e)
                      (Enemy.facing e) true g)).
    destruct (Game.enemies_shoot es _) as [es' g']. simpl in *.
    apply IH. by apply fire_scan_slot_ok.
  - specialize (IH g Hg). by destruct (Game.enemies_shoot es g) as [es' g'].
Qed.

Lemma update_projectile_slot_ok `{Platform} deltaTime room p es pl :
  slot_ok p → slot_ok (Game.update_projectile deltaTime room p es pl).1.1.
Proof.
  intros Hp. unfold Game.update_projectile.
  pose proof (Projectile_Update_slot_ok deltaTime p Hp) as Hq.
  destruct (Projectile.active p); [|done].
  destruct (negb (Room.ContainsPoint _ _ _)); [done|].
  destruct (negb (Projectile.isEnemyProjectile _)).
  - destruct (Game.hit_enemies _ es) as [es' hit]. by destruct hit.
  - by destruct (Entity.IsColliding _ _).
Qed.

Lemma update_projectiles_slot_ok `{Platform} deltaTime room ps es pl :
  Forall slot_ok ps →
  Forall slot_ok (Game.update_projectiles deltaTime room ps es pl).1.1.
Proof.
  intros Hps. revert es pl.
  induction Hps as [|p ps Hp _ IH]; intros es pl; simpl; [constructor|].
  pose proof (update_projectile_slot_ok deltaTime room p es pl Hp) as Hq.
  destruct (Game.update_projectile deltaTime room p es pl) as [[p' es'] pl'].
  specialize (IH es' pl').
  destruct (Game.update_projectiles deltaTime room ps es' pl') as [[ps' es''] pl''].
  simpl in *. by constructor.
Qed.

Lemma UpdateGame_slot_ok `{Platform} inp deltaTime (g g' : Game.t) :
  Forall slot_ok (Game.projectiles g) →
  Game.UpdateGame inp deltaTime g = Some g' →
  Forall slot_ok (Game.projectiles g').
Proof.
  intros Hg (gm & gt & Hsim & Ht & Hw)%UpdateGame_parts.
  apply simulate_unfold in Hsim as (room & _ & Hgm).
  apply room_transition_frame in Ht as (_ & Hpt & _).
  apply win_lose_frame in Hw as (_ & Hpw & _).
  rewrite Hpw, Hpt, Hgm. cbn [Game.projectiles].
  apply update_projectiles_slot_ok. unfold after_shooting.
  apply enemies_shoot_slot_ok.
  destruct (keySpace inp && _); [|done].
  by apply fire_scan_slot_ok.
Qed.

Lemma ResetGame_slot_ok `{Platform} (g : Game.t) :
  Forall slot_ok (Game.projectiles g) →
  Forall slot_ok (Game.projectiles (Game.ResetGame g)).
Proof.
  intros Hg. destruct (ResetGame_fields g) as (_ & _ & _ & _ & ->).
  apply Forall_fmap. by eapply Forall_impl.
Qed.

(** X18. In every state of a run the pool has 100 slots, and every slot,
    active or not, has radius 5 and health 1, carries the damage and the
    colour of its side (5 and red for the enemies, 10 and yellow for the
    player) and is at rest or flies along one axis at 400: no other way to
    write a slot exists than the constructor, [Fire], [Update] and the
    deactivations. *)
Theorem X18_pool_slots `{Platform} (g : Game.t) (p : Projectile.t) :
  reachable g → p ∈ Game.projectiles g →
  length (Game.projectiles g) = 100%nat ∧ slot_ok p.
Proof.
  intros Hreach Hp. split; [apply (wf_pool g), reachable_well_formed, Hreach|].
  revert p Hp. apply Forall_forall.
  induction Hreach as [seed|inp g g' Hreach IH Hstep].
  - apply ResetGame_slot_ok. cbn [Game.projectiles]. apply Forall_replicate.
    unfold slot_ok. simpl. split_and!; auto.
  - unfold Game.Update in Hstep.
    destruct (Game.isMainMenu g); [|destruct (Game.isGameOver g)].
    + injection Hstep as <-. by destruct (enterPressed inp).
    + injection Hstep as <-. destruct (enterPressed inp); [|done].
      by apply ResetGame_slot_ok.
    + by eapply UpdateGame_slot_ok.
Qed.

(** A slot fired by the player during the play-through. *)
Lemma X18_pool_slots_witness :
  let g := run 20 shoot_right_frame in_play in
  let p := default Projectile.new (Game.projectiles g !! 0%nat) in
  Projectile.active p = true ∧ Projectile.damage p = 10
  ∧ Projectile.speedX p = PROJECTILE_SPEED.
Proof.
  intros g p.
  assert (reachable g) as Hreach by (apply run_reachable, in_play_reachable).
  assert (Game.projectiles g !! 0%nat = Some p) as Hp by (vm_compute; reflexivity).
  destruct (@X18_pool_slots counter_platform g p Hreach
              (list_elem_of_lookup_2 _ _ _ Hp)) as (_ & _ & _ & Hd & _).
  split; [vm_compute; reflexivity|]. split; [|vm_compute; reflexivity].
  rewrite Hd. vm_compute. reflexivity.
Defined.

(** ** Runs as a whole *)

(** X19. A run never reads outside its vectors: in every state of a run,
    whatever the input of the next frame, [Update] is carried out to its
    end, [rooms[currentRoom]] being within the vector at each of its
    uses, after the cursor has advanced too; and the state it leaves is
    again one with five rooms and a cursor among them. *)
Theorem X19_a_run_stays_within_its_vectors `{Platform} (inp : Input)
    (g : Game.t) :
  reachable g →
  ∃ g', Game.Update inp g = Some g'
        ∧ length (Game.rooms g') = 5%nat
        ∧ 0 ≤ Game.currentRoom g' < 5
        ∧ is_Some (Game.room_at g').
Proof.
  intros Hreach. pose proof (reachable_well_formed g Hreach) as Hwf.
  destruct (Update_total inp g Hwf) as [g' Hstep]. exists g'.
  pose proof (Update_well_formed _ _ _ Hwf Hstep) as Hwf'.
  split_and!; [done|apply (wf_rooms g' Hwf')|apply (wf_cursor g' Hwf')..|].
  by apply well_formed_room_at.
Qed.

(** The frame after the play-through has entered the second room. *)
Lemma X19_a_run_stays_within_its_vectors_witness :
  ∃ g', Game.Update shoot_right_frame
          (run 600 shoot_right_frame (run 60 up_frame in_play)) = Some g'
        ∧ length (Game.rooms g') = 5%nat.
Proof.
  destruct (@X19_a_run_stays_within_its_vectors counter_platform
              shoot_right_frame
              (run 600 shoot_right_frame (run 60 up_frame in_play)))
    as (g' & Hstep & Hn & _).
  - apply run_reachable, run_reachable, in_play_reachable.
  - exists g'. split; [exact Hstep|exact Hn].
Defined.

(** X20. Nothing heals: over a Playing tick of a run the health of the
    player does not grow, and in every room every enemy keeps its place
    in the roster and its kind, and its health does not grow. *)
Theorem X20_nothing_heals `{Platform} (inp : Input) (g g' : Game.t) :
  reachable g → playing g → Game.Update inp g = Some g' →
  Player.health (Game.player g') ≤ Player.health (Game.player g)
  ∧ Forall2
      (λ r r', Forall2 (λ e e', Enemy.health e' ≤ Enemy.health e
                                ∧ Enemy.isBoss e' = Enemy.isBoss e)
                 (Room.enemies r) (Room.enemies r'))
      (Game.rooms g) (Game.rooms g').
Proof.
  intros Hreach Hplay Hstep. rewrite (Update_playing inp g Hplay) in Hstep.
  pose proof (reachable_well_formed g Hreach) as Hwf.
  destruct (reachable_sound g Hreach) as [Hpv _ _ Hev _].
  apply UpdateGame_parts in Hstep as (gm & gt & Hsim & Ht & Hw).
  destruct (simulate_aged _ _ _ _ (wf_damage g Hwf) Hsim)
    as (room & room' & Hroom & _ & Hrs & _ & _ & _ & _ & _ & _ & Hes & Hpl).
  apply room_transition_frame in Ht as (Hrt & _ & _ & _ & _ & Hht).
  apply win_lose_frame in Hw as (Hrw & _ & _ & _ & Hpw).
  split.
  - rewrite Hpw, Hht.
    destruct Hpl as (_ & _ & _ & _ & _ & _ & Hstruck).
    destruct (Player_Update_moved inp (frameTime inp) (Game.player g))
      as (_ & Hh & _).
    destruct (keep_player_inside_moved room
                (Player.Update inp (frameTime inp) (Game.player g)))
      as (_ & Hh' & _).
    assert (vital (Player.base (Game.keep_player_inside room
              (Player.Update inp (frameTime inp) (Game.player g))))) as Hv.
    { eapply moved_vital; [apply keep_player_inside_moved|].
      eapply moved_vital; [apply Player_Update_moved|done]. }
    destruct (Hstruck Hv) as [_ Hle]. unfold Player.health.
    rewrite <- Hh, <- Hh'. exact Hle.
  - rewrite Hrw, Hrt, Hrs.
    apply room_at_Some in Hroom as (_ & Hlook & _).
    rewrite <- (list_insert_id (Game.rooms g) _ _ Hlook) at 1.
    apply Forall2_insert.
    + apply Forall_Forall2_diag, Forall_forall. intros r _.
      apply Forall_Forall2_diag, Forall_forall. intros e _. split; [lia|done].
    + assert (∀ e, e ∈ Room.enemies room → vital (Enemy.base e)) as Hvit.
      { intros e He. eapply Hev; [|done]. by eapply list_elem_of_lookup_2. }
      clear Hrs Hlook. induction Hes as [|e e' es es' [Hage Hb] _ IH];
        [constructor|].
      constructor.
      * destruct Hage as (_ & _ & _ & Hv). split; [|done].
        apply Hv, Hvit. by left.
      * apply IH. intros e0 He0. apply Hvit. by right.
Qed.

(** The tick of the play-through in which the player is killed. *)
Lemma X20_nothing_heals_witness :
  let g := run 990 shoot_right_frame (run 60 up_frame in_play) in
  let g' := run 1 shoot_right_frame g in
  Game.Update shoot_right_frame g = Some g'
  ∧ Player.health (Game.player g') ≤ Player.health (Game.player g).
Proof.
  intros g g'.
  assert (Game.Update shoot_right_frame g = Some g') as Hstep
    by (vm_compute; reflexivity).
  split; [exact Hstep|].
  apply (@X20_nothing_heals counter_platform shoot_right_frame g g').
  - apply run_reachable, run_reachable, in_play_reachable.
  - split; vm_compute; reflexivity.
  - exact Hstep.
Defined.

(** ** Damage, hit after hit *)

(** X21. The hits it takes: an active entity of health [h] that takes
    [k] hits of [d] each is left with [h - k * d] health, or 0 when that
    is not positive, and is active exactly while that is positive. An
    enemy of 30 health falls to the third projectile of the player, the
    boss of 150 to the fifteenth, the player of 100 to the twentieth of
    the enemies. *)
Theorem X21_hits_to_defeat (e : Entity.t) (d : Z) (k : nat) :
  0 < d ≤ I32.max_int → 0 < Entity.health e ≤ I32.max_int →
  Entity.active e = true →
  let e' := Nat.iter k (Entity.TakeDamage d) e in
  Entity.health e' = Z.max 0 (Entity.health e - Z.of_nat k * d)
  ∧ Entity.active e' = (0 <? Entity.health e - Z.of_nat k * d).
Proof.
  intros Hd Hh Ha e'. subst e'. unfold I32.max_int in *.
  induction k as [|k [IHh IHa]].
  - simpl. split; [lia|]. rewrite Ha. symmetry. apply Z.ltb_lt. lia.
  - rewrite Nat.iter_succ. set (e1 := Nat.iter k (Entity.TakeDamage d) e) in *.
    unfold Entity.TakeDamage. cbn [Entity.health Entity.with_health].
    rewrite I32_wrap_in_range
      by (unfold I32.in_range, I32.min_int, I32.max_int; lia).
    destruct (Z.leb_spec (Entity.health e1 - d) 0) as [Hle|Hgt]; simpl.
    + split; [lia|]. symmetry. apply Z.ltb_ge. lia.
    + split; [lia|]. rewrite IHa.
      transitivity true; [apply Z.ltb_lt|symmetry; apply Z.ltb_lt]; lia.
Qed.

(** An enemy under the projectiles of the player: alive after two, at 10
    health, and defeated by the third. *)
Lemma X21_hits_to_defeat_witness :
  let e := Entity.new (F.ofZ 100) (F.ofZ 100) (F.ofZ 12) ENEMY_HEALTH RED in
  (Entity.health (Nat.iter 2 (Entity.TakeDamage 10) e) = 10
   ∧ Entity.active (Nat.iter 2 (Entity.TakeDamage 10) e) = true)
  ∧ (Entity.health (Nat.iter 3 (Entity.TakeDamage 10) e) = 0
     ∧ Entity.active (Nat.iter 3 (Entity.TakeDamage 10) e) = false).
Proof.
  intros e. split.
  - apply (X21_hits_to_defeat e 10 2); vm_compute; done.
  - apply (X21_hits_to_defeat e 10 3); vm_compute; done.
Defined.

(** ** Where the enemies are put *)

Lemma draw_position_spec `{Platform} i rng :
  ∃ rng1 rng2,
    (Game.draw_position i rng).1.1
    = (uniform_real_distribution
         (F.ofZ i * F.ofZ 800 + F.ofZ 100)%F
         (F.ofZ i * F.ofZ 800 + F.ofZ 700)%F rng1).1
    ∧ (Game.draw_position i rng).1.2
      = (uniform_real_distribution (F.ofZ 100) (F.ofZ 500) rng2).1.
Proof.
  unfold Game.draw_position. destruct arguments_left_to_right.
  - exists rng,
      (uniform_real_distribution
         (F.ofZ i * F.ofZ 800 + F.ofZ 100)%F
         (F.ofZ i * F.ofZ 800 + F.ofZ 700)%F rng).2.
    destruct (uniform_real_distribution _ _ rng) as [ex rng1]. cbn [snd].
    by destruct (uniform_real_distribution _ _ rng1) as [ey rng2].
  - exists (uniform_real_distribution (F.ofZ 100) (F.ofZ 500) rng).2, rng.
    destruct (uniform_real_distribution _ _ rng) as [ey rng1]. cbn [snd].
    by destruct (uniform_real_distribution _ _ rng1) as [ex rng2].
Qed.

Lemma add_enemies_positions `{Platform} (Q : Enemy.t → Prop) n i r rng :
  (∀ ex ey rng1 rng2 rng3,
     ex = (uniform_real_distribution
             (F.ofZ i * F.ofZ 800 + F.ofZ 100)%F
             (F.ofZ i * F.ofZ 800 + F.ofZ 700)%F rng1).1 →
     ey = (uniform_real_distribution (F.ofZ 100) (F.ofZ 500) rng2).1 →
     Q (Enemy.new ex ey rng3).1) →
  Forall Q (Room.enemies r) →
  Forall Q (Room.enemies (Game.add_enemies n i r rng).1).
Proof.
  intros HQ. revert r rng. induction n as [|n IH]; intros r rng Hr; [done|].
  cbn [Game.add_enemies].
  destruct (draw_position_spec i rng) as (rng1 & rng1' & Hex & Hey).
  destruct (Game.draw_position i rng) as [[ex ey] rng2]. cbn [fst snd] in Hex, Hey.
  unfold Room.AddEnemy.
  pose proof (HQ ex ey rng1 rng1' rng2 Hex Hey) as He.
  destruct (Enemy.new ex ey rng2) as [e rng3]. simpl in He.
  apply IH. simpl. apply Forall_app. split; [done|]. by constructor.
Qed.

(** X22. Enemies are put away from the walls: when the real distribution
    stays within the bounds it is given, every enemy that [ResetGame]
    puts in room [i], the boss apart, is between 100 and 700 from the
    left wall of its room and between y = 100 and y = 500, whichever of
    the two coordinates the compiler has drawn first
    ([arguments_left_to_right] is any). *)
Theorem X22_enemies_spawn_away_from_walls `{Platform} (g : Game.t) (i : nat)
    (r : Room.t) (e : Enemy.t) :
  (∀ lo hi rng, (lo <=? hi)%F = true →
     (lo <=? (uniform_real_distribution lo hi rng).1)%F = true
     ∧ ((uniform_real_distribution lo hi rng).1 <=? hi)%F = true) →
  Game.rooms (Game.ResetGame g) !! i = Some r →
  e ∈ Room.enemies r → Enemy.isBoss e = false →
  (Room.x r + F.ofZ 100 <=? Enemy.x e)%F = true
  ∧ (Enemy.x e <=? Room.x r + F.ofZ 700)%F = true
  ∧ (F.ofZ 100 <=? Enemy.y e)%F = true
  ∧ (Enemy.y e <=? F.ofZ 500)%F = true.
Proof.
  intros Hreal Hi He Hplain.
  pose proof (generated_lookup g i r Hi) as (Hlt & Hx & _).
  unfold Game.ResetGame in Hi.
  match type of Hi with
  | context [Game.make_rooms ?todo ?rs0 ?rng0] =>
      destruct (make_rooms_made todo rs0 rng0) as (rs & Hrs & Hmade);
      destruct (Game.make_rooms todo rs0 rng0) as [rs1 rng]
  end.
  simpl in Hrs, Hi. subst rs1.
  destruct (Forall2_lookup_r _ _ _ _ _ Hmade Hi) as (z & Hz & rng0 & Hr).
  assert (z = Z.of_nat i) as ->.
  { do 5 (destruct i as [|i]; [by injection Hz as <-|]). done. }
  rewrite Hx. clear Hx Hi Hmade Hz. subst r.
  set (Q := λ e : Enemy.t,
         Enemy.isBoss e = false →
         (F.ofZ (Z.of_nat i) * F.ofZ 800 + F.ofZ 100 <=? Enemy.x e)%F = true
         ∧ (Enemy.x e <=? F.ofZ (Z.of_nat i) * F.ofZ 800 + F.ofZ 700)%F = true
         ∧ (F.ofZ 100 <=? Enemy.y e)%F = true
         ∧ (Enemy.y e <=? F.ofZ 500)%F = true).
  assert (Forall Q (Room.enemies (Game.make_room (Z.of_nat i) rng0).1)) as Hall.
  { unfold Game.make_room. destruct (Z.of_nat i =? 4).
    - unfold Room.AddBoss.
      pose proof (Boss_new_fresh (F.ofZ (Z.of_nat i) * F.ofZ 800 + F.ofZ 400)%F
                    (F.ofZ 300) rng0) as (_ & Hb & _).
      destruct (Boss.new _ _ rng0) as [boss rng1]. simpl in *.
      constructor; [|constructor]. intros Hb'. congruence.
    - destruct (uniform_int_distribution 3 6 rng0) as [n rng1].
      apply add_enemies_positions; [|constructor].
      intros ex ey rng2 rng3 rng4 -> -> _.
      destruct (Enemy_new_fresh
                  (uniform_real_distribution
                     (F.ofZ (Z.of_nat i) * F.ofZ 800 + F.ofZ 100)%F
                     (F.ofZ (Z.of_nat i) * F.ofZ 800 + F.ofZ 700)%F rng2).1
                  (uniform_real_distribution (F.ofZ 100) (F.ofZ 500) rng3).1
                  rng4) as (_ & _ & -> & ->).
      assert ((F.ofZ (Z.of_nat i) * F.ofZ 800 + F.ofZ 100
                 <=? F.ofZ (Z.of_nat i) * F.ofZ 800 + F.ofZ 700)%F = true) as Hxs.
      { clear -Hlt. do 5 (destruct i as [|i]; [by vm_compute|]). lia. }
      destruct (Hreal _ _ rng2 Hxs) as [Hx1 Hx2].
      destruct (Hreal (F.ofZ 100) (F.ofZ 500) rng3 eq_refl) as [Hy1 Hy2].
      by split_and!. }
  rewrite Forall_forall in Hall. by apply Hall.
Qed.

(** The first enemy of the first room on the counter platform. *)
Lemma X22_enemies_spawn_away_from_walls_witness :
  let r := default test_room (Game.rooms start !! 0%nat) in
  let e := default (@Enemy.new counter_platform (F.ofZ 0) (F.ofZ 0) 0).1
             (Room.enemies r !! 0%nat) in
  Game.rooms start !! 0%nat = Some r ∧ Room.enemies r !! 0%nat = Some e
  ∧ (Room.x r + F.ofZ 100 <=? Enemy.x e)%F = true
  ∧ (Enemy.x e <=? Room.x r + F.ofZ 700)%F = true.
Proof.
  intros r e.
  assert (Game.rooms start !! 0%nat = Some r) as Hr by (vm_compute; reflexivity).
  assert (Room.enemies r !! 0%nat = Some e) as He by (vm_compute; reflexivity).
  split; [exact Hr|]. split; [exact He|].
  destruct (@X22_enemies_spawn_away_from_walls counter_platform
              (@Game.mk counter_platform true false
                 (Player.new (F.ofZ (SCREEN_WIDTH / 2)) (F.ofZ (SCREEN_HEIGHT / 2)))
                 [] 0 (replicate 100 Projectile.new) 0)
              0%nat r e) as (Hx1 & Hx2 & _).
  - intros lo hi rng Hle. split; [|exact Hle].
    apply F_leb_refl. by destruct (F_leb_not_nan _ _ Hle).
  - exact Hr.
  - exact (list_elem_of_lookup_2 _ _ _ He).
  - vm_compute. reflexivity.
  - split; [exact Hx1|exact Hx2].
Defined.
